(** * pyp2p.sock: a line-delimited message channel over a stream socket

    A shallow embedding of [src/pyp2p/sock.py] (class [Sock]) and the
    properties of its framing, buffering, sending and error paths.

    Conventions of the embedding.
    - Python 3 semantics: [str] is a sequence of code points, [bytes] a
      sequence of octets; [socket.timeout] and [ssl.SSLError] are caught
      before the generic [socket.error] clause, as the [except] clauses are
      ordered in the source.  The name [sys] is taken to come with
      [from .lib import *], so the version tests select the Python 3
      branches.
    - The object [self] is the record [Sock]; every method is a function
      from the state before the call to an [outcome] and the state after.
    - The transport ([socket.socket]), the clock ([time.time]) and the error
      sink ([log_exception]) are external: they are played by a scripted
      peer, a list of clock readings and a list of recorded errors, kept in
      the [world] field.
    - Loops that the source does not bound ([while repeat], [while True])
      take a step budget; [OutOfFuel] marks a run cut short by the budget. *)

From Stdlib Require Import String.
From Stdlib Require Import List ZArith NArith Lia Bool.
From Stdlib.Strings Require Import Byte.
Import ListNotations.

Set Implicit Arguments.

(** ** Text and bytes *)

(** A Python [str] is a list of code points, a [bytes] value a list of
    octets. *)
Definition char := N.
Definition ustr := list char.
Definition bytes := list byte.

Definition CR : char := 13%N.
Definition LF : char := 10%N.

(** [u"\r\n"], the value [__init__] stores in [self.delimiter]. *)
Definition CRLF : ustr := [CR; LF].

Definition ord (b : byte) : N := Byte.to_N b.

(** The text of an ASCII literal, for examples. *)
Definition text (lit : string) : ustr := map ord (list_byte_of_string lit).

Definition ustr_eqb (a b : ustr) : bool :=
  if list_eq_dec N.eq_dec a b then true else false.

Definition is_empty {A} (l : list A) : bool :=
  match l with [] => true | _ => false end.

(** *** Codecs ([bytes.decode], [str.encode]) *)

Definition continuation (n : N) : bool := ((128 <=? n) && (n <? 192))%N.

(** Second octet of a three-octet sequence: no overlong forms, no
    surrogates. *)
Definition second_of_three (n0 n1 : N) : bool :=
  (if n0 =? 224 then (160 <=? n1) && (n1 <? 192)
   else if n0 =? 237 then (128 <=? n1) && (n1 <? 160)
   else continuation n1)%N.

(** Second octet of a four-octet sequence: no overlong forms, nothing above
    U+10FFFF. *)
Definition second_of_four (n0 n1 : N) : bool :=
  (if n0 =? 240 then (144 <=? n1) && (n1 <? 192)
   else if n0 =? 244 then (128 <=? n1) && (n1 <? 144)
   else continuation n1)%N.

(** [chunk.decode("utf-8")] with the default strict error handling: [None]
    stands for [UnicodeDecodeError]. *)
Fixpoint decode_utf8 (bs : bytes) : option ustr :=
  match bs with
  | [] => Some []
  | b0 :: r0 =>
    let n0 := ord b0 in
    if (n0 <? 128)%N then option_map (cons n0) (decode_utf8 r0)
    else
      match r0 with
      | [] => None
      | b1 :: r1 =>
        let n1 := ord b1 in
        if ((194 <=? n0) && (n0 <? 224))%N then
          if continuation n1
          then option_map (cons ((n0 - 192) * 64 + (n1 - 128))%N)
                          (decode_utf8 r1)
          else None
        else
          match r1 with
          | [] => None
          | b2 :: r2 =>
            let n2 := ord b2 in
            if ((224 <=? n0) && (n0 <? 240))%N then
              if second_of_three n0 n1 && continuation n2
              then option_map
                     (cons ((n0 - 224) * 4096 + (n1 - 128) * 64
                            + (n2 - 128))%N)
                     (decode_utf8 r2)
              else None
            else
              match r2 with
              | [] => None
              | b3 :: r3 =>
                let n3 := ord b3 in
                if ((240 <=? n0) && (n0 <? 245))%N
                   && second_of_four n0 n1
                   && continuation n2 && continuation n3
                then option_map
                       (cons ((n0 - 240) * 262144 + (n1 - 128) * 4096
                              + (n2 - 128) * 64 + (n3 - 128))%N)
                       (decode_utf8 r3)
                else None
              end
          end
      end
  end.

(** [chunk.decode("latin-1")] never fails: one code point per octet. *)
Definition decode_latin1 (bs : bytes) : ustr := map ord bs.

(** [msg.encode("ascii")]: [None] stands for [UnicodeEncodeError]. *)
Fixpoint encode_ascii (m : ustr) : option bytes :=
  match m with
  | [] => Some []
  | c :: m' =>
    if (c <? 128)%N then
      match Byte.of_N c, encode_ascii m' with
      | Some b, Some bs => Some (b :: bs)
      | _, _ => None
      end
    else None
  end.

(** [bytes(codes)]: [None] stands for the [ValueError] raised when a code is
    not in [range(256)]. *)
Fixpoint bytes_of_codes (m : ustr) : option bytes :=
  match m with
  | [] => Some []
  | c :: m' =>
    match Byte.of_N c, bytes_of_codes m' with
    | Some b, Some bs => Some (b :: bs)
    | _, _ => None
    end
  end.

(** [needle in hay] for strings. *)
Fixpoint starts_with (needle hay : ustr) : bool :=
  match needle, hay with
  | [], _ => true
  | _ :: _, [] => false
  | a :: needle', b :: hay' => (a =? b)%N && starts_with needle' hay'
  end.

Fixpoint contains (needle hay : ustr) : bool :=
  starts_with needle hay ||
  match hay with
  | [] => false
  | _ :: hay' => contains needle hay'
  end.

(** ** Exceptions and outcomes *)

(** The exception classes the source distinguishes.  For [socket.timeout]
    the flag says whether [e.args[0] == "timed out"]; for [ssl.SSLError]
    whether [e.errno == ssl.SSL_ERROR_WANT_READ]; [SocketError] carries
    [e.args[0]] of a [socket.error] raised by the transport, and
    [ConnectFailed] is the [socket.error("Socket connect failed.")] that
    [connect] raises itself. *)
Inductive exn : Type :=
| SocketTimeout (timed_out : bool)
| SSLError (want_read : bool)
| SocketError (code : Z)
| ConnectFailed
| AttributeError
| TypeError
| ValueError
| UnicodeError
| OtherError.

Definition EAGAIN : Z := 11.
Definition EWOULDBLOCK : Z := 11.
Definition EMFILE : Z := 24.

Inductive outcome (A : Type) : Type :=
| Ret (a : A)
| Raise (e : exn)
| OutOfFuel.
Arguments Raise {A} e.
Arguments OutOfFuel {A}.

(** ** The transport, the clock and the error sink *)

(** What the peer does at the next [recv]: it has [bs] ready (an empty [bs]
    is the orderly close, [recv] returns [b""]), or the call raises. *)
Inductive rx_event : Type :=
| RxData (bs : bytes)
| RxRaise (e : exn).

(** What the next [send] does: the kernel takes at most [n] octets ([0]: the
    connection is broken), or the call raises. *)
Inductive tx_event : Type :=
| TxAccept (n : nat)
| TxRaise (e : exn).

Record Socket : Type := mkSocket {
  rx : list rx_event;          (* script of the following recv calls *)
  tx : list tx_event;          (* script of the following send calls *)
  connect_error : option exn;  (* what connect raises, if anything *)
  blk : bool;                  (* socket-level blocking mode *)
  tmo : option Z;              (* socket-level timeout *)
  wire : bytes                 (* octets handed to the peer so far *)
}.

(** What one [recv] call did, as the peer's side records it. *)
Inductive rx_result : Type :=
| Got (bs : bytes)
| Raised (e : exn).

Record World : Type := mkWorld {
  now : Z;                       (* last clock reading, in seconds *)
  clock : list Z;                (* readings of the following time.time() *)
  error_log : list exn;          (* the error sink *)
  recv_log : list rx_result;     (* every recv call made, oldest first *)
  fresh_sockets : list Socket    (* what socket.socket() hands out next *)
}.

(** [s.recv(n)].  With nothing scripted a blocking socket times out and a
    non-blocking one would block. *)
Definition sock_recv (n : Z) (sock : Socket) : rx_result * Socket :=
  if (n <? 0)%Z then (Raised ValueError, sock)
  else
    match rx sock with
    | [] =>
      (Raised (if blk sock then SocketTimeout true else SocketError EAGAIN),
       sock)
    | RxData bs :: rest =>
      let k := Z.to_nat n in
      (Got (firstn k bs),
       mkSocket (if (length bs <=? k)%nat then rest
                 else RxData (skipn k bs) :: rest)
                (tx sock) (connect_error sock) (blk sock) (tmo sock)
                (wire sock))
    | RxRaise e :: rest =>
      (Raised e,
       mkSocket rest (tx sock) (connect_error sock) (blk sock) (tmo sock)
                (wire sock))
    end.

(** [s.send(data)]: the number of octets taken, or the exception.  With
    nothing scripted the kernel takes everything. *)
Definition sock_send (data : bytes) (sock : Socket) : (nat + exn) * Socket :=
  match tx sock with
  | [] =>
    (inl (length data),
     mkSocket (rx sock) [] (connect_error sock) (blk sock) (tmo sock)
              (wire sock ++ data))
  | TxAccept n :: rest =>
    (inl (Nat.min n (length data)),
     mkSocket (rx sock) rest (connect_error sock) (blk sock) (tmo sock)
              (wire sock ++ firstn n data))
  | TxRaise e :: rest =>
    (inr e,
     mkSocket (rx sock) rest (connect_error sock) (blk sock) (tmo sock)
              (wire sock))
  end.

(** [s.setblocking(flag)] and [s.settimeout(t)]. *)
Definition sock_setblocking (flag : bool) (sock : Socket) : Socket :=
  mkSocket (rx sock) (tx sock) (connect_error sock) flag
           (if flag then None else Some 0%Z) (wire sock).

Definition sock_settimeout (t : Z) (sock : Socket) : Socket :=
  mkSocket (rx sock) (tx sock) (connect_error sock) (negb (t =? 0)%Z)
           (Some t) (wire sock).

(** ** The channel *)

(** The attributes of a [Sock] instance.  [addr] and [port] are assigned by
    [connect] and [set_sock] only, not by [__init__]: the outer [None] is an
    attribute that was never assigned, [Some None] the Python value [None].
    [debug] only switches printing and is left out. *)
Record Sock : Type := mkSock {
  reply_filter : option (ustr -> bool);
  buf : ustr;
  max_buf : Z;
  max_chunks : Z;
  chunk_size : Z;
  replies : list ustr;
  blocking : bool;
  timeout : option Z;
  s : option Socket;
  use_ssl : bool;
  connected : bool;
  interface : string;
  delimiter : ustr;
  last_heart_beat : Z;
  heart_beat_interval : Z;
  addr : option (option string);
  port : option (option Z);
  world : World
}.

Definition set_buf (v : ustr) (sk : Sock) : Sock :=
  mkSock (reply_filter sk) v (max_buf sk) (max_chunks sk) (chunk_size sk)
         (replies sk) (blocking sk) (timeout sk) (s sk) (use_ssl sk)
         (connected sk) (interface sk) (delimiter sk) (last_heart_beat sk)
         (heart_beat_interval sk) (addr sk) (port sk) (world sk).

Definition set_replies (v : list ustr) (sk : Sock) : Sock :=
  mkSock (reply_filter sk) (buf sk) (max_buf sk) (max_chunks sk)
         (chunk_size sk) v (blocking sk) (timeout sk) (s sk) (use_ssl sk)
         (connected sk) (interface sk) (delimiter sk) (last_heart_beat sk)
         (heart_beat_interval sk) (addr sk) (port sk) (world sk).

Definition set_blocking_flag (v : bool) (sk : Sock) : Sock :=
  mkSock (reply_filter sk) (buf sk) (max_buf sk) (max_chunks sk)
         (chunk_size sk) (replies sk) v (timeout sk) (s sk) (use_ssl sk)
         (connected sk) (interface sk) (delimiter sk) (last_heart_beat sk)
         (heart_beat_interval sk) (addr sk) (port sk) (world sk).

Definition set_s (v : option Socket) (sk : Sock) : Sock :=
  mkSock (reply_filter sk) (buf sk) (max_buf sk) (max_chunks sk)
         (chunk_size sk) (replies sk) (blocking sk) (timeout sk) v
         (use_ssl sk) (connected sk) (interface sk) (delimiter sk)
         (last_heart_beat sk) (heart_beat_interval sk) (addr sk) (port sk)
         (world sk).

Definition set_connected (v : bool) (sk : Sock) : Sock :=
  mkSock (reply_filter sk) (buf sk) (max_buf sk) (max_chunks sk)
         (chunk_size sk) (replies sk) (blocking sk) (timeout sk) (s sk)
         (use_ssl sk) v (interface sk) (delimiter sk) (last_heart_beat sk)
         (heart_beat_interval sk) (addr sk) (port sk) (world sk).

Definition set_last_heart_beat (v : Z) (sk : Sock) : Sock :=
  mkSock (reply_filter sk) (buf sk) (max_buf sk) (max_chunks sk)
         (chunk_size sk) (replies sk) (blocking sk) (timeout sk) (s sk)
         (use_ssl sk) (connected sk) (interface sk) (delimiter sk) v
         (heart_beat_interval sk) (addr sk) (port sk) (world sk).

Definition set_addr_port (a : option string) (p : option Z) (sk : Sock)
  : Sock :=
  mkSock (reply_filter sk) (buf sk) (max_buf sk) (max_chunks sk)
         (chunk_size sk) (replies sk) (blocking sk) (timeout sk) (s sk)
         (use_ssl sk) (connected sk) (interface sk) (delimiter sk)
         (last_heart_beat sk) (heart_beat_interval sk) (Some a) (Some p)
         (world sk).

Definition set_world (v : World) (sk : Sock) : Sock :=
  mkSock (reply_filter sk) (buf sk) (max_buf sk) (max_chunks sk)
         (chunk_size sk) (replies sk) (blocking sk) (timeout sk) (s sk)
         (use_ssl sk) (connected sk) (interface sk) (delimiter sk)
         (last_heart_beat sk) (heart_beat_interval sk) (addr sk) (port sk) v.

(** The limits are plain attributes a caller may assign
    ([sock.max_chunks = 2]). *)
Definition set_limits (mb mc cs : Z) (sk : Sock) : Sock :=
  mkSock (reply_filter sk) (buf sk) mb mc cs (replies sk) (blocking sk)
         (timeout sk) (s sk) (use_ssl sk) (connected sk) (interface sk)
         (delimiter sk) (last_heart_beat sk) (heart_beat_interval sk)
         (addr sk) (port sk) (world sk).

(** A method of [Sock]: the state before, the outcome and the state
    after. *)
Definition M (A : Type) : Type := Sock -> outcome A * Sock.

Definition ret {A} (a : A) : M A := fun sk => (Ret a, sk).

Definition bind {A B} (m : M A) (k : A -> M B) : M B :=
  fun sk =>
    match m sk with
    | (Ret a, sk') => k a sk'
    | (Raise e, sk') => (Raise e, sk')
    | (OutOfFuel, sk') => (OutOfFuel, sk')
    end.

Notation "x <- m ;; k" := (bind m (fun x => k))
  (at level 61, m at next level, right associativity).
Notation "m ;;; k" := (bind m (fun _ => k))
  (at level 61, right associativity).

(** [try: body / except Exception as e: handler e]. *)
Definition try_except {A} (body : M A) (handler : exn -> M A) : M A :=
  fun sk =>
    match body sk with
    | (Raise e, sk') => handler e sk'
    | r => r
    end.

(** [try: body / finally: fin]: [fin] runs on every exit of [body]; an
    exception out of [fin] replaces the result of [body]. *)
Definition try_finally {A} (body : M A) (fin : M unit) : M A :=
  fun sk =>
    match body sk with
    | (OutOfFuel, sk') => (OutOfFuel, sk')
    | (r, sk') =>
      match fin sk' with
      | (Ret _, sk'') => (r, sk'')
      | (Raise e, sk'') => (Raise e, sk'')
      | (OutOfFuel, sk'') => (OutOfFuel, sk'')
      end
    end.

(** [time.time()]: the next scripted reading; the clock stands still once
    the script is used up. *)
Definition time_time : M Z :=
  fun sk =>
    let w := world sk in
    match clock w with
    | [] => (Ret (now w), sk)
    | t :: rest =>
      (Ret t,
       set_world (mkWorld t rest (error_log w) (recv_log w)
                          (fresh_sockets w)) sk)
    end.

(** Modelled from the spec: [parse_exception] and [log_exception] of
    [pyp2p/lib.py], which is not among the sources.  The error sink
    "consumes a record-structured-error call with no return value; used for
    diagnostics only, never affects control flow". *)
Definition log_exception (e : exn) : M unit :=
  fun sk =>
    let w := world sk in
    (Ret tt,
     set_world (mkWorld (now w) (clock w) (error_log w ++ [e]) (recv_log w)
                        (fresh_sockets w)) sk).

(** The peer's side notes every [recv] call. *)
Definition note_recv (r : rx_result) (sk : Sock) : Sock :=
  let w := world sk in
  set_world (mkWorld (now w) (clock w) (error_log w) (recv_log w ++ [r])
                     (fresh_sockets w)) sk.

Definition raise {A} (e : exn) : M A := fun sk => (Raise e, sk).
Definition gets {A} (f : Sock -> A) : M A := fun sk => (Ret (f sk), sk).
Definition modify (f : Sock -> Sock) : M unit := fun sk => (Ret tt, f sk).

Definition is_some {A} (o : option A) : bool :=
  match o with Some _ => true | None => false end.

(** ** Connection lifecycle *)

(** [close]: both the shutdown and the close of the socket sit under
    [try/except: pass]; what remains is [connected = 0] and [s = None]. *)
Definition close : M unit :=
  modify (fun sk => set_s None (set_connected false sk)).

(** [set_blocking]: [self.s.setblocking] is an attribute access on [self.s],
    which is [None] once the channel was closed. *)
Definition set_blocking (flag : bool) (t : option Z) : M unit :=
  fun sk =>
    match s sk with
    | None => (Raise AttributeError, sk)
    | Some sock =>
      let sock1 := sock_setblocking flag sock in
      let sock2 :=
        if flag then
          match t with
          | Some v => sock_settimeout v sock1
          | None => sock1
          end
        else sock1 in
      (Ret tt, set_blocking_flag flag (set_s (Some sock2) sk))
    end.

(** [set_sock]: adopt a socket that was connected elsewhere ([None] is the
    Python value a caller may pass).  [peername] is what [s.getpeername()]
    answers, [None] when it raises; [set_keep_alive] only sets socket
    options. *)
Definition set_sock (new : option Socket) (peername : option (string * Z))
  : M unit :=
  close ;;;
  modify (fun sk => set_connected true (set_s new sk)) ;;;
  (fun sk => set_blocking (blocking sk) (timeout sk) sk) ;;;
  match peername with
  | Some (a, p) => modify (set_addr_port (Some a) (Some p))
  | None => modify (set_connected false)
  end.

(** [socket.socket(AF_INET, SOCK_STREAM)], wrapped by [ssl.wrap_socket] when
    [use_ssl] is set (the wrapping does not show in the scripted peer). *)
Definition new_socket : M unit :=
  fun sk =>
    let w := world sk in
    match fresh_sockets w with
    | [] => (Raise (SocketError EMFILE), sk)
    | sock :: rest =>
      (Ret tt,
       set_s (Some sock)
             (set_world (mkWorld (now w) (clock w) (error_log w)
                                 (recv_log w) rest) sk))
    end.

(** [self.s.connect((addr, int(port)))]. *)
Definition sock_connect (a : option string) (p : option Z) : M unit :=
  fun sk =>
    match s sk with
    | None => (Raise AttributeError, sk)
    | Some sock =>
      match p, a with
      | None, _ => (Raise TypeError, sk)
      | Some _, None => (Raise TypeError, sk)
      | Some _, Some _ =>
        match connect_error sock with
        | Some e => (Raise e, sk)
        | None => (Ret tt, sk)
        end
      end
    end.

(** [connect].  The bind to a named interface ([get_lan_ip], [s.bind]) is
    under [try/except: pass] and leaves no trace in the state. *)
Definition connect (a : option string) (p : option Z) : M unit :=
  modify (set_addr_port a p) ;;;
  (fun sk => match s sk with
             | None => new_socket sk
             | Some _ => (Ret tt, sk)
             end) ;;;
  try_except
    (sock_connect a p ;;;
     (fun sk => if blocking sk then (Ret tt, sk)
                else set_blocking (blocking sk) (timeout sk) sk) ;;;
     modify (set_connected true))
    (fun e => close ;;; log_exception e ;;; raise ConnectFailed).

(** [reconnect]: the bare [except:] catches whatever [connect] raises; the
    reads of [self.addr] and [self.port] come before the [try]. *)
Definition reconnect : M unit :=
  fun sk =>
    if connected sk then (Ret tt, sk)
    else
      match addr sk with
      | None => (Raise AttributeError, sk)
      | Some None => (Ret tt, sk)
      | Some (Some a) =>
        match port sk with
        | None => (Raise AttributeError, sk)
        | Some None => (Ret tt, sk)
        | Some (Some p) =>
          match connect (Some a) (Some p) sk with
          | (Raise _, sk') => (Ret tt, set_connected false sk')
          | r => r
          end
        end
      end.

(** [Sock.__init__]: the attributes it assigns, then [settimeout(5)] on the
    new socket, the first heart-beat reading, and [connect] when both an
    address and a port are given.  [set_keep_alive] only sets socket
    options. *)
Definition __init__ (a : option string) (p : option Z) (blocking0 : bool)
           (timeout0 : option Z) (interface0 : string) (use_ssl0 : bool)
           (w : World) : outcome unit * Sock :=
  (new_socket ;;;
   (fun sk => match s sk with
              | None => (Raise AttributeError, sk)
              | Some sock => (Ret tt, set_s (Some (sock_settimeout 5 sock)) sk)
              end) ;;;
   t <- time_time ;;
   modify (set_last_heart_beat t) ;;;
   match a, p with
   | Some _, Some _ => connect a p
   | _, _ => ret tt
   end)
    (mkSock None [] (1024 * 1024) 1024 (100 * 1024) [] blocking0 timeout0
            None use_ssl0 false interface0 CRLF 0 (5 * 60) None None w).

(** ** Frame parser *)

(** The local variables of [parse_buf] that the [for] loop updates. *)
Record parse_state : Type := mkParse {
  p_replies : list ustr;
  p_reply : ustr;
  p_chop : nat;
  p_skip : nat;
  p_i : nat
}.

(** One iteration of [for ch in self.buf]. *)
Definition parse_step (whole : ustr) (buf_len : nat) (st : parse_state)
           (ch : char) : parse_state :=
  if negb (p_skip st =? 0)%nat then
    mkParse (p_replies st) (p_reply st) (p_chop st) (p_skip st - 1)
            (p_i st + 1)
  else
    let nxt := (p_i st + 1)%nat in
    if (nxt <? buf_len)%nat
       && ((ch =? CR)%N
           && match nth_error whole nxt with
              | Some c => (c =? LF)%N
              | None => false
              end)
    then
      if negb (is_empty (p_reply st))
      then mkParse (p_replies st ++ [p_reply st]) [] (nxt + 1) 1 (p_i st + 1)
      else mkParse (p_replies st) (p_reply st) (nxt + 1) 1 (p_i st + 1)
    else
      mkParse (p_replies st) (p_reply st ++ [ch]) (p_chop st) (p_skip st)
              (p_i st + 1).

Definition parse_loop (whole : ustr) : parse_state :=
  fold_left (parse_step whole (length whole)) whole (mkParse [] [] 0 0 0).

(** [parse_buf]: the completed replies; [self.buf] is cut to [buf[chop:]]
    when [chop] was set. *)
Definition parse_buf : M (list ustr) :=
  fun sk =>
    let st := parse_loop (buf sk) in
    (Ret (p_replies st),
     if negb (p_chop st =? 0)%nat then set_buf (skipn (p_chop st) (buf sk)) sk
     else sk).

(** ** Unified sender *)

(** A message handed to [send] or [send_line] is a [str] or already
    [bytes]. *)
Inductive pymsg : Type :=
| Str (t : ustr)
| Bytes (b : bytes).

(** [if type(msg) == str: msg = msg.encode("ascii")]. *)
Definition to_bytes (msg : pymsg) : option bytes :=
  match msg with
  | Str t => encode_ascii t
  | Bytes b => Some b
  end.

(** The [while True] loop of [send]; the result is [total_sent]. *)
Fixpoint send_loop (fuel : nat) (msg : bytes) (send_all : bool)
         (total_sent : nat) : M nat :=
  fun sk =>
    match fuel with
    | O => (OutOfFuel, sk)
    | S fuel' =>
      match s sk with
      | None => (Raise AttributeError, sk)
      | Some sock =>
        match sock_send (skipn total_sent msg) sock with
        | (inr e, sock') => (Raise e, set_s (Some sock') sk)
        | (inl bytes_sent, sock') =>
          let sk1 := set_s (Some sock') sk in
          if (bytes_sent =? 0)%nat then (close ;;; ret total_sent) sk1
          else
            let total_sent' := (total_sent + bytes_sent)%nat in
            if (total_sent' <? length msg)%nat && (blocking sk1 || send_all)
            then send_loop fuel' msg send_all total_sent' sk1
            else (Ret total_sent', sk1)
        end
      end
    end.

(** The timeout update at the head of [send], [recv], [send_line] and
    [recv_line]. *)
Definition update_timeout (timeout0 : option Z) : M unit :=
  fun sk =>
    if blocking sk && is_some timeout0 then set_blocking true timeout0 sk
    else (Ret tt, sk).

(** The [finally] clause of the same four methods. *)
Definition restore_blocking : M unit :=
  fun sk => set_blocking (blocking sk) (timeout sk) sk.

Definition send (msg : pymsg) (send_all : bool) (timeout0 : option Z)
  : M nat :=
  update_timeout timeout0 ;;;
  try_finally
    (try_except
       (fun sk =>
          if negb (connected sk) then (Ret O, sk)
          else
            match to_bytes msg with
            | None => (Raise UnicodeError, sk)
            | Some b => send_loop (S (length b)) b send_all 0 sk
            end)
       (fun e => log_exception e ;;; close ;;; ret O))
    restore_blocking.

Definition send_line (msg : pymsg) (timeout0 : option Z) : M nat :=
  update_timeout timeout0 ;;;
  try_finally
    (try_except
       (fun sk =>
          if negb (connected sk) then (Ret O, sk)
          else
            match to_bytes msg, encode_ascii (delimiter sk) with
            | Some b, Some d => send (Bytes (b ++ d)) true timeout0 sk
            | _, _ => (Raise UnicodeError, sk)
            end)
       (fun e => log_exception e ;;; close ;;; ret O))
    restore_blocking.

(** ** Chunk reader *)

Inductive encoding : Type := Unicode | Latin1.

Definition decode (enc : encoding) (chunk : bytes) : option ustr :=
  match enc with
  | Unicode => decode_utf8 chunk
  | Latin1 => Some (decode_latin1 chunk)
  end.

(** How the inner [while True] of [get_chunks] is left: by [break], with the
    values of [repeat] and [chunk_no] at that point, or by [return]. *)
Inductive inner_exit : Type :=
| Break (repeat : bool) (chunk_no : Z)
| Return.

(** The liveness probe on a would-block. *)
Definition heart_beat : M unit :=
  t <- time_time ;;
  fun sk =>
    if (t - last_heart_beat sk >=? heart_beat_interval sk)%Z then
      (t' <- time_time ;;
       modify (set_last_heart_beat t') ;;;
       send_line (Str (text "PING")) (Some 5%Z) ;;;
       ret tt) sk
    else (Ret tt, sk).

(** The inner [while True] loop; [max_buf] and [max_chunks] are the locals of
    [get_chunks], [chunk_size] only shrinks from pass to pass. *)
Fixpoint recv_chunks (fuel : nat) (enc : encoding) (max_buf0 max_chunks0 : Z)
         (chunk_size0 chunk_no : Z) : M inner_exit :=
  fun sk =>
    match fuel with
    | O => (OutOfFuel, sk)
    | S fuel' =>
      let buf_len := Z.of_nat (length (buf sk)) in
      if (buf_len >=? max_buf0)%Z then (Ret (Break true chunk_no), sk)
      else
        let remaining := (max_buf0 - buf_len)%Z in
        let chunk_size1 :=
          if (remaining <? chunk_size0)%Z then remaining else chunk_size0 in
        if (chunk_no >=? max_chunks0)%Z && negb (blocking sk)
        then (Ret (Break true chunk_no), sk)
        else
          match s sk with
          | None => (Raise AttributeError, sk)
          | Some sock =>
            let (r, sock') := sock_recv chunk_size1 sock in
            let sk1 := note_recv r (set_s (Some sock') sk) in
            match r with
            | Raised (SocketTimeout timed_out) =>
              if timed_out then (Ret (Break false chunk_no), sk1)
              else recv_chunks fuel' enc max_buf0 max_chunks0 chunk_size1
                               chunk_no sk1
            | Raised (SSLError want_read) =>
              if want_read then (Ret (Break true chunk_no), sk1)
              else (close ;;; ret Return) sk1
            | Raised (SocketError err) =>
              if (err =? EAGAIN)%Z || (err =? EWOULDBLOCK)%Z
              then (heart_beat ;;; ret (Break true chunk_no)) sk1
              else (close ;;; ret Return) sk1
            | Raised ConnectFailed => (close ;;; ret Return) sk1
            | Raised e => (Raise e, sk1)
            | Got chunk =>
              if is_empty chunk then (close ;;; ret Return) sk1
              else
                match decode enc chunk with
                | None =>
                  recv_chunks fuel' enc max_buf0 max_chunks0 chunk_size1
                              (chunk_no + 1) sk1
                | Some t =>
                  let sk2 := set_buf (buf sk1 ++ t) sk1 in
                  if blocking sk2 then (Ret (Break true chunk_no), sk2)
                  else recv_chunks fuel' enc max_buf0 max_chunks0 chunk_size1
                                   (chunk_no + 1) sk2
                end
            end
          end
    end.

Definition is_unicode (enc : encoding) : bool :=
  match enc with Unicode => true | Latin1 => false end.

(** The outer [while repeat] loop. *)
Fixpoint repeat_chunks (fuel : nat) (fixed_limit : option Z) (enc : encoding)
         (max_buf0 max_chunks0 chunk_no : Z) : M unit :=
  fun sk =>
    match fuel with
    | O => (OutOfFuel, sk)
    | S fuel' =>
      match recv_chunks fuel enc max_buf0 max_chunks0 (chunk_size sk)
                        chunk_no sk with
      | (Ret (Break repeat chunk_no'), sk1) =>
        if negb repeat then (Ret tt, sk1)
        else if blocking sk1 && negb (is_some fixed_limit) && is_unicode enc
                && negb (contains (delimiter sk1) (buf sk1))
        then repeat_chunks fuel' fixed_limit enc max_buf0 max_chunks0
                           chunk_no' sk1
        else (Ret tt, sk1)
      | (Ret Return, sk1) => (Ret tt, sk1)
      | (Raise e, sk1) => (Raise e, sk1)
      | (OutOfFuel, sk1) => (OutOfFuel, sk1)
      end
    end.

Definition get_chunks (fuel : nat) (fixed_limit : option Z) (enc : encoding)
  : M unit :=
  fun sk =>
    if negb (connected sk) then (Ret tt, sk)
    else
      match fixed_limit with
      | Some n => repeat_chunks fuel fixed_limit enc n n 0 sk
      | None =>
        repeat_chunks fuel fixed_limit enc (max_buf sk) (max_chunks sk) 0 sk
      end.

(** [update]: the replies of this pass replace the queue. *)
Definition update (fuel : nat) : M unit :=
  get_chunks fuel None Unicode ;;;
  new <- parse_buf ;;
  modify (set_replies new).

(** ** Blocking-emulation receiver *)

(** What [recv] returns: text in the "unicode" mode, octets otherwise. *)
Inductive pydata : Type :=
| Text (t : ustr)
| Data (b : bytes).

Definition empty_data (enc : encoding) : pydata :=
  match enc with Unicode => Text [] | Latin1 => Data [] end.

(** The [while True] loop of [recv]. *)
Fixpoint recv_loop (fuel : nat) (n : Z) (enc : encoding) : M unit :=
  fun sk =>
    match fuel with
    | O => (OutOfFuel, sk)
    | S fuel' =>
      (get_chunks fuel (Some n) enc ;;;
       fun sk1 =>
         if (Z.of_nat (length (buf sk1)) <? n)%Z && connected sk1
            && blocking sk1
         then recv_loop fuel' n enc sk1
         else (Ret tt, sk1)) sk
    end.

Definition recv (fuel : nat) (n : Z) (enc : encoding) (timeout0 : option Z)
  : M pydata :=
  update_timeout timeout0 ;;;
  try_finally
    (try_except
       (fun sk =>
          if negb (connected sk) then (Ret (empty_data enc), sk)
          else
            let temp_buf := buf sk in
            (modify (set_buf []) ;;;
             recv_loop fuel n enc ;;;
             ret0 <- gets buf ;;
             modify (set_buf temp_buf) ;;;
             match enc with
             | Unicode => ret (Text ret0)
             | Latin1 =>
               match bytes_of_codes ret0 with
               | Some b => ret (Data b)
               | None => raise ValueError
               end
             end) sk)
       (fun e => log_exception e ;;; close ;;; ret (empty_data enc)))
    restore_blocking.

(** The [while True] loop of [recv_line]: [true] when it is left by
    [return u""], [false] when by [break]. *)
Fixpoint line_loop (fuel : nat) (t : Z) : M bool :=
  fun sk =>
    match fuel with
    | O => (OutOfFuel, sk)
    | S fuel' =>
      (update fuel ;;;
       fun sk1 =>
         if negb (connected sk1) then (Ret true, sk1)
         else if negb ((is_empty (replies sk1)
                        || (Z.of_nat (length (buf sk1)) >=? max_buf sk1)%Z)
                       && blocking sk1)
         then (Ret false, sk1)
         else
           (t1 <- time_time ;;
            fun sk2 =>
              if (t1 >=? t)%Z && blocking sk2 then (Ret false, sk2)
              else line_loop fuel' t sk2) sk1) sk
    end.

Definition recv_line (fuel : nat) (timeout0 : option Z) : M ustr :=
  update_timeout timeout0 ;;;
  fun sk =>
    let old_buf := buf sk in
    try_finally
      (t0 <- time_time ;;
       match timeout0 with
       | None => raise TypeError
       | Some d =>
         returned <- line_loop fuel (t0 + d)%Z ;;
         fun sk1 =>
           if returned then (Ret [], sk1)
           else if blocking sk1 then
             match replies sk1 with
             | temp :: rest => (Ret temp, set_replies rest sk1)
             | [] => (Ret [], sk1)
             end
           else (Ret [], sk1)
       end)
      (restore_blocking ;;; modify (set_buf old_buf))
      (set_buf [] sk).

(** ** Reply queue and iteration protocol *)

Definition __len__ (fuel : nat) : M nat :=
  update fuel ;;; gets (fun sk => length (replies sk)).

Definition pop_reply : M (option ustr) :=
  fun sk =>
    match replies sk with
    | first :: rest => (Ret (Some first), set_replies rest sk)
    | [] => (Ret None, sk)
    end.

(** [__iter__]: the list the returned iterator walks. *)
Definition __iter__ (fuel : nat) : M (list ustr) :=
  update fuel ;;;
  fun sk =>
    let out :=
      match reply_filter sk with
      | Some keep => filter keep (replies sk)
      | None => replies sk
      end in
    (Ret out, set_replies [] sk).

Definition __reversed__ (fuel : nat) : M (list ustr) := __iter__ fuel.

(** ** Framing, as the specification words it *)

(** [segs] each followed by the delimiter, then [tail]. *)
Fixpoint join (segs : list ustr) (tail : ustr) : ustr :=
  match segs with
  | [] => tail
  | seg :: segs' => seg ++ CRLF ++ join segs' tail
  end.

(** Specification of the frame parser: "scans the buffer once, splitting on
    the delimiter"; [cur] is the text accumulated since the last delimiter.
    The result is every segment that a delimiter ends, empty ones included,
    and the unterminated tail. *)
Fixpoint split_lines (cur : ustr) (l : ustr) : list ustr * ustr :=
  match l with
  | [] => ([], cur)
  | c :: l' =>
    match l' with
    | [] => ([], cur ++ [c])
    | d :: l'' =>
      if (c =? CR)%N && (d =? LF)%N
      then let (segs, tl) := split_lines [] l'' in (cur :: segs, tl)
      else split_lines (cur ++ [c]) l'
    end
  end.

(** Number of positions at which the two delimiter characters stand. *)
Fixpoint count_delims (l : ustr) : nat :=
  match l with
  | [] => 0
  | c :: l' =>
    match l' with
    | [] => 0
    | d :: _ =>
      (if (c =? CR)%N && (d =? LF)%N then 1 else 0) + count_delims l'
    end
  end.

Definition delim_free (l : ustr) : Prop := contains CRLF l = false.

Definition nonempty (l : ustr) : bool := negb (is_empty l).

(** The replies [parse_buf] is specified to return, and the buffer it is
    specified to leave. *)
Definition frames (b : ustr) : list ustr :=
  filter nonempty (fst (split_lines [] b)).

Definition leftover (b : ustr) : ustr := snd (split_lines [] b).

(** ** Relations between the state before and after a call *)

(** The attributes no method of the channel assigns, and the blocking flag,
    which every method leaves as it found it. *)
Definition same_config (sk sk' : Sock) : Prop :=
  blocking sk' = blocking sk /\ max_buf sk' = max_buf sk
  /\ max_chunks sk' = max_chunks sk /\ chunk_size sk' = chunk_size sk
  /\ delimiter sk' = delimiter sk /\ timeout sk' = timeout sk
  /\ reply_filter sk' = reply_filter sk.

(** Nothing was read and nothing was parsed. *)
Definition steady (sk sk' : Sock) : Prop :=
  same_config sk sk' /\ buf sk' = buf sk /\ replies sk' = replies sk
  /\ recv_log (world sk') = recv_log (world sk).

Definition preserves (R : Sock -> Sock -> Prop) {A} (m : M A) : Prop :=
  forall sk, R sk (snd (m sk)).

(** The [recv] calls that returned octets, among those the peer noted. *)
Definition chunk_reads (log : list rx_result) : nat :=
  length (filter (fun r => match r with Got _ => true | Raised _ => false end)
                 log).

(** The locals [max_buf] and [max_chunks] of [get_chunks]. *)
Definition ceiling (fixed_limit : option Z) (sk : Sock) : Z :=
  match fixed_limit with Some n => n | None => max_buf sk end.

Definition chunk_cap (fixed_limit : option Z) (sk : Sock) : Z :=
  match fixed_limit with Some n => n | None => max_chunks sk end.

Definition buf_len (sk : Sock) : Z := Z.of_nat (length (buf sk)).

(** [n] calls of [update], with the queue as each call leaves it. *)
Fixpoint poll (n : nat) (fuel : nat) : M (list (list ustr)) :=
  match n with
  | O => ret []
  | S n' =>
    update fuel ;;;
    queue <- gets replies ;;
    rest <- poll n' fuel ;;
    ret (queue :: rest)
  end.

Definition reads (sk : Sock) : Z :=
  Z.of_nat (chunk_reads (recv_log (world sk))).

(** What one run of the chunk reader may change: the configuration and the
    queue stay, the buffer stays under any bound [B] that is at least the
    ceiling [mb], and a non-blocking channel makes at most [mc - cn] further
    chunk reads. *)
Definition chunk_inv (mb mc cn : Z) (sk sk' : Sock) : Prop :=
  same_config sk sk' /\ replies sk' = replies sk
  /\ (forall B, (mb <= B)%Z -> (buf_len sk <= B)%Z -> (buf_len sk' <= B)%Z)
  /\ (blocking sk = false ->
      (reads sk' <= reads sk + Z.max 0 (mc - cn))%Z).


(** ** Well-behaved traffic *)

Definition event_bytes (e : rx_event) : bytes :=
  match e with RxData bs => bs | RxRaise _ => [] end.

(** The octets a script still holds, in the order the peer sent them. *)
Definition script_bytes (evs : list rx_event) : bytes :=
  flat_map event_bytes evs.

(** The octets sent to the channel and not read yet. *)
Definition pending (sk : Sock) : bytes :=
  match s sk with
  | Some sock => script_bytes (rx sock)
  | None => []
  end.

Definition ascii_byte (b : byte) : Prop := (ord b < 128)%N.

(** The events of a peer that sends plain ASCII and is otherwise silent:
    octets ready, or nothing ready (the would-block of a non-blocking
    socket). *)
Definition benign (e : rx_event) : Prop :=
  match e with
  | RxData bs => bs <> [] /\ Forall ascii_byte bs
  | RxRaise e => e = SocketError EAGAIN
  end.

(** A connected non-blocking channel that polls such a peer, no heart beat
    being due. *)
Definition calm (sk : Sock) : Prop :=
  connected sk = true /\ blocking sk = false
  /\ (exists sock, s sk = Some sock /\ Forall benign (rx sock))
  /\ (0 < chunk_size sk)%Z
  /\ Forall (fun t => (t - last_heart_beat sk < heart_beat_interval sk)%Z)
            (now (world sk) :: clock (world sk)).

(** Events and octets still in the script: what is left to read. *)
Definition script_size (evs : list rx_event) : nat :=
  (length evs + length (script_bytes evs))%nat.

Definition backlog (sk : Sock) : nat :=
  match s sk with
  | Some sock => script_size (rx sock)
  | None => 0%nat
  end.

(** What a poll of a calm channel does: it stays calm, keeps its
    configuration and queue, and moves octets from the head of the script
    to the end of the buffer. *)
Definition advanced (sk sk' : Sock) : Prop :=
  calm sk' /\ same_config sk sk' /\ replies sk' = replies sk
  /\ (exists got, buf sk' = buf sk ++ got
                  /\ map ord (pending sk) = got ++ map ord (pending sk'))
  /\ (backlog sk' <= backlog sk)%nat.

(** ** Sending *)

(** A [send] that takes at least one octet. *)
Definition accepts (e : tx_event) : Prop :=
  match e with
  | TxAccept n => (0 < n)%nat
  | TxRaise _ => False
  end.

(** The channel after [close]. *)
Definition torn_down (sk : Sock) : Prop :=
  connected sk = false /\ s sk = None.

(** The channel holds the socket [sock] and counts itself connected. *)
Definition live (sk : Sock) (sock : Socket) : Prop :=
  connected sk = true /\ s sk = Some sock.

(** ** Failures *)


(** ** Draining the queue *)

(** [n] calls of [pop_reply], with what each returned. *)
Fixpoint pop_replies (n : nat) : M (list (option ustr)) :=
  match n with
  | O => ret []
  | S n' =>
    first <- pop_reply ;;
    rest <- pop_replies n' ;;
    ret (first :: rest)
  end.

(** Number of characters or octets of what [recv] returned. *)
Definition data_length (v : pydata) : nat :=
  match v with
  | Text t => length t
  | Data b => length b
  end.

(** The socket of the channel was neither read from nor written to: its
    scripts and what it has sent are as before. *)
Definition transport_idle (sk sk' : Sock) : Prop :=
  match s sk, s sk' with
  | Some sock, Some sock' =>
    rx sock' = rx sock /\ tx sock' = tx sock /\ wire sock' = wire sock
  | None, None => True
  | _, _ => False
  end.

(** ** Fatal readings and the clock *)

(** [e.args[0]] of a connection that timed out; interpreters differ on
    whether such an error is a [socket.timeout]. *)
Definition ETIMEDOUT : Z := 110.

(** The readings on which [get_chunks] gives the connection up: the orderly
    close, an SSL error other than want-read, and a [socket.error] other
    than the would-block (and than [ETIMEDOUT]). *)
Definition fatal (e : rx_event) : Prop :=
  match e with
  | RxData bs => bs = []
  | RxRaise (SocketError err) => err <> EAGAIN /\ err <> ETIMEDOUT
  | RxRaise (SSLError want_read) => want_read = false
  | RxRaise ConnectFailed => True
  | RxRaise _ => False
  end.

(** The clock was not read and the heart-beat mark did not move. *)
Definition same_clock (sk sk' : Sock) : Prop :=
  last_heart_beat sk' = last_heart_beat sk
  /\ heart_beat_interval sk' = heart_beat_interval sk
  /\ now (world sk') = now (world sk)
  /\ clock (world sk') = clock (world sk).
(** ** Scripted peers for the examples *)

Definition octets (lit : string) : bytes := list_byte_of_string lit.
Definition crlf : bytes := [x0d; x0a].

(** A socket with scripted traffic. *)
Definition peer (rx0 : list rx_event) (tx0 : list tx_event) : Socket :=
  mkSocket rx0 tx0 None true (Some 5%Z) [].

Definition quiet_world : World := mkWorld 0 [] [] [] [].

(** A channel with the defaults of [__init__], connected to [sock] by a
    successful [connect("peer", 8540)]. *)
Definition connected_to (sock : Socket) (blocking0 : bool) : Sock :=
  snd (__init__ (Some "peer"%string) (Some 8540%Z) blocking0 (Some 5%Z)
                "default"%string false
                (mkWorld 0 [] [] [] [sock])).

(** Traffic cut into three arrivals, with a pause and an empty line. *)
Definition three_arrivals : Sock :=
  connected_to
    (peer [RxData (octets "a" ++ crlf);
           RxRaise (SocketError EAGAIN);
           RxData (crlf ++ octets "b" ++ crlf)] [])
    false.

(** A message whose delimiter is cut in two. *)
Definition hello_in_pieces : Sock :=
  connected_to
    (peer [RxData (octets "he");
           RxRaise (SocketError EAGAIN);
           RxData (octets "llo" ++ [x0d]);
           RxData [x0a]] [])
    false.

(** U+00E9 in UTF-8, its two octets in different arrivals, and the same
    octets in one arrival. *)
Definition e_acute_cut : Sock :=
  connected_to
    (peer [RxData [xc3];
           RxRaise (SocketError EAGAIN);
           RxData [xa9; x0d; x0a]] [])
    false.

Definition e_acute_whole : Sock :=
  connected_to (peer [RxData [xc3; xa9; x0d; x0a]] []) false.

(** A peer that dribbles one octet per read, and a channel whose chunk cap
    was set to two. *)
Definition dribble : Sock :=
  set_limits (1024 * 1024) 2 (100 * 1024)
             (connected_to
                (peer [RxData (octets "a"); RxData (octets "b");
                       RxData (octets "c")] [])
                false).

(** A channel built by [Sock()] in the world [w]: no address, no port. *)
Definition fresh_channel (blocking0 : bool) (w : World) : Sock :=
  snd (__init__ None None blocking0 (Some 5%Z) "default"%string false w).


(** A non-blocking channel whose peer has closed the connection. *)
Definition hung_up : Sock := connected_to (peer [RxData []] []) false.

(** A non-blocking channel on which a complete line arrives. *)
Definition line_ready : Sock :=
  connected_to (peer [RxData (octets "hello" ++ crlf)] []) false.

(** The same line on a blocking channel. *)
Definition line_ready_blocking : Sock :=
  connected_to (peer [RxData (octets "hello" ++ crlf)] []) true.

(** A non-blocking channel holding the partial line [x], whose peer sends
    two more octets and then goes away half-open: the next read would
    block, the heart beat is due and the probe cannot be sent. *)
Definition half_open : Sock :=
  snd (update 10
         (snd (__init__ (Some "peer"%string) (Some 8540%Z) false (Some 5%Z)
                        "default"%string false
                        (mkWorld 0 [0; 10; 1000]%Z [] []
                                 [peer [RxData (octets "x");
                                        RxRaise (SocketError EAGAIN);
                                        RxData (octets "ab")]
                                       [TxAccept 0]])))).

(** A non-blocking channel with two complete lines on the way. *)
Definition two_lines : Sock :=
  connected_to
    (peer [RxData (octets "one" ++ crlf ++ octets "two" ++ crlf)] [])
    false.

(** A channel whose kernel takes the line in three pieces. *)
Definition slow_kernel : Sock :=
  connected_to (peer [] [TxAccept 1; TxAccept 2]) false.


(** ** Further channels for the examples *)

(** The caller's [sock.reply_filter = keep]. *)
Definition with_filter (keep : ustr -> bool) (sk : Sock) : Sock :=
  mkSock (Some keep) (buf sk) (max_buf sk) (max_chunks sk) (chunk_size sk)
         (replies sk) (blocking sk) (timeout sk) (s sk) (use_ssl sk)
         (connected sk) (interface sk) (delimiter sk) (last_heart_beat sk)
         (heart_beat_interval sk) (addr sk) (port sk) (world sk).

(** A channel that was never connected: [Sock()] with a socket to take. *)
Definition unconnected : Sock :=
  fresh_channel false (mkWorld 0 [] [] [] [peer [] []]).

(** A connected channel with a second socket to be had for a reconnect. *)
Definition with_spare : Sock :=
  snd (__init__ (Some "peer"%string) (Some 8540%Z) false (Some 5%Z)
                "default"%string false
                (mkWorld 0 [] [] [] [peer [] []; peer [] []])).

(** A blocking channel with room for two characters, both taken. *)
Definition jammed : Sock :=
  set_buf (text "ab")
          (set_limits 2 1024 (100 * 1024) (connected_to (peer [] []) true)).


(** A blocking channel: a line in two arrivals, and the start of the next
    line behind it. *)
Definition line_in_two : Sock :=
  connected_to
    (peer [RxData (octets "hel"); RxData (octets "lo" ++ crlf);
           RxData (octets "next")] [])
    true.

(** A blocking channel whose peer stays silent; the clock reads 100, 101
    and 103 seconds after the channel was made. *)
Definition silent_peer : Sock :=
  snd (__init__ (Some "peer"%string) (Some 8540%Z) true (Some 5%Z)
                "default"%string false
                (mkWorld 0 [0; 100; 101; 103]%Z [] []
                         [peer [RxRaise (SocketTimeout true);
                                RxRaise (SocketTimeout true)] []])).
(** * Properties *)

(** ** The model at work *)

Example connect_example :
  let sk := connected_to (peer [] []) false in
  connected sk = true /\ blocking sk = false
  /\ s sk = Some (mkSocket [] [] None false (Some 0%Z) [])
  /\ addr sk = Some (Some "peer"%string).
Proof. repeat split. Qed.

Example parse_example :
  fst (parse_buf (set_buf (text "ab" ++ CRLF ++ CRLF ++ text "cd" ++ CRLF
                                ++ text "e" ++ [CR]) (connected_to (peer [] []) false)))
  = Ret [text "ab"; text "cd"]
  /\ buf (snd (parse_buf (set_buf (text "ab" ++ CRLF ++ CRLF ++ text "cd"
                                        ++ CRLF ++ text "e" ++ [CR])
                                  (connected_to (peer [] []) false))))
     = text "e" ++ [CR].
Proof. split; reflexivity. Qed.

Example update_example :
  let sk := connected_to (peer [RxData (octets "hel"); RxData (octets "lo" ++ crlf ++ octets "wor")] []) false in
  let sk1 := snd (update 10 sk) in
  fst (update 10 sk) = Ret tt /\ replies sk1 = [text "hello"]
  /\ buf sk1 = text "wor" /\ connected sk1 = true.
Proof. repeat split. Qed.

(** ** The frame parser *)

Lemma list_pair_ind (P : ustr -> Prop) :
  P [] -> (forall c, P [c]) ->
  (forall c d l, P l -> P (d :: l) -> P (c :: d :: l)) ->
  forall l, P l.
Proof.
  intros H0 H1 H2 l.
  enough (P l /\ forall c, P (c :: l)) by tauto.
  induction l as [|d l [IH1 IH2]]; split; auto.
Qed.

Lemma contains_CRLF_cons (c : char) (l : ustr) :
  contains CRLF (c :: l)
  = match l with
    | [] => false
    | d :: _ => ((c =? CR)%N && (d =? LF)%N) || contains CRLF l
    end.
Proof.
  destruct l as [|d l]; cbn [contains starts_with CRLF].
  - rewrite andb_false_r. reflexivity.
  - rewrite andb_true_r, (N.eqb_sym CR c), (N.eqb_sym LF d). reflexivity.
Qed.

Lemma split_lines_step (cur : ustr) (c d : char) (l : ustr) :
  split_lines cur (c :: d :: l)
  = if (c =? CR)%N && (d =? LF)%N
    then (cur :: fst (split_lines [] l), snd (split_lines [] l))
    else split_lines (cur ++ [c]) (d :: l).
Proof.
  cbn [split_lines]. destruct ((c =? CR)%N && (d =? LF)%N).
  - destruct (split_lines [] l); reflexivity.
  - reflexivity.
Qed.

Lemma count_delims_step (c d : char) (l : ustr) :
  count_delims (c :: d :: l)
  = (if (c =? CR)%N && (d =? LF)%N then 1 else 0) + count_delims (d :: l).
Proof. reflexivity. Qed.

Lemma split_lines_join (l : ustr) :
  forall cur, cur ++ l
              = join (fst (split_lines cur l)) (snd (split_lines cur l)).
Proof.
  induction l as [|c|c d l IH1 IH2] using list_pair_ind; intros cur.
  - cbn. apply app_nil_r.
  - reflexivity.
  - rewrite split_lines_step.
    destruct ((c =? CR)%N && (d =? LF)%N) eqn:E.
    + apply andb_true_iff in E as [Ec Ed].
      apply N.eqb_eq in Ec, Ed. subst c d.
      cbn [fst snd join]. rewrite <- (IH1 []). reflexivity.
    + rewrite <- IH2, <- app_assoc. reflexivity.
Qed.

Lemma split_lines_count (l : ustr) :
  forall cur, length (fst (split_lines cur l)) = count_delims l.
Proof.
  induction l as [|c|c d l IH1 IH2] using list_pair_ind; intros cur;
    try reflexivity.
  rewrite split_lines_step, count_delims_step.
  destruct ((c =? CR)%N && (d =? LF)%N) eqn:E.
  - apply andb_true_iff in E as [Ec Ed].
    apply N.eqb_eq in Ec, Ed. subst c d.
    cbn [fst length]. rewrite (IH1 []).
    destruct l as [|e l]; reflexivity.
  - rewrite IH2. reflexivity.
Qed.

Lemma contains_short (l : ustr) : (length l <= 1)%nat -> contains CRLF l = false.
Proof.
  destruct l as [|c [|d l]]; cbn [length]; intros H; try lia.
  - reflexivity.
  - apply contains_CRLF_cons.
Qed.

Lemma contains_app_false (a b : ustr) :
  contains CRLF (a ++ b) = false ->
  contains CRLF a = false /\ contains CRLF b = false.
Proof.
  induction a as [|c a IH]; intros H.
  - split; [reflexivity | exact H].
  - cbn [app] in H. rewrite contains_CRLF_cons in H |- *.
    destruct a as [|d a].
    + cbn [app] in H. split; [reflexivity|].
      destruct b as [|e b]; [reflexivity|].
      apply orb_false_iff in H. tauto.
    + cbn [app] in H, IH. apply orb_false_iff in H as [H1 H2].
      destruct (IH H2) as [Ha Hb]. rewrite H1, Ha. auto.
Qed.

Lemma contains_snoc (x : ustr) (c d : char) :
  contains CRLF (x ++ [c]) = false ->
  (c =? CR)%N && (d =? LF)%N = false ->
  contains CRLF ((x ++ [c]) ++ [d]) = false.
Proof.
  intros H E. induction x as [|a x IH].
  - cbn [app]. rewrite contains_CRLF_cons, E. apply contains_short. cbn; lia.
  - cbn [app] in *. rewrite contains_CRLF_cons in H |- *.
    destruct x as [|b x]; cbn [app] in *.
    + apply orb_false_iff in H as [H1 H2]. rewrite H1. apply (IH H2).
    + apply orb_false_iff in H as [H1 H2]. rewrite H1. apply (IH H2).
Qed.

(** Whatever the scan emits is free of the delimiter, and so is the tail it
    keeps. *)
Lemma split_lines_free (l : ustr) :
  forall cur, delim_free (cur ++ firstn 1 l) ->
              Forall delim_free (fst (split_lines cur l))
              /\ delim_free (snd (split_lines cur l)).
Proof.
  unfold delim_free.
  induction l as [|c|c d l IH1 IH2] using list_pair_ind; intros cur H.
  - cbn in *. rewrite app_nil_r in H. auto.
  - cbn in *. auto.
  - rewrite split_lines_step. cbn [firstn] in H.
    destruct ((c =? CR)%N && (d =? LF)%N) eqn:E.
    + cbn [fst snd].
      destruct (IH1 []) as [Hs Ht].
      { apply contains_short. destruct l; cbn; lia. }
      split; [constructor|]; auto.
      apply (contains_app_false _ _ H).
    + apply IH2. cbn [firstn]. apply contains_snoc; assumption.
Qed.

(** The scan finds exactly the segments a delimiter-free decomposition is
    made of. *)
Lemma split_lines_tail (l : ustr) :
  forall cur, delim_free l -> split_lines cur l = ([], cur ++ l).
Proof.
  unfold delim_free.
  induction l as [|c|c d l IH1 IH2] using list_pair_ind; intros cur H.
  - cbn. rewrite app_nil_r. reflexivity.
  - reflexivity.
  - rewrite split_lines_step. rewrite contains_CRLF_cons in H.
    apply orb_false_iff in H as [H1 H2]. rewrite H1, (IH2 _ H2), <- app_assoc.
    reflexivity.
Qed.

Lemma split_lines_seg (seg rest : ustr) :
  forall cur, delim_free seg ->
              split_lines cur (seg ++ CRLF ++ rest)
              = ((cur ++ seg) :: fst (split_lines [] rest),
                 snd (split_lines [] rest)).
Proof.
  unfold delim_free.
  induction seg as [|c seg IH]; intros cur H.
  - cbn [app CRLF]. rewrite split_lines_step, app_nil_r. reflexivity.
  - rewrite contains_CRLF_cons in H.
    destruct seg as [|d seg].
    + cbn [app CRLF]. rewrite split_lines_step.
      replace ((c =? CR)%N && (CR =? LF)%N) with false
        by (rewrite andb_false_r; reflexivity).
      specialize (IH (cur ++ [c]) eq_refl). cbn [app CRLF] in IH.
      rewrite IH, app_nil_r. reflexivity.
    + apply orb_false_iff in H as [H1 H2].
      change ((c :: d :: seg) ++ CRLF ++ rest)
        with (c :: d :: (seg ++ CRLF ++ rest)).
      rewrite split_lines_step, H1.
      specialize (IH (cur ++ [c]) H2). cbn [app] in IH. rewrite IH.
      rewrite <- app_assoc. reflexivity.
Qed.

Lemma split_lines_of_join (segs : list ustr) (tl : ustr) :
  Forall delim_free segs -> delim_free tl ->
  split_lines [] (join segs tl) = (segs, tl).
Proof.
  intros Hs Ht. induction Hs as [|seg segs Hseg Hs IH].
  - cbn [join]. apply (split_lines_tail [] Ht).
  - cbn [join]. rewrite (split_lines_seg _ [] Hseg), IH. reflexivity.
Qed.

(** *** The loop of [parse_buf] computes the scan *)

Lemma parse_fold (whole : ustr) (suf : ustr) :
  forall pre st,
    whole = pre ++ suf -> p_i st = length pre -> p_skip st = 0%nat ->
    let r := fold_left (parse_step whole (length whole)) suf st in
    let out := split_lines (p_reply st) suf in
    p_replies r = p_replies st ++ filter nonempty (fst out)
    /\ (fst out = [] -> p_chop r = p_chop st)
    /\ (fst out <> [] ->
        (p_chop r + length (snd out))%nat = length whole).
Proof.
  induction suf as [|c|c d l IH1 IH2] using list_pair_ind;
    intros pre st Hw Hi Hs; cbn zeta.
  - cbn. rewrite app_nil_r. repeat split; auto. congruence.
  - cbn [fold_left split_lines fst snd filter]. unfold parse_step.
    rewrite Hs, Hi. cbn [Nat.eqb negb].
    replace (length pre + 1 <? length whole)%nat with false.
    2:{ symmetry. apply Nat.ltb_ge. subst whole. rewrite length_app.
        cbn. lia. }
    cbn. rewrite app_nil_r. repeat split; auto. congruence.
  - rewrite split_lines_step.
    assert (Hn : nth_error whole (length pre + 1) = Some d).
    { subst whole. rewrite nth_error_app2 by lia.
      replace (length pre + 1 - length pre)%nat with 1%nat by lia.
      reflexivity. }
    assert (Hl : (length pre + 1 <? length whole)%nat = true).
    { apply Nat.ltb_lt. subst whole. rewrite length_app. cbn. lia. }
    assert (Hstep : parse_step whole (length whole) st c
                    = if (c =? CR)%N && (d =? LF)%N
                      then if negb (is_empty (p_reply st))
                           then mkParse (p_replies st ++ [p_reply st]) []
                                        (length pre + 1 + 1) 1 (length pre + 1)
                           else mkParse (p_replies st) (p_reply st)
                                        (length pre + 1 + 1) 1 (length pre + 1)
                      else mkParse (p_replies st) (p_reply st ++ [c])
                                   (p_chop st) 0 (length pre + 1)).
    { unfold parse_step. rewrite Hs, Hi, Hn, Hl. reflexivity. }
    cbn [fold_left]. rewrite Hstep.
    destruct ((c =? CR)%N && (d =? LF)%N) eqn:E.
    + (* a delimiter: the reply is closed and the line feed skipped *)
      set (st1 := if negb (is_empty (p_reply st)) then _ else _).
      assert (H1 : p_skip st1 = 1%nat /\ p_i st1 = (length pre + 1)%nat
                   /\ p_chop st1 = (length pre + 1 + 1)%nat
                   /\ p_reply st1 = []
                   /\ p_replies st1
                      = p_replies st ++ filter nonempty [p_reply st]).
      { subst st1. unfold nonempty.
        destruct (p_reply st); cbn; rewrite ?app_nil_r; auto. }
      destruct H1 as (Hk & Hi1 & Hc1 & Hr1 & Hrs1).
      assert (Hstep2 : parse_step whole (length whole) st1 d
                       = mkParse (p_replies st1) [] (length pre + 1 + 1) 0
                                 (length pre + 1 + 1)).
      { unfold parse_step. rewrite Hk, Hi1, Hc1, Hr1. reflexivity. }
      rewrite Hstep2. clear Hstep2.
      set (st2 := mkParse _ _ _ _ _).
      destruct (IH1 (pre ++ [c; d]) st2) as (A & B & C).
      { subst whole. rewrite <- app_assoc. reflexivity. }
      { subst st2. cbn. rewrite length_app. cbn. lia. }
      { reflexivity. }
      cbn zeta in A, B, C. subst st2.
      cbn [p_reply p_replies p_chop] in A, B, C.
      cbn [fst snd]. split; [|split].
      * rewrite A, Hrs1, <- app_assoc. cbn [filter app].
        destruct (nonempty (p_reply st)); reflexivity.
      * discriminate.
      * intros _. destruct (fst (split_lines [] l)) eqn:F.
        -- rewrite (B eq_refl).
           pose proof (split_lines_join l []) as J. rewrite F in J.
           cbn [join app] in J. rewrite <- J. subst whole.
           rewrite length_app. cbn. lia.
        -- apply C. discriminate.
    + set (st1 := mkParse _ _ _ _ _).
      destruct (IH2 (pre ++ [c]) st1) as (A & B & C).
      { subst whole. rewrite <- app_assoc. reflexivity. }
      { subst st1. cbn. rewrite length_app. cbn. lia. }
      { reflexivity. }
      cbn zeta in A, B, C. subst st1. cbn [p_reply p_replies p_chop] in *.
      auto.
Qed.

Lemma join_front (segs : list ustr) (tl : ustr) :
  exists front, join segs tl = front ++ tl
                /\ (segs <> [] -> (2 <= length front)%nat).
Proof.
  induction segs as [|seg segs (front & Hf & _)].
  - exists []. split; [reflexivity | congruence].
  - exists (seg ++ CRLF ++ front). cbn [join]. rewrite Hf, <- !app_assoc.
    split; [reflexivity|]. intros _. rewrite !length_app. cbn. lia.
Qed.

Lemma parse_loop_spec (b : ustr) :
  p_replies (parse_loop b) = frames b
  /\ (fst (split_lines [] b) = [] -> p_chop (parse_loop b) = 0%nat)
  /\ (fst (split_lines [] b) <> [] ->
      p_chop (parse_loop b) <> 0%nat
      /\ skipn (p_chop (parse_loop b)) b = leftover b).
Proof.
  destruct (@parse_fold b b [] (mkParse [] [] 0 0 0) eq_refl eq_refl eq_refl)
    as (A & B & C).
  cbn zeta in A, B, C. cbn [p_reply p_replies p_chop app] in A, B, C.
  unfold parse_loop, frames, leftover.
  split; [exact A|]. split; [exact B|].
  intros Hne. specialize (C Hne).
  pose proof (split_lines_join b []) as J. cbn [app] in J.
  destruct (join_front (fst (split_lines [] b)) (snd (split_lines [] b)))
    as (front & Hf & Hlen).
  specialize (Hlen Hne). rewrite Hf in J.
  assert (Hc : p_chop (fold_left (parse_step b (length b)) b
                                 (mkParse [] [] 0 0 0)) = length front).
  { pose proof (f_equal (@length char) J) as JL. rewrite length_app in JL.
    lia. }
  rewrite Hc. split; [lia|].
  rewrite J at 1. rewrite skipn_app, skipn_all, Nat.sub_diag. reflexivity.
Qed.


Lemma parse_buf_spec (sk : Sock) :
  parse_buf sk
  = (Ret (frames (buf sk)),
     if is_empty (fst (split_lines [] (buf sk))) then sk
     else set_buf (leftover (buf sk)) sk).
Proof.
  destruct (parse_loop_spec (buf sk)) as (A & B & C).
  unfold parse_buf. rewrite A.
  destruct (fst (split_lines [] (buf sk))) eqn:F.
  - rewrite (B eq_refl). reflexivity.
  - destruct C as [C1 C2]; [discriminate|].
    apply Nat.eqb_neq in C1. rewrite C1, C2. reflexivity.
Qed.

(** C2.  For every buffer content, one call to [parse_buf] returns, in
    order, one message per delimiter occurrence, each the text accumulated
    before that delimiter, with the empty segments dropped; afterwards the
    buffer is the text after the last delimiter when at least one delimiter
    was found, and the channel is untouched otherwise.  The buffer is
    [segs], each followed by the delimiter, then [tl]; no segment and no
    tail contains the delimiter, and there are as many segments as
    delimiter occurrences. *)
Theorem parse_buf_frames (sk : Sock) :
  let segs := fst (split_lines [] (buf sk)) in
  let tl := snd (split_lines [] (buf sk)) in
  buf sk = join segs tl
  /\ Forall delim_free segs /\ delim_free tl
  /\ length segs = count_delims (buf sk)
  /\ parse_buf sk
     = (Ret (filter nonempty segs),
        if is_empty segs then sk else set_buf tl sk).
Proof.
  cbn zeta.
  destruct (@split_lines_free (buf sk) []) as [Hs Ht].
  { apply contains_short. destruct (buf sk); cbn; lia. }
  split; [apply (split_lines_join (buf sk) [])|].
  split; [exact Hs|]. split; [exact Ht|].
  split; [apply split_lines_count|].
  apply parse_buf_spec.
Qed.
(** ** Frame conditions *)

Section Preservation.
Variable R : Sock -> Sock -> Prop.
Hypothesis R_refl : forall sk, R sk sk.
Hypothesis R_trans : forall a b c, R a b -> R b c -> R a c.

Lemma preserves_ret {A} (a : A) : preserves R (ret a).
Proof. intros sk. apply R_refl. Qed.

Lemma preserves_raise {A} (e : exn) : preserves R (@raise A e).
Proof. intros sk. apply R_refl. Qed.

Lemma preserves_gets {A} (f : Sock -> A) : preserves R (gets f).
Proof. intros sk. apply R_refl. Qed.

Lemma preserves_modify (f : Sock -> Sock) :
  (forall sk, R sk (f sk)) -> preserves R (modify f).
Proof. intros H sk. apply H. Qed.

Lemma preserves_bind {A B} (m : M A) (k : A -> M B) :
  preserves R m -> (forall a, preserves R (k a)) -> preserves R (bind m k).
Proof.
  intros Hm Hk sk. unfold bind. specialize (Hm sk).
  destruct (m sk) as [[a|e|] sk1]; cbn [snd] in *; auto.
  eapply R_trans; [exact Hm | apply Hk].
Qed.

Lemma preserves_try_except {A} (body : M A) (handler : exn -> M A) :
  preserves R body -> (forall e, preserves R (handler e)) ->
  preserves R (try_except body handler).
Proof.
  intros Hb Hh sk. unfold try_except. specialize (Hb sk).
  destruct (body sk) as [[a|e|] sk1]; cbn [snd] in *; auto.
  eapply R_trans; [exact Hb | apply Hh].
Qed.

Lemma preserves_try_finally {A} (body : M A) (fin : M unit) :
  preserves R body -> preserves R fin ->
  preserves R (try_finally body fin).
Proof.
  intros Hb Hf sk. unfold try_finally. specialize (Hb sk).
  destruct (body sk) as [[a|e|] sk1]; cbn [snd] in *; auto;
    specialize (Hf sk1); destruct (fin sk1) as [[[]|e'|] sk2];
    cbn [snd] in *; eapply R_trans; eauto.
Qed.
End Preservation.

Lemma same_config_refl (sk : Sock) : same_config sk sk.
Proof. repeat split. Qed.

Lemma same_config_trans (a b c : Sock) :
  same_config a b -> same_config b c -> same_config a c.
Proof. unfold same_config. intuition congruence. Qed.

Lemma steady_refl (sk : Sock) : steady sk sk.
Proof. repeat split. Qed.

Lemma steady_trans (a b c : Sock) : steady a b -> steady b c -> steady a c.
Proof. unfold steady, same_config. intuition congruence. Qed.

Lemma steady_config (a b : Sock) : steady a b -> same_config a b.
Proof. intros H. apply H. Qed.

Ltac frame_step R_refl R_trans :=
  first
    [ apply (preserves_bind R_trans); [|intros ?]
    | apply (preserves_try_except R_trans); [|intros ?]
    | apply (preserves_try_finally R_trans)
    | apply preserves_ret; apply R_refl
    | apply preserves_raise; apply R_refl
    | apply preserves_gets; apply R_refl
    | apply preserves_modify; intros ?; repeat split ].

Ltac steady_steps := repeat frame_step steady_refl steady_trans.
Ltac config_steps := repeat frame_step same_config_refl same_config_trans.

Lemma close_steady : preserves steady close.
Proof. steady_steps. Qed.

Lemma log_exception_steady (e : exn) : preserves steady (log_exception e).
Proof. intros sk. repeat split. Qed.

Lemma time_time_steady : preserves steady time_time.
Proof.
  intros sk. unfold time_time. destruct (clock (world sk)); repeat split.
Qed.

Lemma update_timeout_steady (t : option Z) : preserves steady (update_timeout t).
Proof.
  intros sk. unfold update_timeout, set_blocking.
  destruct (blocking sk) eqn:B; cbn [andb]; [|apply steady_refl].
  destruct (is_some t); [|apply steady_refl].
  destruct (s sk); cbn [snd]; [|apply steady_refl].
  repeat split; cbn; auto.
Qed.

Lemma restore_blocking_steady : preserves steady restore_blocking.
Proof.
  intros sk. unfold restore_blocking, set_blocking.
  destruct (s sk); cbn [snd]; [|apply steady_refl].
  repeat split; cbn; auto.
Qed.

Lemma send_loop_steady (fuel : nat) (msg : bytes) (send_all : bool) :
  forall total_sent, preserves steady (send_loop fuel msg send_all total_sent).
Proof.
  induction fuel as [|fuel IH]; intros total_sent sk; cbn [send_loop].
  - apply steady_refl.
  - destruct (s sk) as [sock|] eqn:S; [|apply steady_refl].
    destruct (sock_send (skipn total_sent msg) sock) as [[k|e] sock'].
    + destruct (k =? 0)%nat.
      * repeat split.
      * match goal with |- context [if ?c then _ else _] => destruct c end.
        -- eapply steady_trans; [|apply IH]. repeat split.
        -- repeat split.
    + repeat split.
Qed.

Lemma send_steady (msg : pymsg) (send_all : bool) (t : option Z) :
  preserves steady (send msg send_all t).
Proof.
  unfold send.
  apply (preserves_bind steady_trans);
    [apply update_timeout_steady|intros _].
  apply (preserves_try_finally steady_trans);
    [|apply restore_blocking_steady].
  apply (preserves_try_except steady_trans).
  - intros sk. destruct (negb (connected sk)); [apply steady_refl|].
    destruct (to_bytes msg); [apply send_loop_steady | apply steady_refl].
  - intros e. steady_steps;
      auto using log_exception_steady, close_steady.
Qed.

Lemma send_line_steady (msg : pymsg) (t : option Z) :
  preserves steady (send_line msg t).
Proof.
  unfold send_line.
  apply (preserves_bind steady_trans);
    [apply update_timeout_steady|intros _].
  apply (preserves_try_finally steady_trans);
    [|apply restore_blocking_steady].
  apply (preserves_try_except steady_trans).
  - intros sk. destruct (negb (connected sk)); [apply steady_refl|].
    destruct (to_bytes msg); [|apply steady_refl].
    destruct (encode_ascii (delimiter sk)); [|apply steady_refl].
    apply send_steady.
  - intros e. steady_steps;
      auto using log_exception_steady, close_steady.
Qed.

Lemma heart_beat_steady : preserves steady heart_beat.
Proof.
  unfold heart_beat.
  apply (preserves_bind steady_trans);
    [apply time_time_steady|intros t].
  intros sk.
  destruct (t - last_heart_beat sk >=? heart_beat_interval sk)%Z;
    [|apply steady_refl].
  revert sk.
  apply (preserves_bind steady_trans);
    [apply time_time_steady|intros t'].
  apply (preserves_bind steady_trans);
    [intros sk; repeat split|intros _].
  apply (preserves_bind steady_trans);
    [apply send_line_steady|intros _].
  apply preserves_ret, steady_refl.
Qed.

(** ** Resource limits of the chunk reader *)

Lemma option_map_cons_some {A} (x : A) (o : option (list A)) (t : list A) :
  option_map (cons x) o = Some t -> exists t', o = Some t' /\ t = x :: t'.
Proof. destruct o; cbn; intros H; inversion H; eauto. Qed.

Lemma decode_utf8_length_upto (n : nat) :
  forall bs t, (length bs <= n)%nat -> decode_utf8 bs = Some t ->
               (length t <= length bs)%nat.
Proof.
  induction n as [|n IH]; intros bs t Hn H.
  - destruct bs; [inversion H; cbn; lia | cbn in Hn; lia].
  - destruct bs as [|b0 r0]; [inversion H; cbn; lia|].
    cbn [decode_utf8] in H. cbv zeta in H. cbn [length] in Hn |- *.
    destruct (ord b0 <? 128)%N.
    { apply option_map_cons_some in H as (t' & D & ->).
      apply IH in D; cbn [length]; lia. }
    destruct r0 as [|b1 r1]; [discriminate|]. cbn [length] in Hn |- *.
    destruct ((194 <=? ord b0) && (ord b0 <? 224))%N.
    { destruct (continuation (ord b1)); [|discriminate].
      apply option_map_cons_some in H as (t' & D & ->).
      apply IH in D; cbn [length]; lia. }
    destruct r1 as [|b2 r2]; [discriminate|]. cbn [length] in Hn |- *.
    destruct ((224 <=? ord b0) && (ord b0 <? 240))%N.
    { destruct (second_of_three (ord b0) (ord b1) && continuation (ord b2));
        [|discriminate].
      apply option_map_cons_some in H as (t' & D & ->).
      apply IH in D; cbn [length]; lia. }
    destruct r2 as [|b3 r3]; [discriminate|]. cbn [length] in Hn |- *.
    match type of H with (if ?c then _ else _) = _ => destruct c end;
      [|discriminate].
    apply option_map_cons_some in H as (t' & D & ->).
    apply IH in D; cbn [length]; lia.
Qed.

(** Decoding never yields more characters than there are octets. *)
Lemma decode_length (enc : encoding) (chunk : bytes) (t : ustr) :
  decode enc chunk = Some t -> (length t <= length chunk)%nat.
Proof.
  destruct enc; cbn [decode].
  - apply (@decode_utf8_length_upto (length chunk)). lia.
  - intros H. inversion H. unfold decode_latin1. rewrite length_map. lia.
Qed.

(** [recv(n)] hands over at most [n] octets. *)
Lemma sock_recv_got (n : Z) (sock sock' : Socket) (chunk : bytes) :
  sock_recv n sock = (Got chunk, sock') ->
  (0 <= n)%Z /\ (Z.of_nat (length chunk) <= n)%Z.
Proof.
  unfold sock_recv. destruct (n <? 0)%Z eqn:N; [discriminate|].
  apply Z.ltb_ge in N.
  destruct (rx sock) as [|[bs|e] rest]; intros H; inversion H; subst.
  split; [assumption|]. rewrite length_firstn. lia.
Qed.

Lemma chunk_reads_snoc (log : list rx_result) (r : rx_result) :
  chunk_reads (log ++ [r])
  = (chunk_reads log + match r with Got _ => 1 | Raised _ => 0 end)%nat.
Proof.
  unfold chunk_reads. rewrite filter_app, length_app.
  destruct r; reflexivity.
Qed.

Lemma chunk_inv_refl (mb mc cn : Z) (sk : Sock) : chunk_inv mb mc cn sk sk.
Proof. repeat split; auto. lia. Qed.

Lemma chunk_inv_steady (mb mc cn : Z) (sk sk' : Sock) :
  steady sk sk' -> chunk_inv mb mc cn sk sk'.
Proof.
  intros (C & Hb & Hr & Hl). unfold chunk_inv, buf_len, reads.
  rewrite Hb, Hl. repeat split; auto; try apply C. lia.
Qed.

(** The state right after [self.s.recv] returned or raised. *)
Lemma note_recv_facts (r : rx_result) (sock' : Socket) (sk : Sock) :
  let sk1 := note_recv r (set_s (Some sock') sk) in
  same_config sk sk1 /\ replies sk1 = replies sk /\ buf sk1 = buf sk
  /\ reads sk1
     = (reads sk + match r with Got _ => 1 | Raised _ => 0 end)%Z.
Proof.
  cbn zeta. repeat split. unfold reads, note_recv.
  cbn [world set_world recv_log]. rewrite chunk_reads_snoc.
  cbn [world set_s]. destruct r; lia.
Qed.

Lemma chunk_inv_raised (mb mc cn : Z) (e : exn) (sock' : Socket)
      (sk sk' : Sock) :
  chunk_inv mb mc cn (note_recv (Raised e) (set_s (Some sock') sk)) sk' ->
  chunk_inv mb mc cn sk sk'.
Proof.
  destruct (note_recv_facts (Raised e) sock' sk) as (C & Hr & Hb & Hl).
  intros (C' & Hr' & Hb' & Hl'). unfold chunk_inv.
  split; [exact (same_config_trans C C')|].
  split; [congruence|]. split.
  - intros B H1 H2. apply Hb'; auto.
  - intros Hblk. rewrite Hl in Hl'.
    assert (reads sk' <= reads sk + 0 + Z.max 0 (mc - cn))%Z; [|lia].
    apply Hl'. destruct C as (-> & _). exact Hblk.
Qed.

Lemma chunk_inv_got (mb mc cn : Z) (chunk : bytes) (sock' : Socket)
      (sk sk' : Sock) :
  ((cn >=? mc)%Z && negb (blocking sk) = false) ->
  chunk_inv mb mc (cn + 1)
            (note_recv (Got chunk) (set_s (Some sock') sk)) sk' ->
  chunk_inv mb mc cn sk sk'.
Proof.
  destruct (note_recv_facts (Got chunk) sock' sk) as (C & Hr & Hb & Hl).
  intros Hcap (C' & Hr' & Hb' & Hl'). unfold chunk_inv.
  split; [exact (same_config_trans C C')|].
  split; [congruence|]. split.
  - intros B H1 H2. apply Hb'; auto.
  - intros Hblk. rewrite Hl in Hl'. rewrite Hblk in Hcap.
    cbn [negb] in Hcap. rewrite andb_true_r in Hcap.
    rewrite Z.geb_leb in Hcap. apply Z.leb_gt in Hcap.
    assert (reads sk' <= reads sk + 1 + Z.max 0 (mc - (cn + 1)))%Z; [|lia].
    apply Hl'. destruct C as (-> & _). exact Hblk.
Qed.

Lemma steady_then_ret {A B} (m : M A) (b : B) (sk : Sock) :
  preserves steady m -> steady sk (snd ((m ;;; ret b) sk)).
Proof.
  intros H. revert sk. apply (preserves_bind steady_trans); [exact H|].
  intros _. apply preserves_ret, steady_refl.
Qed.

Lemma chunk_inv_appended (mb mc cn cs : Z) (chunk : bytes) (t : ustr)
      (sock' : Socket) (sk : Sock) :
  (buf_len sk < mb)%Z -> (cs <= mb - buf_len sk)%Z ->
  (Z.of_nat (length chunk) <= cs)%Z -> (length t <= length chunk)%nat ->
  let sk1 := note_recv (Got chunk) (set_s (Some sock') sk) in
  forall B, (mb <= B)%Z -> (buf_len (set_buf (buf sk1 ++ t) sk1) <= B)%Z.
Proof.
  intros H1 H2 H3 H4 sk1 B HB. unfold buf_len in *. cbn [buf set_buf].
  subst sk1. cbn [buf note_recv set_world set_s]. rewrite length_app. lia.
Qed.

(** The inner loop keeps the invariant, whatever the peer does and however
    far the step budget reaches. *)
Lemma recv_chunks_inv (enc : encoding) (mb mc : Z) (fuel : nat) :
  forall cs cn sk,
    chunk_inv mb mc cn sk (snd (recv_chunks fuel enc mb mc cs cn sk)).
Proof.
  induction fuel as [|fuel IH]; intros cs cn sk; cbn [recv_chunks].
  - apply chunk_inv_refl.
  - fold (buf_len sk).
    destruct (buf_len sk >=? mb)%Z eqn:Hfull; [apply chunk_inv_refl|].
    rewrite Z.geb_leb in Hfull. apply Z.leb_gt in Hfull.
    set (cs1 := if (mb - buf_len sk <? cs)%Z then _ else _).
    assert (Hcs : (cs1 <= mb - buf_len sk)%Z).
    { subst cs1. destruct (mb - buf_len sk <? cs)%Z eqn:E; [lia|].
      apply Z.ltb_ge in E. lia. }
    destruct ((cn >=? mc)%Z && negb (blocking sk)) eqn:Hcap;
      [apply chunk_inv_refl|].
    destruct (s sk) as [sock|]; [|apply chunk_inv_refl].
    destruct (sock_recv cs1 sock) as [r sock'] eqn:R.
    destruct r as [chunk|e].
    + (* octets came in *)
      apply sock_recv_got in R as [_ Hlen].
      apply chunk_inv_got with (chunk := chunk) (sock' := sock');
        [exact Hcap|].
      destruct (is_empty chunk).
      { apply chunk_inv_steady, steady_then_ret, close_steady. }
      destruct (decode enc chunk) as [t|] eqn:D; [|apply IH].
      pose proof (@chunk_inv_appended mb mc cn cs1 chunk t sock' sk Hfull Hcs
                                      Hlen (decode_length _ _ D)) as Happ.
      cbn zeta in Happ.
      set (sk1 := note_recv (Got chunk) (set_s (Some sock') sk)) in *.
      set (sk2 := set_buf (buf sk1 ++ t) sk1) in *.
      assert (Hstep : forall sk', chunk_inv mb mc (cn + 1) sk2 sk' ->
                                  chunk_inv mb mc (cn + 1) sk1 sk').
      { intros sk' (C & Hr & Hb & Hl). repeat split; try apply C; auto. }
      destruct (blocking sk2) eqn:B2.
      * (* a blocking channel leaves the loop; its reads are not capped *)
        cbn [snd]. repeat split; auto.
        intros Hb. change (blocking sk2) with (blocking sk1) in B2.
        congruence.
      * apply Hstep, IH.
    + (* the call raised *)
      apply chunk_inv_raised with (e := e) (sock' := sock').
      destruct e as [[|]|[|]|code| | | | | |];
        try apply chunk_inv_refl; try apply IH;
        try (apply chunk_inv_steady, steady_then_ret, close_steady).
      destruct ((code =? EAGAIN)%Z || (code =? EWOULDBLOCK)%Z).
      * apply chunk_inv_steady, steady_then_ret, heart_beat_steady.
      * apply chunk_inv_steady, steady_then_ret, close_steady.
Qed.

Lemma repeat_chunks_inv (fixed_limit : option Z) (enc : encoding)
      (mb mc : Z) (fuel : nat) :
  forall cn sk,
    chunk_inv mb mc cn sk
              (snd (repeat_chunks fuel fixed_limit enc mb mc cn sk)).
Proof.
  induction fuel as [|fuel IH]; intros cn sk; cbn [repeat_chunks].
  - apply chunk_inv_refl.
  - pose proof (recv_chunks_inv enc mb mc (S fuel) (chunk_size sk) cn sk)
      as Hin.
    destruct (recv_chunks (S fuel) enc mb mc (chunk_size sk) cn sk)
      as [[[rep cn'|]|e|] sk1]; cbn [snd] in *; auto.
    destruct (negb rep); [exact Hin|].
    destruct (blocking sk1) eqn:B1; cbn [andb]; [|exact Hin].
    match goal with |- context [if ?c then _ else _] => destruct c end;
      [|exact Hin].
    (* only a blocking channel goes round again *)
    destruct Hin as (C & Hr & Hb & _).
    destruct (IH cn' sk1) as (C' & Hr' & Hb' & _).
    split; [exact (same_config_trans C C')|].
    split; [congruence|]. split.
    + intros B H1 H2. apply Hb'; auto.
    + intros Hblk. destruct C as (C0 & _). congruence.
Qed.

Lemma get_chunks_inv (fuel : nat) (fixed_limit : option Z) (enc : encoding)
      (sk : Sock) :
  chunk_inv (ceiling fixed_limit sk) (chunk_cap fixed_limit sk) 0 sk
            (snd (get_chunks fuel fixed_limit enc sk)).
Proof.
  unfold get_chunks.
  destruct (negb (connected sk)); [apply chunk_inv_refl|].
  destruct fixed_limit; apply repeat_chunks_inv.
Qed.

Lemma leftover_length (b : ustr) : (length (leftover b) <= length b)%nat.
Proof.
  pose proof (split_lines_join b []) as J. cbn [app] in J.
  destruct (join_front (fst (split_lines [] b)) (snd (split_lines [] b)))
    as (front & Hf & _).
  rewrite Hf in J. apply (f_equal (@length char)) in J.
  rewrite length_app in J. unfold leftover. lia.
Qed.

Lemma parse_buf_shrinks (sk : Sock) :
  same_config sk (snd (parse_buf sk))
  /\ (buf_len (snd (parse_buf sk)) <= buf_len sk)%Z
  /\ recv_log (world (snd (parse_buf sk))) = recv_log (world sk)
  /\ s (snd (parse_buf sk)) = s sk
  /\ connected (snd (parse_buf sk)) = connected sk.
Proof.
  rewrite parse_buf_spec. cbn [snd].
  destruct (is_empty (fst (split_lines [] (buf sk)))).
  - repeat split; lia.
  - repeat split. unfold buf_len. cbn [buf set_buf].
    pose proof (leftover_length (buf sk)). lia.
Qed.

(** What [update] keeps: the configuration, and any bound on the buffer
    that is at least [max_buf]. *)
Lemma update_inv (fuel : nat) (sk : Sock) :
  let sk' := snd (update fuel sk) in
  same_config sk sk'
  /\ (forall B, (max_buf sk <= B)%Z -> (buf_len sk <= B)%Z ->
                (buf_len sk' <= B)%Z).
Proof.
  cbn zeta. unfold update, bind.
  pose proof (get_chunks_inv fuel None Unicode sk) as (C & _ & Hb & _).
  cbn [ceiling] in Hb.
  destruct (get_chunks fuel None Unicode sk) as [[[]|e|] sk1];
    cbn [snd] in *; auto.
  destruct (parse_buf_shrinks sk1) as (C' & Hlen & _).
  rewrite parse_buf_spec in *. cbn [snd] in *. unfold modify. cbn [snd].
  set (sk2 := if is_empty _ then _ else _) in *.
  split.
  - apply (same_config_trans C). apply (same_config_trans C').
    repeat split.
  - intros B H1 H2. specialize (Hb B H1 H2).
    change (buf_len (set_replies (frames (buf sk1)) sk2)) with (buf_len sk2).
    lia.
Qed.

Lemma poll_step (n fuel : nat) (sk : Sock) :
  poll (S n) fuel sk
  = match update fuel sk with
    | (Ret _, sk1) =>
      match poll n fuel sk1 with
      | (Ret rest, sk2) => (Ret (replies sk1 :: rest), sk2)
      | (Raise e, sk2) => (Raise e, sk2)
      | (OutOfFuel, sk2) => (OutOfFuel, sk2)
      end
    | (Raise e, sk1) => (Raise e, sk1)
    | (OutOfFuel, sk1) => (OutOfFuel, sk1)
    end.
Proof.
  cbn [poll]. unfold bind at 1.
  destruct (update fuel sk) as [[[]|e|] sk1]; reflexivity.
Qed.

Lemma poll_inv (fuel : nat) (n : nat) :
  forall sk,
    same_config sk (snd (poll n fuel sk))
    /\ (forall B, (max_buf sk <= B)%Z -> (buf_len sk <= B)%Z ->
                  (buf_len (snd (poll n fuel sk)) <= B)%Z).
Proof.
  induction n as [|n IH]; intros sk.
  - split; [apply same_config_refl | auto].
  - rewrite poll_step. destruct (update_inv fuel sk) as (C & Hb).
    destruct (update fuel sk) as [[[]|e|] sk1]; cbn [snd] in *; auto.
    destruct (IH sk1) as (C' & Hb').
    assert (Hm : max_buf sk1 = max_buf sk) by apply C.
    destruct (poll n fuel sk1) as [[rest|e|] sk2]; cbn [snd ret] in *;
      (split; [exact (same_config_trans C C')|]);
      intros B H1 H2; apply Hb'; auto; lia.
Qed.

(** C3 (amended).  Whatever the peer sends and however long the reader
    runs, one [get_chunks] call leaves the buffer no longer than the larger
    of its length at entry and the ceiling in force ([max_buf], or the
    caller's [fixed_limit]), and any number of [update] calls leave it no
    longer than the larger of its length at entry and [max_buf]: octets
    beyond the ceiling are not appended.  On a non-blocking channel one
    [get_chunks] call makes at most [max_chunks] chunk reads, or at most
    [fixed_limit] chunk reads when a fixed limit is supplied. *)
Theorem chunk_reader_limits (fuel : nat) (fixed_limit : option Z)
        (enc : encoding) (n : nat) (sk : Sock) :
  (buf_len (snd (get_chunks fuel fixed_limit enc sk))
   <= Z.max (buf_len sk) (ceiling fixed_limit sk))%Z
  /\ (buf_len (snd (poll n fuel sk)) <= Z.max (buf_len sk) (max_buf sk))%Z
  /\ (blocking sk = false ->
      (reads (snd (get_chunks fuel fixed_limit enc sk))
       <= reads sk + Z.max 0 (chunk_cap fixed_limit sk))%Z).
Proof.
  destruct (get_chunks_inv fuel fixed_limit enc sk) as (_ & _ & Hb & Hr).
  destruct (poll_inv fuel n sk) as (_ & Hp).
  split; [apply Hb; lia|]. split; [apply Hp; lia|].
  intros Hblk. specialize (Hr Hblk). lia.
Qed.
(** ** Sending a line *)

Lemma restore_blocking_torn (sk : Sock) :
  s sk = None -> restore_blocking sk = (Raise AttributeError, sk).
Proof. intros H. unfold restore_blocking, set_blocking. rewrite H. reflexivity. Qed.

(** Setting the socket's mode touches neither its scripts nor what it has
    sent. *)
Lemma set_blocking_live (flag : bool) (t : option Z) (sk : Sock)
      (sock : Socket) :
  s sk = Some sock ->
  exists sock',
    set_blocking flag t sk
    = (Ret tt, set_blocking_flag flag (set_s (Some sock') sk))
    /\ wire sock' = wire sock /\ tx sock' = tx sock /\ rx sock' = rx sock.
Proof.
  intros H. unfold set_blocking. rewrite H.
  eexists. split; [reflexivity|].
  destruct flag; [destruct t|]; repeat split.
Qed.

Lemma update_timeout_live (t : option Z) (sk : Sock) (sock : Socket) :
  live sk sock ->
  exists sk0 sock0,
    update_timeout t sk = (Ret tt, sk0) /\ live sk0 sock0
    /\ wire sock0 = wire sock /\ tx sock0 = tx sock
    /\ blocking sk0 = blocking sk /\ delimiter sk0 = delimiter sk.
Proof.
  intros [Hc Hs]. unfold update_timeout.
  destruct (blocking sk && is_some t) eqn:E.
  - destruct (set_blocking_live true t sk Hs) as (sock' & -> & W & T & _).
    apply andb_true_iff in E as [E _].
    eexists. exists sock'. repeat split; auto.
  - exists sk, sock. repeat split; auto.
Qed.

Lemma restore_blocking_live (sk : Sock) (sock : Socket) :
  live sk sock ->
  exists sk0 sock0,
    restore_blocking sk = (Ret tt, sk0) /\ live sk0 sock0
    /\ wire sock0 = wire sock /\ tx sock0 = tx sock
    /\ blocking sk0 = blocking sk /\ delimiter sk0 = delimiter sk.
Proof.
  intros [Hc Hs]. unfold restore_blocking.
  destruct (set_blocking_live (blocking sk) (timeout sk) sk Hs)
    as (sock' & -> & W & T & _).
  eexists. exists sock'. repeat split; auto.
Qed.

(** The common frame of [send], [send_line] and [recv]: the body under
    [try/except Exception], which logs, closes and returns a default, and
    the [finally] clause, which restores the blocking mode. *)
Lemma guarded_raise {A} (body : M A) (dflt : A) (e : exn) (sk sk1 : Sock) :
  body sk = (Raise e, sk1) ->
  exists sk',
    try_finally
      (try_except body (fun e => log_exception e ;;; close ;;; ret dflt))
      restore_blocking sk
    = (Raise AttributeError, sk')
    /\ torn_down sk'
    /\ error_log (world sk') = error_log (world sk1) ++ [e]
    /\ buf sk' = buf sk1.
Proof.
  intros H. unfold try_finally, try_except. rewrite H.
  unfold bind, log_exception, close, modify, ret.
  rewrite restore_blocking_torn by reflexivity.
  eexists. split; [reflexivity|]. repeat split.
Qed.

Lemma guarded_torn {A} (body : M A) (dflt a : A) (sk sk1 : Sock) :
  body sk = (Ret a, sk1) -> s sk1 = None ->
  try_finally
    (try_except body (fun e => log_exception e ;;; close ;;; ret dflt))
    restore_blocking sk
  = (Raise AttributeError, sk1).
Proof.
  intros H Hs. unfold try_finally, try_except. rewrite H.
  rewrite restore_blocking_torn by exact Hs. reflexivity.
Qed.

Lemma guarded_live {A} (body : M A) (dflt a : A) (sk sk1 : Sock)
      (sock1 : Socket) :
  body sk = (Ret a, sk1) -> live sk1 sock1 ->
  exists sk' sock',
    try_finally
      (try_except body (fun e => log_exception e ;;; close ;;; ret dflt))
      restore_blocking sk
    = (Ret a, sk')
    /\ live sk' sock' /\ wire sock' = wire sock1 /\ tx sock' = tx sock1
    /\ blocking sk' = blocking sk1 /\ delimiter sk' = delimiter sk1.
Proof.
  intros H Hl. unfold try_finally, try_except. rewrite H.
  destruct (restore_blocking_live Hl) as (sk' & sock' & -> & F).
  exists sk', sock'. split; [reflexivity | exact F].
Qed.

(** The loop of [send] under full-send: either every octet from
    [total_sent] on reaches the wire, or the script of the socket holds a
    failing [send] and the loop ends with the channel closed or with the
    exception of the transport. *)
Lemma send_loop_outcome (msg : bytes) (send_all : bool) (fuel : nat) :
  forall total_sent sk sock,
    live sk sock -> (total_sent < length msg)%nat ->
    (length msg - total_sent <= fuel)%nat ->
    blocking sk || send_all = true ->
    (exists sk' sock',
        send_loop fuel msg send_all total_sent sk = (Ret (length msg), sk')
        /\ live sk' sock'
        /\ wire sock' = wire sock ++ skipn total_sent msg
        /\ blocking sk' = blocking sk /\ delimiter sk' = delimiter sk)
    \/ (~ Forall accepts (tx sock)
        /\ ((exists k sk', send_loop fuel msg send_all total_sent sk
                           = (Ret k, sk') /\ torn_down sk')
            \/ (exists e sk', send_loop fuel msg send_all total_sent sk
                              = (Raise e, sk')))).
Proof.
  induction fuel as [|fuel IH]; intros total sk sock [Hc Hs] Hlt Hfuel Hall;
    [lia|].
  cbn [send_loop]. rewrite Hs.
  set (data := skipn total msg).
  assert (Hdata : length data = (length msg - total)%nat)
    by (subst data; apply length_skipn).
  unfold sock_send.
  destruct (tx sock) as [|[n|e] rest] eqn:T.
  - (* nothing scripted: the kernel takes everything *)
    left. replace (length data =? 0)%nat with false
      by (symmetry; apply Nat.eqb_neq; lia).
    replace (total + length data <? length msg)%nat with false
      by (symmetry; apply Nat.ltb_ge; lia).
    cbn [andb]. replace (total + length data)%nat with (length msg) by lia.
    eexists. eexists. split; [reflexivity|]. repeat split; auto.
  - destruct (Nat.min n (length data) =? 0)%nat eqn:Z.
    + (* the connection is broken *)
      right. split.
      { intros F. inversion F as [|x l Hx _]; subst. cbn in Hx.
        apply Nat.eqb_eq in Z. lia. }
      left. eexists. eexists. split; [reflexivity|]. split; reflexivity.
    + apply Nat.eqb_neq in Z.
      set (k := Nat.min n (length data)) in *.
      set (sock1 := mkSocket _ _ _ _ _ _).
      set (sk1 := set_s (Some sock1) sk).
      change (blocking sk1) with (blocking sk). rewrite Hall, andb_true_r.
      assert (Hfirst : firstn n data = firstn k data).
      { subst k. destruct (Nat.le_ge_cases n (length data)) as [L|L].
        - rewrite Nat.min_l by exact L. reflexivity.
        - rewrite Nat.min_r by exact L. rewrite !firstn_all2; auto. }
      destruct (total + k <? length msg)%nat eqn:More.
      * apply Nat.ltb_lt in More.
        destruct (IH (total + k)%nat sk1 sock1) as [S|[F R]];
          [split; [exact Hc | reflexivity] | lia | lia | exact Hall | |].
        -- left. destruct S as (sk' & sock' & E & L & W & B & D).
           exists sk', sock'. split; [exact E|]. split; [exact L|].
           split; [|auto]. rewrite W. subst sock1. cbn [wire].
           rewrite Hfirst, <- app_assoc. f_equal.
           rewrite <- (firstn_skipn k data) at 2. f_equal.
           subst data. rewrite skipn_skipn. f_equal. lia.
        -- right. split; [|exact R].
           intros F'. apply F. inversion F'; subst. assumption.
      * apply Nat.ltb_ge in More. left.
        assert (total + k = length msg)%nat by lia.
        exists sk1, sock1. split; [f_equal; f_equal; assumption|].
        split; [split; [exact Hc | reflexivity]|]. split; [|auto].
        subst sock1. cbn [wire]. rewrite Hfirst. f_equal.
        apply firstn_all2. lia.
  - (* send raised *)
    right. split.
    { intros F. inversion F as [|x l Hx _]; subst. exact Hx. }
    right. eexists. eexists. reflexivity.
Qed.

(** [send] with the full-send flag on a live channel. *)
Lemma send_all_outcome (b : bytes) (t : option Z) (sk : Sock)
      (sock : Socket) :
  live sk sock -> b <> [] ->
  (exists sk' sock',
      send (Bytes b) true t sk = (Ret (length b), sk')
      /\ live sk' sock' /\ wire sock' = wire sock ++ b
      /\ blocking sk' = blocking sk /\ delimiter sk' = delimiter sk)
  \/ (~ Forall accepts (tx sock)
      /\ exists sk', send (Bytes b) true t sk = (Raise AttributeError, sk')
                     /\ torn_down sk').
Proof.
  intros Hl Hne.
  destruct (update_timeout_live t Hl)
    as (sk0 & sock0 & U & Hl0 & W0 & T0 & B0 & D0).
  set (body := fun sk1 : Sock =>
                 if negb (connected sk1) then (Ret O, sk1)
                 else match to_bytes (Bytes b) with
                      | Some b0 => send_loop (S (length b0)) b0 true 0 sk1
                      | None => (Raise UnicodeError, sk1)
                      end).
  assert (Hsend : send (Bytes b) true t sk
                  = try_finally
                      (try_except body
                         (fun e => log_exception e ;;; close ;;; ret O))
                      restore_blocking sk0).
  { unfold send. unfold bind at 1. rewrite U. reflexivity. }
  rewrite Hsend. clear Hsend.
  assert (Hbody : body sk0 = send_loop (S (length b)) b true 0 sk0).
  { subst body. cbn beta. destruct Hl0 as [-> _]. reflexivity. }
  assert (Hpos : (0 < length b)%nat)
    by (destruct b; [congruence | cbn; lia]).
  destruct (@send_loop_outcome b true (S (length b)) 0%nat sk0 sock0 Hl0 Hpos)
    as [(sk1 & sock1 & E & L1 & W1 & B1 & D1)
       |(F & [(k & sk1 & E & Tn)|(e & sk1 & E)])];
    [lia | apply orb_true_r | | |]; rewrite <- Hbody in E.
  - left.
    destruct (@guarded_live _ body O _ _ _ _ E L1) as (sk' & sock' & G & L' & W' & _ & B' & D').
    exists sk', sock'. split; [exact G|]. split; [exact L'|].
    split; [rewrite W', W1, W0; reflexivity|]. split; congruence.
  - right. split; [rewrite <- T0; exact F|].
    exists sk1. split; [|exact Tn].
    apply (@guarded_torn _ body O _ _ _ E). apply Tn.
  - right. split; [rewrite <- T0; exact F|].
    destruct (@guarded_raise _ body O _ _ _ E) as (sk' & G & Tn & _).
    exists sk'. split; [exact G | exact Tn].
Qed.

Lemma encode_ascii_length (m : ustr) (b : bytes) :
  encode_ascii m = Some b -> length b = length m.
Proof.
  revert b. induction m as [|c m IH]; intros b H; cbn [encode_ascii] in H.
  - inversion H. reflexivity.
  - destruct (c <? 128)%N; [|discriminate].
    destruct (Byte.of_N c); [|discriminate].
    destruct (encode_ascii m) as [bs|]; [|discriminate].
    inversion H. cbn [length]. rewrite (IH bs eq_refl). reflexivity.
Qed.

(** C5.  On a connected channel, blocking or not, [send_line] either puts
    the whole line on the wire (the payload followed by the two delimiter
    octets, however the transport cuts the sends) and returns the payload
    length plus 2, leaving the channel connected; or the message cannot be
    encoded or a [send] of the transport fails, and the connection is torn
    down. *)
Theorem send_line_complete (msg : pymsg) (t : option Z) (sk : Sock)
        (sock : Socket) :
  connected sk = true -> s sk = Some sock -> delimiter sk = CRLF ->
  (exists payload sk' sock',
      to_bytes msg = Some payload
      /\ send_line msg t sk = (Ret (length payload + 2)%nat, sk')
      /\ connected sk' = true /\ s sk' = Some sock'
      /\ wire sock' = wire sock ++ payload ++ crlf)
  \/ ((to_bytes msg = None \/ ~ Forall accepts (tx sock))
      /\ connected (snd (send_line msg t sk)) = false
      /\ s (snd (send_line msg t sk)) = None).
Proof.
  intros Hc Hs Hd.
  destruct (@update_timeout_live t sk sock (conj Hc Hs))
    as (sk0 & sock0 & U & Hl0 & W0 & T0 & B0 & D0).
  set (body := fun sk1 : Sock =>
                 if negb (connected sk1) then (Ret O, sk1)
                 else match to_bytes msg, encode_ascii (delimiter sk1) with
                      | Some b, Some d => send (Bytes (b ++ d)) true t sk1
                      | _, _ => (Raise UnicodeError, sk1)
                      end).
  assert (Hsend : send_line msg t sk
                  = try_finally
                      (try_except body
                         (fun e => log_exception e ;;; close ;;; ret O))
                      restore_blocking sk0).
  { unfold send_line. unfold bind at 1. rewrite U. reflexivity. }
  rewrite Hsend. clear Hsend.
  assert (Hd0 : encode_ascii (delimiter sk0) = Some crlf)
    by (rewrite D0, Hd; reflexivity).
  destruct (to_bytes msg) as [payload|] eqn:Hmsg.
  - assert (Hbody : body sk0 = send (Bytes (payload ++ crlf)) true t sk0).
    { subst body. cbn beta. destruct Hl0 as [-> _]. rewrite Hd0.
      reflexivity. }
    destruct (@send_all_outcome (payload ++ crlf) t sk0 sock0 Hl0)
      as [(sk1 & sock1 & E & L1 & W1 & B1 & D1)|(F & sk1 & E & Tn)];
      [destruct payload; discriminate | |]; rewrite <- Hbody in E.
    + left.
      destruct (@guarded_live _ body O _ _ _ _ E L1)
        as (sk' & sock' & G & [Hc' Hs'] & W' & _).
      exists payload, sk', sock'. split; [reflexivity|].
      split; [rewrite G, length_app; reflexivity|].
      split; [exact Hc'|]. split; [exact Hs'|].
      rewrite W', W1, W0. reflexivity.
    + right. split; [right; rewrite <- T0; exact F|].
      destruct (@guarded_raise _ body O _ _ _ E) as (sk' & G & [Hc' Hs'] & _).
      rewrite G. split; assumption.
  - assert (Hbody : body sk0 = (Raise UnicodeError, sk0)).
    { subst body. cbn beta. destruct Hl0 as [-> _]. reflexivity. }
    right. split; [left; reflexivity|].
    destruct (@guarded_raise _ body O _ _ _ Hbody) as (sk' & G & [Hc' Hs'] & _).
    rewrite G. split; assumption.
Qed.

(** ** Polling a well-behaved peer *)

Lemma decode_utf8_ascii (bs : bytes) :
  Forall ascii_byte bs -> decode_utf8 bs = Some (map ord bs).
Proof.
  induction 1 as [|b bs Hb _ IH]; [reflexivity|].
  cbn [decode_utf8 map]. cbv zeta.
  apply N.ltb_lt in Hb. rewrite Hb, IH. reflexivity.
Qed.

Lemma advanced_refl (sk : Sock) : calm sk -> advanced sk sk.
Proof.
  intros H. repeat split; try apply H; auto.
  exists []. rewrite app_nil_r. auto.
Qed.

Lemma advanced_trans (a b c : Sock) :
  advanced a b -> advanced b c -> advanced a c.
Proof.
  intros (_ & C1 & R1 & (g1 & B1 & P1) & L1)
         (K2 & C2 & R2 & (g2 & B2 & P2) & L2).
  split; [exact K2|]. split; [exact (same_config_trans C1 C2)|].
  split; [congruence|]. split; [|lia].
  exists (g1 ++ g2). rewrite B2, B1, P1, P2, !app_assoc. auto.
Qed.

(** With no heart beat due, the probe only reads the clock. *)
Lemma heart_beat_idle (sk : Sock) :
  Forall (fun t => (t - last_heart_beat sk < heart_beat_interval sk)%Z)
         (now (world sk) :: clock (world sk)) ->
  heart_beat sk = (Ret tt, snd (time_time sk)).
Proof.
  intros H. unfold heart_beat, bind, time_time.
  inversion H as [|t0 l0 Hnow Hclock]; subst.
  destruct (clock (world sk)) as [|t rest] eqn:C; cbn [snd].
  - apply Z.ltb_lt in Hnow. rewrite Z.geb_leb, Z.leb_antisym, Hnow.
    reflexivity.
  - inversion Hclock as [|t1 l1 Ht _]; subst.
    cbn [last_heart_beat heart_beat_interval set_world].
    apply Z.ltb_lt in Ht. rewrite Z.geb_leb, Z.leb_antisym, Ht.
    reflexivity.
Qed.

Lemma time_time_calm (sk : Sock) :
  calm sk ->
  calm (snd (time_time sk))
  /\ steady sk (snd (time_time sk))
  /\ s (snd (time_time sk)) = s sk.
Proof.
  intros (Hc & Hb & Hs & Hcs & Hbeat). unfold time_time.
  destruct (clock (world sk)) as [|t rest] eqn:C; cbn [snd].
  - repeat split; auto. rewrite C. exact Hbeat.
  - repeat split; auto. cbn. inversion Hbeat; assumption.
Qed.

(** The state after a read that took [got] off the script and left the
    peer's socket as [sock']. *)
Lemma calm_after_read (r : rx_result) (sock' : Socket) (t : ustr)
      (sk : Sock) :
  calm sk -> Forall benign (rx sock') ->
  calm (set_buf (buf sk ++ t) (note_recv r (set_s (Some sock') sk))).
Proof.
  intros (Hc & Hb & _ & Hcs & Hbeat) Hben.
  repeat split; auto. exists sock'. auto.
Qed.

Lemma script_bytes_cons (e : rx_event) (evs : list rx_event) :
  script_bytes (e :: evs) = event_bytes e ++ script_bytes evs.
Proof. reflexivity. Qed.

Lemma script_size_cons (e : rx_event) (evs : list rx_event) :
  script_size (e :: evs)
  = (1 + length (event_bytes e) + script_size evs)%nat.
Proof.
  unfold script_size. rewrite script_bytes_cons, length_app. cbn [length].
  lia.
Qed.

Lemma Forall_firstn_skipn {A} (P : A -> Prop) (k : nat) (l : list A) :
  Forall P l -> Forall P (firstn k l) /\ Forall P (skipn k l).
Proof.
  intros H. apply Forall_app. rewrite firstn_skipn. exact H.
Qed.

(** [recv(n)] with octets ready and [0 < n]: what is handed over, and what
    stays in the script. *)
Lemma sock_recv_data (n : Z) (sock : Socket) (bs : bytes)
      (rest : list rx_event) :
  rx sock = RxData bs :: rest -> (0 < n)%Z -> benign (RxData bs) ->
  Forall benign rest ->
  exists sock',
    sock_recv n sock = (Got (firstn (Z.to_nat n) bs), sock')
    /\ firstn (Z.to_nat n) bs <> []
    /\ Forall ascii_byte (firstn (Z.to_nat n) bs)
    /\ Forall benign (rx sock')
    /\ script_bytes (rx sock)
       = firstn (Z.to_nat n) bs ++ script_bytes (rx sock')
    /\ (script_size (rx sock') < script_size (rx sock))%nat.
Proof.
  intros Hrx Hn [Hne Hascii] Hrest. unfold sock_recv. rewrite Hrx.
  replace (n <? 0)%Z with false by (symmetry; apply Z.ltb_ge; lia).
  set (k := Z.to_nat n). assert (Hk : (0 < k)%nat) by (subst k; lia).
  eexists. split; [reflexivity|]. cbn [rx].
  split; [destruct bs; [congruence | destruct k; [lia | discriminate]]|].
  split; [apply Forall_firstn_skipn; assumption|].
  assert (Hlen : (length (firstn k bs) + length (skipn k bs) = length bs)%nat).
  { rewrite <- (firstn_skipn k bs) at 3. rewrite length_app. reflexivity. }
  assert (Hpos : (0 < length (firstn k bs))%nat).
  { rewrite length_firstn. destruct bs; [congruence | cbn [length]; lia]. }
  destruct (length bs <=? k)%nat eqn:E.
  - apply Nat.leb_le in E. rewrite script_bytes_cons, script_size_cons.
    cbn [event_bytes]. rewrite firstn_all2 by exact E.
    repeat split; auto. lia.
  - apply Nat.leb_gt in E.
    rewrite !script_bytes_cons, !script_size_cons. cbn [event_bytes].
    rewrite app_assoc, firstn_skipn.
    repeat split; auto; try lia.
    constructor; [|assumption]. split.
    + intros Z. apply (f_equal (@length byte)) in Z.
      rewrite length_skipn in Z. cbn in Z. lia.
    + apply Forall_firstn_skipn; assumption.
Qed.

Lemma advanced_read (r : rx_result) (sock sock' : Socket) (got : bytes)
      (sk : Sock) :
  calm sk -> s sk = Some sock -> Forall benign (rx sock') ->
  script_bytes (rx sock) = got ++ script_bytes (rx sock') ->
  (script_size (rx sock') <= script_size (rx sock))%nat ->
  advanced sk (set_buf (buf sk ++ map ord got)
                       (note_recv r (set_s (Some sock') sk))).
Proof.
  intros Hcalm Hs Hben Hbytes Hsize.
  split; [apply calm_after_read; assumption|].
  split; [repeat split|]. split; [reflexivity|].
  unfold pending, backlog. rewrite Hs. cbn [s set_buf note_recv set_world set_s buf].
  split; [|exact Hsize].
  exists (map ord got). rewrite Hbytes, map_app. auto.
Qed.

Lemma advanced_noted (r : rx_result) (sock sock' : Socket) (sk : Sock) :
  calm sk -> s sk = Some sock -> Forall benign (rx sock') ->
  script_bytes (rx sock) = script_bytes (rx sock') ->
  (script_size (rx sock') <= script_size (rx sock))%nat ->
  advanced sk (note_recv r (set_s (Some sock') sk)).
Proof.
  intros Hcalm Hs Hben Hbytes Hsize.
  pose proof (@advanced_read r sock sock' [] sk Hcalm Hs Hben Hbytes Hsize)
    as (K & C & R & (got & B & P) & L).
  destruct K as (K1 & K2 & K3 & K4 & K5).
  repeat split; auto.
  exists []. rewrite app_nil_r. split; [reflexivity|].
  unfold pending. rewrite Hs. cbn [s note_recv set_world set_s].
  rewrite Hbytes. reflexivity.
Qed.

Lemma advanced_time (sk : Sock) : calm sk -> advanced sk (snd (time_time sk)).
Proof.
  intros Hcalm. destruct (time_time_calm Hcalm) as (K & (C & B & R & _) & S).
  split; [exact K|]. split; [exact C|]. split; [exact R|].
  unfold pending, backlog. rewrite S. split; [|lia].
  exists []. rewrite B, app_nil_r. auto.
Qed.

(** The would-block path: the probe is idle and the loop is left. *)
Lemma calm_would_block (cn : Z) (sk : Sock) :
  calm sk ->
  (heart_beat ;;; ret (Break true cn)) sk
  = (Ret (Break true cn), snd (time_time sk)).
Proof.
  intros Hcalm. unfold bind. rewrite heart_beat_idle by apply Hcalm.
  reflexivity.
Qed.

(** On a calm channel the inner loop ends by [break] within the budget,
    having moved octets from the script to the buffer; it makes progress
    whenever there is room, the chunk cap is not reached and octets are
    pending. *)
Lemma calm_recv_chunks (fuel : nat) :
  forall cs cn sk,
    calm sk -> (0 < cs)%Z -> (length (pending sk) < fuel)%nat ->
    exists rep cn' sk',
      recv_chunks fuel Unicode (max_buf sk) (max_chunks sk) cs cn sk
      = (Ret (Break rep cn'), sk')
      /\ advanced sk sk'
      /\ ((buf_len sk < max_buf sk)%Z -> (cn < max_chunks sk)%Z ->
          pending sk <> [] -> (backlog sk' < backlog sk)%nat).
Proof.
  induction fuel as [|fuel IH]; intros cs cn sk Hcalm Hcs Hfuel; [lia|].
  pose proof Hcalm as (Hconn & Hblk & (sock & Hs & Hben) & Hsize & Hbeat).
  cbn [recv_chunks]. fold (buf_len sk).
  destruct (buf_len sk >=? max_buf sk)%Z eqn:Hfull.
  { exists true, cn, sk. split; [reflexivity|].
    split; [apply advanced_refl; assumption|].
    rewrite Z.geb_leb in Hfull. apply Z.leb_le in Hfull. lia. }
  rewrite Z.geb_leb in Hfull. apply Z.leb_gt in Hfull.
  set (cs1 := if (max_buf sk - buf_len sk <? cs)%Z then _ else _).
  assert (Hcs1 : (0 < cs1)%Z).
  { subst cs1. destruct (max_buf sk - buf_len sk <? cs)%Z; lia. }
  rewrite Hblk. cbn [negb]. rewrite andb_true_r.
  destruct (cn >=? max_chunks sk)%Z eqn:Hcap.
  { exists true, cn, sk. split; [reflexivity|].
    split; [apply advanced_refl; assumption|].
    rewrite Z.geb_leb in Hcap. apply Z.leb_le in Hcap. lia. }
  rewrite Hs.
  assert (Hpend : pending sk = script_bytes (rx sock))
    by (unfold pending; rewrite Hs; reflexivity).
  assert (Hback : backlog sk = script_size (rx sock))
    by (unfold backlog; rewrite Hs; reflexivity).
  destruct (rx sock) as [|[bs|e] rest] eqn:Hrx.
  - (* nothing is scripted: a time-out or a would-block *)
    unfold sock_recv. rewrite Hrx.
    replace (cs1 <? 0)%Z with false by (symmetry; apply Z.ltb_ge; lia).
    assert (Hadv : forall r, advanced sk (note_recv r (set_s (Some sock) sk))).
    { intros r. apply advanced_noted with (sock := sock); auto.
      rewrite Hrx. constructor. }
    destruct (blk sock).
    + exists false, cn. eexists. split; [reflexivity|].
      split; [apply Hadv|]. intros _ _ Hne. rewrite Hpend in Hne.
      cbn in Hne. congruence.
    + cbn [Z.eqb EAGAIN EWOULDBLOCK Pos.eqb orb].
      rewrite calm_would_block by apply Hadv.
      exists true, cn. eexists. split; [reflexivity|]. split.
      * eapply advanced_trans; [apply Hadv|]. apply advanced_time, Hadv.
      * intros _ _ Hne. rewrite Hpend in Hne. cbn in Hne. congruence.
  - (* octets are ready *)
    inversion Hben as [|e0 l0 Hbs Hrest]; subst.
    destruct (@sock_recv_data cs1 sock bs rest Hrx Hcs1 Hbs Hrest)
      as (sock' & R & Hne & Hascii & Hben' & Hbytes & Hless).
    rewrite Hrx in Hbytes, Hless. rewrite R. set (chunk := firstn (Z.to_nat cs1) bs) in *.
    replace (is_empty chunk) with false
      by (destruct chunk; [congruence | reflexivity]).
    cbn [decode]. rewrite (decode_utf8_ascii Hascii).
    set (sk2 := set_buf _ _).
    assert (Hadv : advanced sk sk2).
    { change sk2 with (set_buf (buf sk ++ map ord chunk)
                                (note_recv (Got chunk)
                                           (set_s (Some sock') sk))).
      apply advanced_read with (sock := sock); rewrite ?Hrx; auto; lia. }
    replace (blocking sk2) with false by (symmetry; exact Hblk).
    destruct (IH cs1 (cn + 1)%Z sk2) as (rep & cn' & sk' & E & Hadv' & _).
    { apply Hadv. }
    { exact Hcs1. }
    { rewrite Hpend, Hbytes in Hfuel. unfold pending.
      change (s sk2) with (Some sock').
      rewrite length_app in Hfuel.
      assert (0 < length chunk)%nat
        by (destruct chunk; [congruence | cbn; lia]).
      lia. }
    exists rep, cn', sk'. split; [exact E|].
    split; [exact (advanced_trans Hadv Hadv')|].
    intros _ _ _. destruct Hadv' as (_ & _ & _ & _ & L).
    change (backlog sk2) with (script_size (rx sock')) in L.
    rewrite Hback. lia.
  - (* the scripted would-block *)
    inversion Hben as [|e0 l0 He Hrest]; subst. cbn in He. subst e.
    unfold sock_recv. rewrite Hrx.
    replace (cs1 <? 0)%Z with false by (symmetry; apply Z.ltb_ge; lia).
    cbn [Z.eqb EAGAIN EWOULDBLOCK Pos.eqb orb].
    set (sock' := mkSocket rest _ _ _ _ _).
    assert (Hadv : advanced sk (note_recv (Raised (SocketError EAGAIN))
                                          (set_s (Some sock') sk))).
    { apply advanced_noted with (sock := sock); auto.
      - rewrite Hrx. reflexivity.
      - rewrite Hrx, script_size_cons. cbn [rx sock']. lia. }
    rewrite calm_would_block by apply Hadv.
    exists true, cn. eexists. split; [reflexivity|]. split.
    + eapply advanced_trans; [apply Hadv|]. apply advanced_time, Hadv.
    + intros _ _ _.
      pose proof (advanced_time (proj1 Hadv)) as (_ & _ & _ & _ & L).
      change (backlog (note_recv (Raised (SocketError EAGAIN))
                                 (set_s (Some sock') sk)))
        with (script_size rest) in L.
      rewrite Hback, script_size_cons. lia.
Qed.

(** *** Parsing in instalments *)

Lemma join_app_tail (segs : list ustr) (tl more : ustr) :
  join segs tl ++ more = join segs (tl ++ more).
Proof.
  induction segs as [|seg segs IH]; cbn [join]; [reflexivity|].
  rewrite <- !app_assoc, IH. reflexivity.
Qed.

Lemma join_app (segs1 segs2 : list ustr) (tl : ustr) :
  join segs1 (join segs2 tl) = join (segs1 ++ segs2) tl.
Proof.
  induction segs1 as [|seg segs1 IH]; cbn [join app]; [reflexivity|].
  rewrite IH. reflexivity.
Qed.

Lemma split_lines_nil_free (b : ustr) :
  Forall delim_free (fst (split_lines [] b))
  /\ delim_free (snd (split_lines [] b)).
Proof.
  apply split_lines_free. apply contains_short. destruct b; cbn; lia.
Qed.

(** Scanning [b ++ more] at once gives what scanning [b] gives, followed by
    what scanning the tail kept from [b] together with [more] gives. *)
Lemma split_lines_resume (b more : ustr) :
  split_lines [] (b ++ more)
  = (fst (split_lines [] b)
       ++ fst (split_lines [] (snd (split_lines [] b) ++ more)),
     snd (split_lines [] (snd (split_lines [] b) ++ more))).
Proof.
  destruct (split_lines_nil_free b) as [Hs1 _].
  destruct (split_lines_nil_free (snd (split_lines [] b) ++ more))
    as [Hs2 Ht2].
  pose proof (split_lines_join b []) as J1.
  pose proof (split_lines_join (snd (split_lines [] b) ++ more) []) as J2.
  cbn [app] in J1, J2.
  set (segs1 := fst (split_lines [] b)) in *.
  set (tl1 := snd (split_lines [] b)) in *.
  set (segs2 := fst (split_lines [] (tl1 ++ more))) in *.
  set (tl2 := snd (split_lines [] (tl1 ++ more))) in *.
  assert (H : b ++ more = join (segs1 ++ segs2) tl2).
  { rewrite <- join_app, <- J2, <- join_app_tail, <- J1. reflexivity. }
  rewrite H. apply split_lines_of_join; [|exact Ht2].
  apply Forall_app. auto.
Qed.

Lemma frames_resume (b more : ustr) :
  frames (b ++ more) = frames b ++ frames (leftover b ++ more).
Proof.
  unfold frames, leftover. rewrite split_lines_resume. cbn [fst].
  apply filter_app.
Qed.

Lemma leftover_resume (b more : ustr) :
  leftover (b ++ more) = leftover (leftover b ++ more).
Proof.
  unfold leftover. rewrite split_lines_resume. reflexivity.
Qed.

Lemma leftover_untouched (b : ustr) :
  fst (split_lines [] b) = [] -> leftover b = b.
Proof.
  intros H. pose proof (split_lines_join b []) as J. rewrite H in J.
  symmetry. exact J.
Qed.

Lemma frames_count (b : ustr) : (length (frames b) <= count_delims b)%nat.
Proof.
  unfold frames. rewrite <- (split_lines_count b []).
  apply filter_length_le.
Qed.

(** *** One pass and many passes over a well-behaved peer *)

Lemma calm_requeued (sk : Sock) (b : ustr) (q : list ustr) :
  calm sk ->
  calm (set_replies q sk) /\ calm (set_replies q (set_buf b sk)).
Proof.
  intros (Hc & Hb & (sock & Hs & Hben) & Hcs & Hbeat).
  split; (repeat split; auto; exists sock; auto).
Qed.

Lemma pending_length (sk sk' : Sock) (got : ustr) :
  map ord (pending sk) = got ++ map ord (pending sk') ->
  length (pending sk) = (length got + length (pending sk'))%nat.
Proof.
  intros H. apply (f_equal (@length N)) in H.
  rewrite length_app, !length_map in H. exact H.
Qed.

Lemma calm_update (fuel : nat) (sk : Sock) :
  calm sk -> (length (pending sk) < fuel)%nat ->
  exists sk' got,
    update fuel sk = (Ret tt, sk')
    /\ calm sk' /\ same_config sk sk'
    /\ map ord (pending sk) = got ++ map ord (pending sk')
    /\ replies sk' = frames (buf sk ++ got)
    /\ buf sk' = leftover (buf sk ++ got)
    /\ (backlog sk' <= backlog sk)%nat
    /\ ((buf_len sk < max_buf sk)%Z -> (0 < max_chunks sk)%Z ->
        pending sk <> [] -> (backlog sk' < backlog sk)%nat).
Proof.
  intros Hcalm Hfuel.
  destruct fuel as [|fuel]; [lia|].
  destruct (@calm_recv_chunks (S fuel) (chunk_size sk) 0%Z sk Hcalm)
    as (rep & cn' & sk1 & E & Hadv & Hprog); [apply Hcalm | exact Hfuel |].
  destruct Hadv as (K1 & C1 & R1 & (got & B1 & P1) & L1).
  assert (G : get_chunks (S fuel) None Unicode sk = (Ret tt, sk1)).
  { unfold get_chunks. destruct Hcalm as (-> & _). cbn [negb].
    cbn [repeat_chunks]. rewrite E.
    destruct K1 as (_ & -> & _). destruct (negb rep); reflexivity. }
  unfold update, bind. rewrite G, parse_buf_spec. unfold modify.
  rewrite B1.
  destruct (is_empty (fst (split_lines [] (buf sk ++ got)))) eqn:F.
  - exists (set_replies (frames (buf sk ++ got)) sk1), got.
    split; [reflexivity|]. split; [apply calm_requeued; assumption|].
    split; [apply (same_config_trans C1); repeat split|].
    split; [exact P1|]. split; [reflexivity|]. split.
    { cbn [buf set_replies]. rewrite B1. symmetry.
      apply leftover_untouched.
      destruct (fst (split_lines [] (buf sk ++ got))); [auto|discriminate]. }
    auto.
  - exists (set_replies (frames (buf sk ++ got))
                        (set_buf (leftover (buf sk ++ got)) sk1)), got.
    split; [reflexivity|]. split; [apply calm_requeued; assumption|].
    split; [apply (same_config_trans C1); repeat split|].
    split; [exact P1|]. auto.
Qed.

(** Many passes: the queues the passes leave, put end to end, are the
    frames of the initial buffer followed by the text read so far. *)
Lemma calm_poll (fuel : nat) (n : nat) :
  forall sk,
    calm sk -> delim_free (buf sk) -> (length (pending sk) < fuel)%nat ->
    exists out sk' got,
      poll n fuel sk = (Ret out, sk')
      /\ calm sk' /\ same_config sk sk'
      /\ map ord (pending sk) = got ++ map ord (pending sk')
      /\ concat out = frames (buf sk ++ got)
      /\ buf sk' = leftover (buf sk ++ got)
      /\ ((Z.of_nat (length (buf sk) + length (pending sk)) <= max_buf sk)%Z ->
          (0 < max_chunks sk)%Z ->
          pending sk' = [] \/ (backlog sk' + n <= backlog sk)%nat).
Proof.
  induction n as [|n IH]; intros sk Hcalm Hfree Hfuel.
  - exists [], sk, []. cbn [poll ret concat]. rewrite !app_nil_r.
    pose proof (split_lines_tail [] Hfree) as T. cbn [app] in T.
    unfold frames, leftover. rewrite T. cbn [fst snd filter].
    split; [reflexivity|]. split; [assumption|].
    split; [apply same_config_refl|]. repeat split.
    intros _ _. right. lia.
  - rewrite poll_step.
    destruct (calm_update Hcalm Hfuel)
      as (sk1 & got1 & U & K1 & C1 & P1 & R1 & B1 & L1 & G1).
    rewrite U. pose proof (pending_length _ _ _ P1) as Hlen1.
    destruct (IH sk1 K1)
      as (out & sk' & got2 & E & K2 & C2 & P2 & R2 & B2 & G2);
      [rewrite B1; apply split_lines_nil_free | lia |].
    rewrite E. exists (replies sk1 :: out), sk', (got1 ++ got2).
    split; [reflexivity|]. split; [exact K2|].
    split; [exact (same_config_trans C1 C2)|].
    split; [rewrite P1, P2, app_assoc; reflexivity|].
    split; [cbn [concat]; rewrite R1, R2, B1, app_assoc;
            symmetry; apply frames_resume|].
    split; [rewrite B2, B1, app_assoc; symmetry; apply leftover_resume|].
    intros Hroom Hcap.
    assert (Hmb : max_buf sk1 = max_buf sk) by apply C1.
    assert (Hmc : max_chunks sk1 = max_chunks sk) by apply C1.
    pose proof (pending_length _ _ _ P2) as Hlen2.
    pose proof (leftover_length (buf sk ++ got1)) as Hleft.
    rewrite <- B1, length_app in Hleft.
    destruct G2 as [G2|G2]; [lia | lia | left; exact G2 |].
    destruct (pending sk) as [|x xs] eqn:Hp.
    + left. cbn [length] in Hlen1.
      destruct (pending sk'); [reflexivity | cbn [length] in Hlen2; lia].
    + right. cbn [length] in Hroom.
      assert (backlog sk1 < backlog sk)%nat; [|lia].
      apply G1; [unfold buf_len; lia | exact Hcap | discriminate].
Qed.

Lemma backlog_drained (n : nat) (sk sk' : Sock) :
  pending sk' = [] \/ (backlog sk' + n <= backlog sk)%nat ->
  (backlog sk <= n)%nat -> pending sk' = [].
Proof.
  intros [H|H] Hn; [exact H|].
  revert H Hn. generalize (backlog sk). intros total H Hn.
  unfold pending, backlog in *. destruct (s sk') as [sock|]; [|reflexivity].
  unfold script_size in H.
  destruct (script_bytes (rx sock)); [reflexivity | cbn [length] in H; lia].
Qed.

(** C1 (amended).  A connected non-blocking channel with an empty buffer
    polls a peer that sends plain ASCII and is otherwise silent.  After any
    number of [update] passes the messages the passes completed, taken in
    pass order, are exactly the non-empty segments between consecutive
    delimiters of the text read so far, in stream order, none twice and
    none missing: for [k] delimiters that is [k] less the number of empty
    segments.  The unterminated tail stays in the buffer, and when the
    stream fits under [max_buf] and [max_chunks] is positive, as many passes
    as the peer's script is long read all of it. *)
Theorem update_stream_order (n fuel : nat) (sk : Sock) :
  calm sk -> buf sk = [] -> (length (pending sk) < fuel)%nat ->
  exists out sk' got segs,
    poll n fuel sk = (Ret out, sk')
    /\ map ord (pending sk) = got ++ map ord (pending sk')
    /\ got = join segs (buf sk')
    /\ Forall delim_free segs /\ delim_free (buf sk')
    /\ length segs = count_delims got
    /\ concat out = filter nonempty segs
    /\ ((Z.of_nat (length (pending sk)) <= max_buf sk)%Z ->
        (0 < max_chunks sk)%Z -> (backlog sk <= n)%nat ->
        pending sk' = []).
Proof.
  intros Hcalm Hbuf Hfuel.
  destruct (@calm_poll fuel n sk Hcalm)
    as (out & sk' & got & E & _ & _ & P & R & B & G);
    [rewrite Hbuf; reflexivity | exact Hfuel |].
  rewrite Hbuf in *. cbn [app length] in *.
  exists out, sk', got, (fst (split_lines [] got)).
  destruct (split_lines_nil_free got) as [Hs Ht].
  split; [exact E|]. split; [exact P|].
  split; [rewrite B; apply (split_lines_join got [])|].
  split; [exact Hs|]. split; [rewrite B; exact Ht|].
  split; [apply split_lines_count|]. split; [exact R|].
  intros Hroom Hcap Hn. apply backlog_drained with (n := n) (sk := sk); auto.
Qed.

Lemma delim_free_prefix (a b : ustr) : delim_free (a ++ b) -> delim_free a.
Proof. intros H. apply (contains_app_false _ _ H). Qed.

Lemma delim_free_snoc_CR (m : ustr) : delim_free m -> delim_free (m ++ [CR]).
Proof.
  unfold delim_free. induction m as [|c m IH]; intros H; [reflexivity|].
  cbn [app]. rewrite contains_CRLF_cons in H |- *.
  destruct m as [|d m]; cbn [app] in *.
  - rewrite andb_false_r. reflexivity.
  - apply orb_false_iff in H as [H1 H2]. rewrite H1. apply (IH H2).
Qed.

(** Every proper prefix of a delimiter-free message followed by the
    delimiter is free of the delimiter. *)
Lemma proper_prefix_free (m got rest : ustr) :
  delim_free m -> m ++ CRLF = got ++ rest -> rest <> [] -> delim_free got.
Proof.
  intros Hm E Hrest.
  assert (exists back, m ++ [CR] = got ++ back) as (back & Hb).
  { destruct (exists_last Hrest) as (front & x & ->).
    exists front.
    change CRLF with ([CR] ++ [LF]) in E. rewrite !app_assoc in E.
    apply app_inj_tail in E as [E _]. exact E. }
  apply delim_free_prefix with (b := back). rewrite <- Hb.
  apply delim_free_snoc_CR, Hm.
Qed.

(** C4 (amended).  A non-empty ASCII message without the delimiter inside
    is sent, delimiter at its end, to a connected non-blocking channel with
    an empty buffer, cut into chunk arrivals in any way (the delimiter may
    be cut in two) and with any silence in between.  However the octets are
    cut, and so also when they come in one chunk, the passes complete
    nothing while octets are still to come, and exactly the one message
    once the last octet was read; with room under [max_buf] and a positive
    [max_chunks], as many passes as the script is long read all of it. *)
Theorem split_message_once (n fuel : nat) (m : bytes) (sk : Sock) :
  calm sk -> buf sk = [] -> pending sk = m ++ crlf -> m <> [] ->
  delim_free (map ord m) -> (length (pending sk) < fuel)%nat ->
  exists out sk',
    poll n fuel sk = (Ret out, sk')
    /\ concat out = (if is_empty (pending sk') then [map ord m] else [])
    /\ ((Z.of_nat (length (pending sk)) <= max_buf sk)%Z ->
        (0 < max_chunks sk)%Z -> (backlog sk <= n)%nat ->
        pending sk' = []).
Proof.
  intros Hcalm Hbuf Hpend Hne Hfree Hfuel.
  destruct (@calm_poll fuel n sk Hcalm)
    as (out & sk' & got & E & _ & _ & P & R & B & G);
    [rewrite Hbuf; reflexivity | exact Hfuel |].
  rewrite Hbuf in *. cbn [app length] in *.
  exists out, sk'. split; [exact E|]. split.
  - rewrite R. rewrite Hpend, map_app in P.
    change (map ord crlf) with CRLF in P.
    destruct (pending sk') as [|x xs] eqn:Hp; cbn [is_empty].
    + cbn [map] in P. rewrite app_nil_r in P. subst got.
      unfold frames.
      pose proof (@split_lines_seg (map ord m) [] [] Hfree) as S.
      rewrite app_nil_r in S. cbn [app] in S.
      transitivity (filter nonempty [map ord m]).
      { f_equal. exact (f_equal fst S). }
      cbn [filter]. unfold nonempty.
      destruct m; [congruence | reflexivity].
    + unfold frames.
      assert (F : delim_free got).
      { apply (@proper_prefix_free (map ord m) got (map ord (x :: xs)));
          [exact Hfree | exact P | discriminate]. }
      transitivity (filter nonempty (@nil ustr)); [|reflexivity].
      f_equal. exact (f_equal fst (split_lines_tail [] F)).
  - intros Hroom Hcap Hn. apply backlog_drained with (n := n) (sk := sk); auto.
Qed.
(** ** Failures at the public operations *)

Lemma close_torn_down (sk : Sock) :
  exists sk', close sk = (Ret tt, sk') /\ torn_down sk'
              /\ error_log (world sk') = error_log (world sk).
Proof. eexists. split; [reflexivity|]. repeat split. Qed.



Lemma reconnect_connected (sk : Sock) :
  connected sk = true -> reconnect sk = (Ret tt, sk).
Proof. intros H. unfold reconnect. rewrite H. reflexivity. Qed.

Lemma reconnect_no_address (sk : Sock) :
  addr sk = Some None -> reconnect sk = (Ret tt, sk).
Proof.
  intros H. unfold reconnect. rewrite H. destruct (connected sk); reflexivity.
Qed.









Lemma sock_recv_event (n : Z) (sock : Socket) (ev : rx_event)
      (rest : list rx_event) :
  rx sock = ev :: rest -> (0 <= n)%Z -> fatal ev ->
  exists r sock',
    sock_recv n sock = (r, sock')
    /\ match r with
       | Got chunk => chunk = []
       | Raised (SocketError err) => err <> EAGAIN
       | Raised (SSLError want_read) => want_read = false
       | Raised ConnectFailed => True
       | Raised _ => False
       end.
Proof.
  intros Hrx Hn Hf. unfold sock_recv.
  destruct (n <? 0)%Z eqn:N; [apply Z.ltb_lt in N; lia|].
  rewrite Hrx. destruct ev as [bs|e]; cbn in Hf.
  - subst bs. eexists. eexists. split; [reflexivity|].
    destruct (Z.to_nat n); reflexivity.
  - eexists. eexists. split; [reflexivity|].
    destruct e; try exact Hf. apply Hf.
Qed.

(** A fetch whose first reading shows the connection gone. *)
Lemma fetch_fatal (fuel : nat) (fixed_limit : option Z)
      (enc : encoding) (sk : Sock) (sock : Socket) (ev : rx_event)
      (rest : list rx_event) :
  live sk sock -> rx sock = ev :: rest -> fatal ev ->
  (buf_len sk < ceiling fixed_limit sk)%Z ->
  (0 < chunk_cap fixed_limit sk)%Z \/ blocking sk = true ->
  (0 <= chunk_size sk)%Z ->
  exists sk',
    get_chunks (S fuel) fixed_limit enc sk = (Ret tt, sk')
    /\ torn_down sk'
    /\ buf sk' = buf sk /\ replies sk' = replies sk
    /\ error_log (world sk') = error_log (world sk).
Proof.
  intros [Hc Hs] Hrx Hf Hb Hcap Hcs.
  assert (G : get_chunks (S fuel) fixed_limit enc sk
              = repeat_chunks (S fuel) fixed_limit enc
                              (ceiling fixed_limit sk)
                              (chunk_cap fixed_limit sk) 0 sk).
  { unfold get_chunks. rewrite Hc. destruct fixed_limit; reflexivity. }
  rewrite G. clear G.
  set (mb := ceiling fixed_limit sk) in *.
  set (mc := chunk_cap fixed_limit sk) in *.
  unfold buf_len in Hb.
  set (cs := if (mb - Z.of_nat (length (buf sk)) <? chunk_size sk)%Z
             then (mb - Z.of_nat (length (buf sk)))%Z else chunk_size sk).
  assert (Hcs1 : (0 <= cs)%Z).
  { subst cs. destruct (_ <? _)%Z; lia. }
  destruct (sock_recv_event sock Hrx Hcs1 Hf) as (r & sock' & R & Hr).
  assert (E : exists sk',
             recv_chunks (S fuel) enc mb mc (chunk_size sk) 0 sk
             = (Ret Return, sk')
             /\ torn_down sk' /\ buf sk' = buf sk
             /\ replies sk' = replies sk
             /\ error_log (world sk') = error_log (world sk)).
  { cbn [recv_chunks].
    destruct (Z.of_nat (length (buf sk)) >=? mb)%Z eqn:Q;
      [rewrite Z.geb_leb in Q; apply Z.leb_le in Q; lia|].
    assert (Q2 : (0 >=? mc)%Z && negb (blocking sk) = false).
    { destruct Hcap as [Hcap|Hcap].
      - replace (0 >=? mc)%Z with false; [reflexivity|].
        symmetry. rewrite Z.geb_leb. apply Z.leb_gt. exact Hcap.
      - rewrite Hcap. apply andb_false_r. }
    rewrite Q2, Hs. fold cs. rewrite R.
    destruct r as [chunk|e].
    - subst chunk. cbn. eexists. split; [reflexivity|]. repeat split.
    - destruct e; try contradiction.
      + subst want_read. cbn. eexists. split; [reflexivity|]. repeat split.
      + replace ((code =? EAGAIN)%Z || (code =? EWOULDBLOCK)%Z) with false.
        * cbn. eexists. split; [reflexivity|]. repeat split.
        * symmetry. unfold EWOULDBLOCK. fold EAGAIN.
          rewrite orb_diag. apply Z.eqb_neq. exact Hr.
      + cbn. eexists. split; [reflexivity|]. repeat split. }
  destruct E as (sk' & E & T & B & Q & L).
  exists sk'. cbn [repeat_chunks]. rewrite E.
  repeat split; auto; apply T.
Qed.






(** The two kinds of read failure at work: the peer hangs up, and a read
    of a silent peer times out. *)
Example update_gives_up_on_hang_up :
  fst (update 10 hung_up) = Ret tt
  /\ torn_down (snd (update 10 hung_up))
  /\ error_log (world (snd (update 10 hung_up))) = [].
Proof. repeat split. Qed.

Example update_survives_time_out :
  fst (update 10 silent_peer) = Ret tt
  /\ connected (snd (update 10 silent_peer)) = true
  /\ error_log (world (snd (update 10 silent_peer))) = [].
Proof. repeat split. Qed.

(** C7, at the failing input.  A channel built without address and port
    never assigned [addr]; [reconnect] on it raises instead of doing
    nothing. *)
Theorem reconnect_without_address :
  let sk := fresh_channel false (mkWorld 0 [] [] [] [peer [] []]) in
  connected sk = false /\ addr sk = None /\ port sk = None
  /\ reconnect sk = (Raise AttributeError, sk).
Proof. repeat split. Qed.

(** When [recv] returns, the buffer is the one it found. *)
Lemma recv_restores_on_return (fuel : nat) (n : Z) (enc : encoding)
      (t : option Z) (sk : Sock) (v : pydata) :
  fst (recv fuel n enc t sk) = Ret v ->
  buf (snd (recv fuel n enc t sk)) = buf sk.
Proof.
  destruct (recv fuel n enc t sk) as [o sk'] eqn:R. cbn [fst snd].
  intros ->. revert R.
  unfold recv, bind at 1.
  pose proof (update_timeout_steady t sk) as (_ & B0 & _).
  destruct (update_timeout t sk) as [[[]|e|] sk0]; cbn [snd] in B0;
    [|discriminate|discriminate].
  unfold try_finally, try_except.
  destruct (connected sk0); cbn [negb].
  - unfold bind at 1, modify at 1. unfold bind at 1.
    destruct (recv_loop fuel n enc (set_buf [] sk0)) as [[[]|e|] sk1].
    + unfold bind at 1, gets at 1. unfold bind at 1, modify at 1.
      set (sk2 := set_buf (buf sk0) sk1).
      assert (B2 : buf sk2 = buf sk) by (rewrite <- B0; reflexivity).
      pose proof (restore_blocking_steady sk2) as (_ & B3 & _).
      destruct enc; [|destruct (bytes_of_codes (buf sk1))]; unfold ret, raise;
        try (destruct (restore_blocking sk2) as [[[]|e|] sk3];
             cbn [fst snd] in *; intros R; inversion R; congruence).
    + unfold bind, log_exception, close, modify, ret.
      rewrite restore_blocking_torn by reflexivity. discriminate.
    + discriminate.
  - pose proof (restore_blocking_steady sk0) as (_ & B3 & _).
    destruct (restore_blocking sk0) as [[[]|e|] sk3];
      cbn [fst snd] in *; intros R; inversion R; congruence.
Qed.

(** C8, at the failing inputs.  On a closed non-blocking channel [recv]
    raises from its [finally] clause instead of returning the empty result;
    and when the read fails inside (the heart beat is due and its probe
    cannot be sent), [recv] leaves with the exception and with the octets
    just read in the buffer, the saved buffer lost. *)
Theorem recv_breaks_on_closed_channel :
  (let closed := snd (close line_ready) in
   connected closed = false /\ blocking closed = false
   /\ fst (recv 10 5 Unicode (Some 10%Z) closed) = Raise AttributeError)
  /\ (buf half_open = text "x" /\ connected half_open = true
      /\ fst (recv 10 5 Unicode (Some 10%Z) half_open) = Raise AttributeError
      /\ buf (snd (recv 10 5 Unicode (Some 10%Z) half_open)) = text "ab").
Proof. repeat split. Qed.

(** C9.  [__reversed__] is [__iter__]: the same pass of [update], the same
    filter, the replies in the order they arrived, and the queue left
    empty. *)
Theorem reversed_is_iter (fuel : nat) (sk : Sock) :
  __reversed__ fuel sk = __iter__ fuel sk
  /\ forall sk1,
      update fuel sk = (Ret tt, sk1) ->
      __reversed__ fuel sk
      = (Ret (match reply_filter sk1 with
              | Some keep => filter keep (replies sk1)
              | None => replies sk1
              end),
         set_replies [] sk1).
Proof.
  split; [reflexivity|].
  intros sk1 U. unfold __reversed__, __iter__, bind. rewrite U. reflexivity.
Qed.

Example reversed_is_forward :
  fst (__reversed__ 10 two_lines) = Ret [text "one"; text "two"]
  /\ fst (__iter__ 10 two_lines) = Ret [text "one"; text "two"]
  /\ replies (snd (__reversed__ 10 two_lines)) = [].
Proof. repeat split. Qed.

Lemma line_loop_config (t : Z) (fuel : nat) :
  forall sk, same_config sk (snd (line_loop fuel t sk)).
Proof.
  induction fuel as [|fuel IH]; intros sk; cbn [line_loop].
  - apply same_config_refl.
  - unfold bind at 1. destruct (update_inv (S fuel) sk) as (C & _).
    destruct (update (S fuel) sk) as [[[]|e|] sk1]; cbn [snd] in *; auto.
    destruct (negb (connected sk1)); [exact C|].
    match goal with |- context [if ?c then _ else _] => destruct c end;
      [exact C|].
    unfold bind. pose proof (time_time_steady sk1) as (C1 & _).
    destruct (time_time sk1) as [[t1|e|] sk2]; cbn [snd] in *;
      try exact (same_config_trans C C1).
    match goal with |- context [if ?c then _ else _] => destruct c end;
      [exact (same_config_trans C C1)|].
    exact (same_config_trans (same_config_trans C C1) (IH sk2)).
Qed.

(** A non-blocking channel never gets a message out of [recv_line]. *)
Lemma recv_line_nonblocking (fuel : nat) (t : option Z) (sk : Sock)
      (v : ustr) :
  blocking sk = false -> fst (recv_line fuel t sk) = Ret v -> v = [].
Proof.
  intros Hb. unfold recv_line, bind at 1, update_timeout. rewrite Hb.
  cbn [andb]. unfold try_finally.
  set (sk0 := set_buf [] sk).
  unfold bind at 1.
  pose proof (time_time_steady sk0) as ((B1 & _) & _).
  destruct (time_time sk0) as [[t0|e|] sk1]; cbn [snd] in B1.
  2:{ match goal with |- context [(restore_blocking ;;; ?m) sk1] =>
        destruct ((restore_blocking ;;; m) sk1) as [[[]|e'|] sk2] end;
        discriminate. }
  2:{ discriminate. }
  destruct t as [d|].
  2:{ unfold raise.
      match goal with |- context [(restore_blocking ;;; ?m) sk1] =>
        destruct ((restore_blocking ;;; m) sk1) as [[[]|e'|] sk2] end;
        discriminate. }
  unfold bind at 1.
  pose proof (line_loop_config (t0 + d) fuel sk1) as (B2 & _).
  destruct (line_loop fuel (t0 + d) sk1) as [[returned|e|] sk2];
    cbn [snd] in B2.
  - assert (Hb2 : blocking sk2 = false) by (rewrite B2, B1; exact Hb).
    rewrite Hb2.
    destruct returned;
      match goal with |- context [(restore_blocking ;;; ?m) sk2] =>
        destruct ((restore_blocking ;;; m) sk2) as [[[]|e'|] sk3] end;
      cbn [fst]; intros H; inversion H; reflexivity.
  - match goal with |- context [(restore_blocking ;;; ?m) sk2] =>
      destruct ((restore_blocking ;;; m) sk2) as [[[]|e'|] sk3] end;
      discriminate.
  - discriminate.
Qed.

Example recv_line_with_line_ready :
  fst (recv_line 10 (Some 2%Z) line_ready) = Ret []
  /\ replies (snd (recv_line 10 (Some 2%Z) line_ready)) = [text "hello"]
  /\ fst (recv_line 10 (Some 2%Z) line_ready_blocking) = Ret (text "hello").
Proof. repeat split. Qed.

(** C10, at the failing input.  The peer of a connected non-blocking
    channel has closed the connection: [update] closes the channel,
    [recv_line] takes its [return u""] and raises from the [finally]
    clause, so the call does not return the empty string. *)
Theorem recv_line_raises_on_hang_up :
  connected hung_up = true /\ blocking hung_up = false
  /\ fst (recv_line 10 (Some 2%Z) hung_up) = Raise AttributeError
  /\ connected (snd (recv_line 10 (Some 2%Z) hung_up)) = false.
Proof. repeat split. Qed.

Lemma slow_kernel_live :
  connected slow_kernel = true
  /\ s slow_kernel = Some (mkSocket [] [TxAccept 1; TxAccept 2] None false
                                    (Some 0%Z) [])
  /\ delimiter slow_kernel = CRLF.
Proof. repeat split. Defined.

Lemma send_line_complete_witness :
  (exists payload sk' sock',
      to_bytes (Str (text "PING")) = Some payload
      /\ send_line (Str (text "PING")) (Some 5%Z) slow_kernel
         = (Ret (length payload + 2)%nat, sk')
      /\ connected sk' = true /\ s sk' = Some sock'
      /\ wire sock' = [] ++ payload ++ crlf)
  \/ ((to_bytes (Str (text "PING")) = None
       \/ ~ Forall accepts [TxAccept 1; TxAccept 2])
      /\ connected (snd (send_line (Str (text "PING")) (Some 5%Z)
                                   slow_kernel)) = false
      /\ s (snd (send_line (Str (text "PING")) (Some 5%Z) slow_kernel))
         = None).
Proof.
  exact (@send_line_complete (Str (text "PING")) (Some 5%Z) slow_kernel _
                             (proj1 slow_kernel_live)
                             (proj1 (proj2 slow_kernel_live))
                             (proj2 (proj2 slow_kernel_live))).
Defined.

Example send_line_ping :
  fst (send_line (Str (text "PING")) (Some 5%Z) slow_kernel) = Ret 6%nat
  /\ option_map wire (s (snd (send_line (Str (text "PING")) (Some 5%Z)
                                        slow_kernel)))
     = Some (octets "PING" ++ crlf).
Proof. split; reflexivity. Qed.

(** ** The claims at concrete inputs *)

Lemma three_arrivals_calm : calm three_arrivals.
Proof.
  unfold calm. split; [reflexivity|]. split; [reflexivity|].
  split; [|split; [reflexivity|repeat constructor]].
  eexists. split; [reflexivity|].
  unfold benign, ascii_byte.
  repeat constructor; discriminate.
Defined.

Lemma update_stream_order_witness :
  exists out sk' got segs,
    poll 3 20 three_arrivals = (Ret out, sk')
    /\ map ord (pending three_arrivals) = got ++ map ord (pending sk')
    /\ got = join segs (buf sk')
    /\ Forall delim_free segs /\ delim_free (buf sk')
    /\ length segs = count_delims got
    /\ concat out = filter nonempty segs
    /\ ((Z.of_nat (length (pending three_arrivals))
         <= max_buf three_arrivals)%Z ->
        (0 < max_chunks three_arrivals)%Z ->
        (backlog three_arrivals <= 3)%nat ->
        pending sk' = []).
Proof.
  apply (@update_stream_order 3 20 three_arrivals three_arrivals_calm).
  - reflexivity.
  - vm_compute. lia.
Defined.

(** C1, as stated, fails: the stream holds three delimiters, yet after all
    of it was read and parsed the queue holds one message; the passes
    completed two messages in all, the empty segment giving none, and the
    second pass put its message in the place of the first. *)
Lemma update_stream_counterexample :
  count_delims (text "a" ++ CRLF ++ CRLF ++ text "b" ++ CRLF) = 3%nat
  /\ map ord (pending three_arrivals)
     = text "a" ++ CRLF ++ CRLF ++ text "b" ++ CRLF
  /\ exists out sk',
      poll 2 20 three_arrivals = (Ret out, sk')
      /\ pending sk' = [] /\ buf sk' = []
      /\ out = [[text "a"]; [text "b"]]
      /\ replies sk' = [text "b"]
      /\ length (replies sk') <> 3%nat.
Proof.
  split; [reflexivity|]. split; [reflexivity|].
  eexists. eexists. split; [vm_compute; reflexivity|].
  repeat split. discriminate.
Qed.

Lemma dribble_nonblocking : blocking dribble = false.
Proof. reflexivity. Defined.

Lemma chunk_reader_limits_witness :
  blocking dribble = false
  /\ (reads (snd (get_chunks 10 (Some 3%Z) Unicode dribble))
      <= reads dribble + Z.max 0 (chunk_cap (Some 3%Z) dribble))%Z.
Proof.
  split; [exact dribble_nonblocking|].
  exact (proj2 (proj2 (@chunk_reader_limits 10 (Some 3%Z) Unicode 2 dribble))
               dribble_nonblocking).
Defined.

(** C3, as stated, fails in its last part: on a non-blocking channel with
    [max_chunks = 2] the call [get_chunks(fixed_limit=3)] makes three chunk
    reads, because a fixed limit also replaces the chunk cap. *)
Lemma chunk_cap_counterexample :
  blocking dribble = false /\ max_chunks dribble = 2%Z
  /\ reads dribble = 0%Z
  /\ reads (snd (get_chunks 10 (Some 3%Z) Unicode dribble)) = 3%Z
  /\ ~ (reads (snd (get_chunks 10 (Some 3%Z) Unicode dribble))
        <= reads dribble + max_chunks dribble)%Z.
Proof.
  repeat split. vm_compute. intros H. apply H. reflexivity.
Qed.

Lemma hello_in_pieces_calm : calm hello_in_pieces.
Proof.
  unfold calm. split; [reflexivity|]. split; [reflexivity|].
  split; [|split; [reflexivity|repeat constructor]].
  eexists. split; [reflexivity|].
  unfold benign, ascii_byte.
  repeat constructor; discriminate.
Defined.

Lemma split_message_once_witness :
  exists out sk',
    poll 4 10 hello_in_pieces = (Ret out, sk')
    /\ concat out
       = (if is_empty (pending sk') then [map ord (octets "hello")] else [])
    /\ ((Z.of_nat (length (pending hello_in_pieces))
         <= max_buf hello_in_pieces)%Z ->
        (0 < max_chunks hello_in_pieces)%Z ->
        (backlog hello_in_pieces <= 4)%nat ->
        pending sk' = []).
Proof.
  apply (@split_message_once 4 10 (octets "hello") hello_in_pieces
                             hello_in_pieces_calm).
  - reflexivity.
  - reflexivity.
  - discriminate.
  - reflexivity.
  - vm_compute. lia.
Defined.

(** C4, as stated, fails: the message U+00E9 arrives with its two octets in
    different chunks; each chunk fails to decode on its own and is skipped,
    so after all octets arrived no message was completed, while the same
    octets in one chunk give the message. *)
Lemma split_message_counterexample :
  pending e_acute_cut = pending e_acute_whole
  /\ exists out_cut sk_cut out_whole sk_whole,
      poll 2 10 e_acute_cut = (Ret out_cut, sk_cut)
      /\ poll 2 10 e_acute_whole = (Ret out_whole, sk_whole)
      /\ pending sk_cut = [] /\ pending sk_whole = []
      /\ concat out_cut = []
      /\ concat out_whole = [[233%N]]
      /\ buf sk_cut = [].
Proof.
  split; [reflexivity|].
  do 4 eexists.
  split; [vm_compute; reflexivity|]. split; [vm_compute; reflexivity|].
  repeat split.
Qed.

(** * Further properties *)

(** ** Further properties of the frame parser and the queue *)

Lemma parse_buf_leaves_tail (sk : Sock) :
  buf (snd (parse_buf sk)) = leftover (buf sk).
Proof.
  rewrite parse_buf_spec. cbn [snd].
  destruct (fst (split_lines [] (buf sk))) eqn:F; cbn [is_empty].
  - symmetry. apply leftover_untouched. exact F.
  - reflexivity.
Qed.

(** X1.  Lines put together and parsed come back: for segments and a tail
    that do not contain the delimiter, [parse_buf] on the segments, each
    followed by the delimiter, and then the tail returns the non-empty
    segments in order and leaves the tail as the buffer. *)
Theorem parse_buf_of_join (segs : list ustr) (tl : ustr) (sk : Sock) :
  Forall delim_free segs -> delim_free tl ->
  parse_buf (set_buf (join segs tl) sk)
  = (Ret (filter nonempty segs), set_buf tl sk).
Proof.
  intros Hs Ht. rewrite parse_buf_spec. cbn [buf set_buf].
  unfold frames, leftover. rewrite (split_lines_of_join Hs Ht).
  cbn [fst snd]. destruct segs; reflexivity.
Qed.

(** X2.  Parsing twice gives nothing new: on the channel [parse_buf] has
    left, a second [parse_buf] returns no reply and changes nothing. *)
Theorem parse_buf_idempotent (sk : Sock) :
  parse_buf (snd (parse_buf sk)) = (Ret [], snd (parse_buf sk)).
Proof.
  destruct (split_lines_nil_free (buf sk)) as [_ Ht].
  rewrite (parse_buf_spec (snd (parse_buf sk))), parse_buf_leaves_tail.
  unfold frames, leftover.
  rewrite (split_lines_tail [] Ht). reflexivity.
Qed.

(** X3.  Parsing in two instalments is parsing at once, for every text:
    the replies of [parse_buf] on a buffer, followed by the replies of
    [parse_buf] after [more] was appended to what the first call left, are
    the replies of one [parse_buf] on the buffer with [more] appended, and
    the buffer left is the same. *)
Theorem parse_buf_in_instalments (more : ustr) (sk : Sock) :
  let sk1 := snd (parse_buf sk) in
  exists first second,
    fst (parse_buf sk) = Ret first
    /\ fst (parse_buf (set_buf (buf sk1 ++ more) sk1)) = Ret second
    /\ fst (parse_buf (set_buf (buf sk ++ more) sk)) = Ret (first ++ second)
    /\ buf (snd (parse_buf (set_buf (buf sk1 ++ more) sk1)))
       = buf (snd (parse_buf (set_buf (buf sk ++ more) sk))).
Proof.
  cbn zeta. exists (frames (buf sk)), (frames (leftover (buf sk) ++ more)).
  split; [rewrite parse_buf_spec; reflexivity|].
  split; [rewrite parse_buf_spec; cbn [fst buf set_buf];
          rewrite parse_buf_leaves_tail; reflexivity|].
  split; [rewrite parse_buf_spec; cbn [fst buf set_buf];
          rewrite frames_resume; reflexivity|].
  rewrite (parse_buf_leaves_tail (set_buf (buf sk ++ more) sk)).
  rewrite (parse_buf_leaves_tail (set_buf _ (snd (parse_buf sk)))).
  cbn [buf set_buf]. rewrite parse_buf_leaves_tail.
  symmetry. apply leftover_resume.
Qed.

Lemma pop_replies_step (n : nat) (sk : Sock) :
  pop_replies (S n) sk
  = match replies sk with
    | first :: rest =>
      match pop_replies n (set_replies rest sk) with
      | (Ret l, sk') => (Ret (Some first :: l), sk')
      | (Raise e, sk') => (Raise e, sk')
      | (OutOfFuel, sk') => (OutOfFuel, sk')
      end
    | [] =>
      match pop_replies n sk with
      | (Ret l, sk') => (Ret (None :: l), sk')
      | (Raise e, sk') => (Raise e, sk')
      | (OutOfFuel, sk') => (OutOfFuel, sk')
      end
    end.
Proof.
  cbn [pop_replies]. unfold bind at 1, pop_reply.
  destruct (replies sk); reflexivity.
Qed.

(** X4.  The queue is first in, first out: as many [pop_reply] calls as
    the queue is long return its messages oldest first and leave it empty,
    and every further call returns [None] and changes nothing; no call
    polls the transport. *)
Theorem pop_reply_drains (extra : nat) (sk : Sock) :
  pop_replies (length (replies sk) + extra) sk
  = (Ret (map Some (replies sk) ++ repeat None extra), set_replies [] sk).
Proof.
  remember (replies sk) as q eqn:Q.
  revert sk Q. induction q as [|m q IH]; intros sk Q.
  - cbn [length Nat.add map app].
    assert (E : set_replies [] sk = sk) by (destruct sk; cbn in *; subst; reflexivity).
    rewrite E. clear E.
    induction extra as [|k IHk]; [reflexivity|].
    rewrite pop_replies_step, <- Q, IHk. reflexivity.
  - cbn [length Nat.add]. rewrite pop_replies_step, <- Q.
    rewrite (IH (set_replies q sk) eq_refl). reflexivity.
Qed.

(** X5.  [__iter__] hands out only what the filter lets through and always
    clears the queue: when it returns, every message returned satisfies the
    reply filter, if one is set, and the queue is empty. *)
Theorem iter_filters_and_clears (fuel : nat) (sk : Sock) (out : list ustr) :
  fst (__iter__ fuel sk) = Ret out ->
  replies (snd (__iter__ fuel sk)) = []
  /\ forall keep, reply_filter sk = Some keep ->
                  Forall (fun m => keep m = true) out.
Proof.
  unfold __iter__, bind.
  destruct (update_inv fuel sk) as (C & _).
  destruct (update fuel sk) as [[[]|e|] sk1]; cbn [fst snd] in *;
    try discriminate.
  intros H. inversion H; subst. split; [reflexivity|].
  intros keep Hk. destruct C as (_ & _ & _ & _ & _ & _ & F).
  rewrite F, Hk. apply Forall_forall. intros m Hm.
  apply filter_In in Hm. apply Hm.
Qed.

(** ** Further properties of the receivers *)

Lemma recv_loop_inv (n : Z) (enc : encoding) (fuel : nat) :
  forall sk,
    same_config sk (snd (recv_loop fuel n enc sk))
    /\ replies (snd (recv_loop fuel n enc sk)) = replies sk
    /\ forall B, (n <= B)%Z -> (buf_len sk <= B)%Z ->
                 (buf_len (snd (recv_loop fuel n enc sk)) <= B)%Z.
Proof.
  induction fuel as [|fuel IH]; intros sk; cbn [recv_loop].
  - split; [apply same_config_refl|]. split; auto.
  - unfold bind.
    destruct (get_chunks_inv (S fuel) (Some n) enc sk) as (C & R & Hb & _).
    cbn [ceiling] in Hb.
    destruct (get_chunks (S fuel) (Some n) enc sk) as [[[]|e|] sk1];
      cbn [snd] in *; try (split; [exact C|split; [exact R|exact Hb]]).
    match goal with |- context [if ?c then _ else _] => destruct c end;
      cbn [snd]; [|split; [exact C|split; [exact R|exact Hb]]].
    destruct (IH sk1) as (C' & R' & Hb').
    split; [exact (same_config_trans C C')|]. split; [congruence|].
    intros B H1 H2. apply Hb'; auto.
Qed.

Lemma bytes_of_codes_length (m : ustr) (b : bytes) :
  bytes_of_codes m = Some b -> length b = length m.
Proof.
  revert b. induction m as [|c m IH]; intros b H; cbn [bytes_of_codes] in H.
  - inversion H. reflexivity.
  - destruct (Byte.of_N c); [|discriminate].
    destruct (bytes_of_codes m) as [bs|]; [|discriminate].
    inversion H. cbn [length]. rewrite (IH bs eq_refl). reflexivity.
Qed.

(** X6.  A fixed-size read does not disturb line buffering: whenever
    [recv(n)] returns, the buffer, the queue and the configuration are as
    they were before the call, and what it returns has at most [n]
    characters (none for [n <= 0]). *)
Theorem recv_on_return (fuel : nat) (n : Z) (enc : encoding) (t : option Z)
        (sk : Sock) (v : pydata) :
  fst (recv fuel n enc t sk) = Ret v ->
  buf (snd (recv fuel n enc t sk)) = buf sk
  /\ replies (snd (recv fuel n enc t sk)) = replies sk
  /\ same_config sk (snd (recv fuel n enc t sk))
  /\ (Z.of_nat (data_length v) <= Z.max 0 n)%Z.
Proof.
  destruct (recv fuel n enc t sk) as [o sk'] eqn:R. cbn [fst snd].
  intros ->. revert R.
  unfold recv, bind at 1.
  pose proof (update_timeout_steady t sk) as (C0 & B0 & R0 & _).
  destruct (update_timeout t sk) as [[[]|e|] sk0]; cbn [snd] in C0, B0, R0;
    [|discriminate|discriminate].
  unfold try_finally, try_except.
  destruct (connected sk0); cbn [negb].
  - unfold bind at 1, modify at 1. unfold bind at 1.
    destruct (recv_loop_inv n enc fuel (set_buf [] sk0)) as (C1 & R1 & Hb).
    specialize (Hb (Z.max 0 n)).
    destruct (recv_loop fuel n enc (set_buf [] sk0)) as [[[]|e|] sk1];
      cbn [snd] in C1, R1, Hb.
    + assert (Hlen : (Z.of_nat (length (buf sk1)) <= Z.max 0 n)%Z).
      { apply Hb; [lia | unfold buf_len; cbn; lia]. }
      unfold bind at 1, gets at 1. unfold bind at 1, modify at 1.
      set (sk2 := set_buf (buf sk0) sk1).
      pose proof (restore_blocking_steady sk2) as (C3 & B3 & R3 & _).
      assert (C2 : same_config sk sk2).
      { apply (same_config_trans C0). apply (same_config_trans C1).
        repeat split. }
      assert (B2 : buf sk2 = buf sk) by (rewrite <- B0; reflexivity).
      assert (R2 : replies sk2 = replies sk)
        by (rewrite <- R0; exact R1).
      destruct enc; [|destruct (bytes_of_codes (buf sk1)) as [b|] eqn:Bc];
        unfold ret, raise;
        try (destruct (restore_blocking sk2) as [[[]|e|] sk3];
             cbn [fst snd] in *; intros R; inversion R; subst;
             split; [congruence|]; split; [congruence|];
             split; [exact (same_config_trans C2 C3)|];
             cbn [data_length]; rewrite ?(bytes_of_codes_length _ Bc);
             exact Hlen).
      unfold bind, log_exception, close, modify, ret.
      rewrite restore_blocking_torn by reflexivity. discriminate.
    + unfold bind, log_exception, close, modify, ret.
      rewrite restore_blocking_torn by reflexivity. discriminate.
    + discriminate.
  - pose proof (restore_blocking_steady sk0) as (C3 & B3 & R3 & _).
    destruct (restore_blocking sk0) as [[[]|e|] sk3];
      cbn [fst snd] in *; intros R; inversion R; subst.
    split; [congruence|]. split; [congruence|].
    split; [exact (same_config_trans C0 C3)|].
    destruct enc; cbn; lia.
Qed.

(** X7.  A line read does not disturb line buffering either: whenever
    [recv_line] returns, the buffer is the one it found; and on a
    non-blocking channel the line it returns is empty. *)
Theorem recv_line_on_return (fuel : nat) (t : option Z) (sk : Sock)
        (v : ustr) :
  fst (recv_line fuel t sk) = Ret v ->
  buf (snd (recv_line fuel t sk)) = buf sk
  /\ (blocking sk = false -> v = []).
Proof.
  intros H. split; [|intros Hb; exact (recv_line_nonblocking _ _ _ Hb H)].
  revert H. destruct (recv_line fuel t sk) as [o sk'] eqn:R. cbn [fst snd].
  intros ->. revert R.
  unfold recv_line, bind at 1.
  pose proof (update_timeout_steady t sk) as (_ & B0 & _).
  destruct (update_timeout t sk) as [[[]|e|] sk0]; cbn [snd] in B0;
    [|discriminate|discriminate].
  unfold try_finally.
  match goal with |- context [let (r, sk1) := ?body (set_buf [] sk0) in _] =>
    destruct (body (set_buf [] sk0)) as [[a|e|] sk2] end;
    [| |discriminate].
  - unfold bind, modify.
    destruct (restore_blocking sk2) as [[[]|e|] sk3];
      intros R; inversion R; subst. cbn [buf set_buf]. exact B0.
  - unfold bind, modify.
    destruct (restore_blocking sk2) as [[[]|e'|] sk3];
      intros R; inversion R.
Qed.

(** ** Closed and never-connected channels *)

Lemma update_timeout_torn (t : option Z) (sk : Sock) :
  s sk = None ->
  update_timeout t sk = (Raise AttributeError, sk)
  \/ update_timeout t sk = (Ret tt, sk).
Proof.
  intros H. unfold update_timeout, set_blocking. rewrite H.
  destruct (blocking sk && is_some t); auto.
Qed.

Lemma send_body_torn (msg : pymsg) (send_all : bool) (sk0 : Sock) :
  torn_down sk0 ->
  (if negb (connected sk0) then (Ret O, sk0)
   else match to_bytes msg with
        | Some b => send_loop (S (length b)) b send_all 0 sk0
        | None => (Raise UnicodeError, sk0)
        end) = (Ret O, sk0).
Proof. intros [-> _]. reflexivity. Qed.

Lemma update_disconnected (fuel : nat) (sk : Sock) :
  connected sk = false ->
  update fuel sk
  = (Ret tt,
     set_replies (frames (buf sk))
                 (if is_empty (fst (split_lines [] (buf sk))) then sk
                  else set_buf (leftover (buf sk)) sk)).
Proof.
  intros H. unfold update, bind, get_chunks. rewrite H. cbn [negb].
  rewrite parse_buf_spec. reflexivity.
Qed.

Lemma time_time_keeps (sk : Sock) :
  exists t, fst (time_time sk) = Ret t
            /\ s (snd (time_time sk)) = s sk
            /\ connected (snd (time_time sk)) = connected sk
            /\ buf (snd (time_time sk)) = buf sk.
Proof.
  unfold time_time. destruct (clock (world sk)); eexists; repeat split.
Qed.

Lemma recv_line_torn (fuel : nat) (t : option Z) (sk : Sock) :
  torn_down sk ->
  exists sk', recv_line (S fuel) t sk = (Raise AttributeError, sk')
              /\ torn_down sk'.
Proof.
  intros Ht.
  assert (Hs : s sk = None) by apply Ht.
  assert (Hc : connected sk = false) by apply Ht.
  unfold recv_line, bind at 1.
  destruct (update_timeout_torn t sk Hs) as [-> | ->];
    [exists sk; split; [reflexivity | exact Ht]|].
  unfold try_finally, bind at 1.
  destruct (time_time_keeps (set_buf [] sk)) as (t0 & T & S1 & C1 & _).
  destruct (time_time (set_buf [] sk)) as [o sk1]. cbn [fst snd] in *.
  subst o. cbn [s connected set_buf] in S1, C1.
  rewrite Hs in S1. rewrite Hc in C1.
  destruct t as [d|].
  - unfold bind at 1. cbn [line_loop]. unfold bind at 1.
    rewrite (update_disconnected (S fuel) sk1 C1).
    set (sk2 := set_replies _ _).
    assert (C2 : connected sk2 = false).
    { subst sk2. destruct (is_empty _); exact C1. }
    assert (S2 : s sk2 = None).
    { subst sk2. destruct (is_empty _); exact S1. }
    rewrite C2. cbn [negb]. unfold bind at 1.
    rewrite (restore_blocking_torn sk2 S2).
    eexists; split; [reflexivity | split; assumption].
  - unfold raise, bind at 1.
    rewrite (restore_blocking_torn sk1 S1).
    eexists; split; [reflexivity | split; assumption].
Qed.

(** X8.  After [close] the four I/O methods do not degrade to a default:
    on a channel that was closed, [send], [send_line], [recv] and
    [recv_line] raise [AttributeError] for every argument, and the channel
    stays closed. *)
Theorem io_on_closed_channel (fuel : nat) (msg : pymsg) (send_all : bool)
        (n : Z) (enc : encoding) (t : option Z) (sk : Sock) :
  torn_down sk ->
  (fst (send msg send_all t sk) = Raise AttributeError
   /\ torn_down (snd (send msg send_all t sk)))
  /\ (fst (send_line msg t sk) = Raise AttributeError
      /\ torn_down (snd (send_line msg t sk)))
  /\ (fst (recv fuel n enc t sk) = Raise AttributeError
      /\ torn_down (snd (recv fuel n enc t sk)))
  /\ (fst (recv_line (S fuel) t sk) = Raise AttributeError
      /\ torn_down (snd (recv_line (S fuel) t sk))).
Proof.
  intros Ht.
  assert (Hs : s sk = None) by apply Ht.
  assert (Hc : connected sk = false) by apply Ht.
  split; [|split; [|split]].
  - unfold send, bind.
    destruct (update_timeout_torn t sk Hs) as [-> | ->];
      [split; [reflexivity | exact Ht]|].
    rewrite (@guarded_torn _ _ O O sk sk (send_body_torn msg send_all Ht) Hs).
    split; [reflexivity | exact Ht].
  - unfold send_line, bind.
    destruct (update_timeout_torn t sk Hs) as [-> | ->];
      [split; [reflexivity | exact Ht]|].
    rewrite (@guarded_torn _ _ O O sk sk); [|rewrite Hc; reflexivity|exact Hs].
    split; [reflexivity | exact Ht].
  - unfold recv, bind.
    destruct (update_timeout_torn t sk Hs) as [-> | ->];
      [split; [reflexivity | exact Ht]|].
    rewrite (@guarded_torn _ _ (empty_data enc) (empty_data enc) sk sk);
      [|rewrite Hc; reflexivity|exact Hs].
    split; [reflexivity | exact Ht].
  - destruct (recv_line_torn fuel t Ht) as (sk' & -> & T).
    split; [reflexivity | exact T].
Qed.

Lemma update_timeout_open (t : option Z) (sk : Sock) (sock : Socket) :
  s sk = Some sock ->
  exists sk0 sock0,
    update_timeout t sk = (Ret tt, sk0) /\ s sk0 = Some sock0
    /\ rx sock0 = rx sock /\ tx sock0 = tx sock /\ wire sock0 = wire sock
    /\ connected sk0 = connected sk /\ buf sk0 = buf sk
    /\ replies sk0 = replies sk /\ world sk0 = world sk.
Proof.
  intros Hs. unfold update_timeout.
  destruct (blocking sk && is_some t).
  - destruct (set_blocking_live true t sk Hs) as (sock' & -> & W & T & R).
    eexists. exists sock'. repeat split; auto.
  - exists sk, sock. repeat split; auto.
Qed.

Lemma restore_blocking_open (sk : Sock) (sock : Socket) :
  s sk = Some sock ->
  exists sk0 sock0,
    restore_blocking sk = (Ret tt, sk0) /\ s sk0 = Some sock0
    /\ rx sock0 = rx sock /\ tx sock0 = tx sock /\ wire sock0 = wire sock
    /\ connected sk0 = connected sk /\ buf sk0 = buf sk
    /\ replies sk0 = replies sk /\ world sk0 = world sk.
Proof.
  intros Hs. unfold restore_blocking.
  destruct (set_blocking_live (blocking sk) (timeout sk) sk Hs)
    as (sock' & -> & W & T & R).
  eexists. exists sock'. repeat split; auto.
Qed.

(** A guarded body that returns at once on a channel with its socket in
    place: the call returns that value and the socket was not used. *)
Lemma guarded_idle {A} (body : M A) (dflt a : A) (t : option Z) (sk : Sock)
      (sock : Socket) :
  s sk = Some sock ->
  (forall sk0, connected sk0 = connected sk -> body sk0 = (Ret a, sk0)) ->
  exists sk',
    (update_timeout t ;;;
     try_finally
       (try_except body (fun e => log_exception e ;;; close ;;; ret dflt))
       restore_blocking) sk = (Ret a, sk')
    /\ transport_idle sk sk' /\ connected sk' = connected sk
    /\ buf sk' = buf sk /\ replies sk' = replies sk
    /\ world sk' = world sk.
Proof.
  intros Hs Hbody.
  destruct (update_timeout_open t sk Hs)
    as (sk0 & sock0 & U & S0 & R0 & T0 & W0 & C0 & B0 & Q0 & D0).
  destruct (restore_blocking_open sk0 S0)
    as (sk1 & sock1 & F & S1 & R1 & T1 & W1 & C1 & B1 & Q1 & D1).
  exists sk1. unfold bind, try_finally, try_except.
  rewrite U, (Hbody sk0 C0), F.
  split; [reflexivity|]. unfold transport_idle. rewrite Hs, S1.
  repeat split; congruence.
Qed.

(** X9.  Before any connection was made the I/O methods degrade to their
    defaults: on a channel that holds its socket but is not connected,
    [send] and [send_line] return 0, [recv] returns the empty result, and
    the socket is neither written to nor read from. *)
Theorem io_before_connect (fuel : nat) (msg : pymsg) (send_all : bool)
        (n : Z) (enc : encoding) (t : option Z) (sk : Sock)
        (sock : Socket) :
  connected sk = false -> s sk = Some sock ->
  (fst (send msg send_all t sk) = Ret O
   /\ transport_idle sk (snd (send msg send_all t sk)))
  /\ (fst (send_line msg t sk) = Ret O
      /\ transport_idle sk (snd (send_line msg t sk)))
  /\ (fst (recv fuel n enc t sk) = Ret (empty_data enc)
      /\ transport_idle sk (snd (recv fuel n enc t sk))
      /\ buf (snd (recv fuel n enc t sk)) = buf sk).
Proof.
  intros Hc Hs. split; [|split].
  - destruct (@guarded_idle _
                (fun sk0 => if negb (connected sk0) then (Ret O, sk0)
                            else match to_bytes msg with
                                 | Some b => send_loop (S (length b)) b
                                                       send_all 0 sk0
                                 | None => (Raise UnicodeError, sk0)
                                 end) O O t sk sock Hs)
      as (sk' & E & I & _).
    { intros sk0 ->. rewrite Hc. reflexivity. }
    change (send msg send_all t sk = (Ret O, sk')) in E. rewrite E.
    split; [reflexivity | exact I].
  - destruct (@guarded_idle _
                (fun sk0 => if negb (connected sk0) then (Ret O, sk0)
                            else match to_bytes msg,
                                       encode_ascii (delimiter sk0) with
                                 | Some b, Some d =>
                                   send (Bytes (b ++ d)) true t sk0
                                 | _, _ => (Raise UnicodeError, sk0)
                                 end) O O t sk sock Hs)
      as (sk' & E & I & _).
    { intros sk0 ->. rewrite Hc. reflexivity. }
    change (send_line msg t sk = (Ret O, sk')) in E. rewrite E.
    split; [reflexivity | exact I].
  - destruct (@guarded_idle _
                (fun sk0 =>
                   if negb (connected sk0) then (Ret (empty_data enc), sk0)
                   else
                     let temp_buf := buf sk0 in
                     (modify (set_buf []) ;;;
                      recv_loop fuel n enc ;;;
                      ret0 <- gets buf ;;
                      modify (set_buf temp_buf) ;;;
                      match enc with
                      | Unicode => ret (Text ret0)
                      | Latin1 =>
                        match bytes_of_codes ret0 with
                        | Some b => ret (Data b)
                        | None => raise ValueError
                        end
                      end) sk0)
                (empty_data enc) (empty_data enc) t sk sock Hs)
      as (sk' & E & I & _ & B & _).
    { intros sk0 ->. rewrite Hc. reflexivity. }
    change (recv fuel n enc t sk = (Ret (empty_data enc), sk')) in E.
    rewrite E. split; [reflexivity|]. split; [exact I | exact B].
Qed.

(** X10.  A pass on a disconnected channel only parses: [update] returns
    normally for every step budget, the queue becomes the frames of the
    buffer, the buffer its unterminated tail, and neither the socket nor
    the clock, the error sink or the record of reads is touched. *)
Theorem update_when_disconnected (fuel : nat) (sk : Sock) :
  connected sk = false ->
  fst (update fuel sk) = Ret tt
  /\ replies (snd (update fuel sk)) = frames (buf sk)
  /\ buf (snd (update fuel sk)) = leftover (buf sk)
  /\ s (snd (update fuel sk)) = s sk
  /\ world (snd (update fuel sk)) = world sk
  /\ connected (snd (update fuel sk)) = false.
Proof.
  intros Hc. rewrite (update_disconnected fuel sk Hc). cbn [fst snd].
  split; [reflexivity|]. split; [reflexivity|].
  destruct (fst (split_lines [] (buf sk))) eqn:F; cbn [is_empty];
    repeat split; auto.
  cbn [buf set_replies]. symmetry. apply leftover_untouched. exact F.
Qed.

(** ** Further properties of the sender *)

(** X11.  Without full-send a non-blocking channel makes one attempt: when
    the kernel takes [n] octets at the next [send], [send] returns the
    smaller of [n] and the message length, exactly those octets were put on
    the wire with one [send] call of the transport, and the channel stays
    connected; the caller has to send the rest itself. *)
Theorem send_single_attempt (msg : pymsg) (b : bytes) (t : option Z)
        (sk : Sock) (sock : Socket) (n : nat) (rest : list tx_event) :
  live sk sock -> blocking sk = false -> to_bytes msg = Some b ->
  b <> [] -> tx sock = TxAccept n :: rest -> (0 < n)%nat ->
  exists sk' sock',
    send msg false t sk = (Ret (Nat.min n (length b)), sk')
    /\ live sk' sock'
    /\ wire sock' = wire sock ++ firstn n b
    /\ tx sock' = rest.
Proof.
  intros Hl Hb Hmsg Hne Htx Hn.
  assert (Hpos : (0 < length b)%nat) by (destruct b; [congruence|cbn; lia]).
  set (body := fun sk1 : Sock =>
                 if negb (connected sk1) then (Ret O, sk1)
                 else match to_bytes msg with
                      | Some b0 => send_loop (S (length b0)) b0 false 0 sk1
                      | None => (Raise UnicodeError, sk1)
                      end).
  assert (Hsend : send msg false t sk
                  = try_finally
                      (try_except body
                         (fun e => log_exception e ;;; close ;;; ret O))
                      restore_blocking sk).
  { unfold send, bind at 1, update_timeout. rewrite Hb. reflexivity. }
  set (sock1 := mkSocket (rx sock) rest (connect_error sock) (blk sock)
                         (tmo sock) (wire sock ++ firstn n b)).
  assert (Hbody : body sk
                  = (Ret (Nat.min n (length b)), set_s (Some sock1) sk)).
  { subst body. cbn beta. destruct Hl as [Hc Hs]. rewrite Hc, Hmsg.
    cbn [negb send_loop]. rewrite Hs. unfold sock_send. cbn [skipn].
    rewrite Htx.
    replace (Nat.min n (length b) =? 0)%nat with false
      by (symmetry; apply Nat.eqb_neq; lia).
    cbn [Nat.add blocking set_s]. rewrite Hb, orb_false_r, andb_false_r.
    reflexivity. }
  destruct (@guarded_live _ body O _ sk _ sock1 Hbody)
    as (sk' & sock' & G & L & W & T & _).
  { split; [apply Hl | reflexivity]. }
  exists sk', sock'. rewrite Hsend, G. repeat split; try apply L; auto.
Qed.

(** X12.  An empty message costs the connection: [send] of a message that
    encodes to no octets, on a connected channel, ends with the channel
    closed and [AttributeError] raised, whatever the transport does,
    because a [send] that takes 0 octets counts as a broken connection. *)
Theorem send_empty_closes (msg : pymsg) (send_all : bool) (t : option Z)
        (sk : Sock) (sock : Socket) :
  live sk sock -> to_bytes msg = Some [] ->
  fst (send msg send_all t sk) = Raise AttributeError
  /\ torn_down (snd (send msg send_all t sk)).
Proof.
  intros Hl Hmsg.
  destruct (update_timeout_live t Hl)
    as (sk0 & sock0 & U & [Hc0 Hs0] & _).
  set (body := fun sk1 : Sock =>
                 if negb (connected sk1) then (Ret O, sk1)
                 else match to_bytes msg with
                      | Some b0 => send_loop (S (length b0)) b0 send_all 0 sk1
                      | None => (Raise UnicodeError, sk1)
                      end).
  assert (Hsend : send msg send_all t sk
                  = try_finally
                      (try_except body
                         (fun e => log_exception e ;;; close ;;; ret O))
                      restore_blocking sk0).
  { unfold send. unfold bind at 1. rewrite U. reflexivity. }
  rewrite Hsend.
  assert (Hbody : (exists sk1, body sk0 = (Ret O, sk1) /\ torn_down sk1)
                  \/ (exists e sk1, body sk0 = (Raise e, sk1))).
  { subst body. cbn beta. rewrite Hc0, Hmsg. cbn [negb length send_loop].
    rewrite Hs0. unfold sock_send. cbn [skipn].
    destruct (tx sock0) as [|[n|e] rest].
    - left. eexists. split; [reflexivity | split; reflexivity].
    - left. rewrite Nat.min_0_r. eexists.
      split; [reflexivity | split; reflexivity].
    - right. eexists. eexists. reflexivity. }
  destruct Hbody as [(sk1 & E & T)|(e & sk1 & E)].
  - rewrite (@guarded_torn _ body O O sk0 sk1 E (proj2 T)).
    split; [reflexivity | exact T].
  - destruct (@guarded_raise _ body O e sk0 sk1 E) as (sk' & -> & T & _).
    split; [reflexivity | exact T].
Qed.

(** X13.  Sending never disturbs the receiving side: whatever happens to
    the connection, [send] and [send_line] leave the buffer, the queue, the
    limits, the delimiter, the reply filter and the blocking flag as they
    were, and make no [recv] call. *)
Theorem sending_leaves_receiver (msg : pymsg) (send_all : bool)
        (t : option Z) (sk : Sock) :
  steady sk (snd (send msg send_all t sk))
  /\ steady sk (snd (send_line msg t sk)).
Proof. split; [apply send_steady | apply send_line_steady]. Qed.

(** [send_line] on a live channel whose transport takes octets at every
    [send]. *)
Lemma send_line_accepted (msg : pymsg) (payload : bytes) (t : option Z)
      (sk : Sock) (sock : Socket) :
  live sk sock -> delimiter sk = CRLF -> to_bytes msg = Some payload ->
  Forall accepts (tx sock) ->
  exists sk' sock',
    send_line msg t sk = (Ret (length payload + 2)%nat, sk')
    /\ live sk' sock'
    /\ wire sock' = wire sock ++ payload ++ crlf.
Proof.
  intros Hl Hd Hmsg Hacc.
  destruct (update_timeout_live t Hl)
    as (sk0 & sock0 & U & Hl0 & W0 & T0 & B0 & D0).
  set (body := fun sk1 : Sock =>
                 if negb (connected sk1) then (Ret O, sk1)
                 else match to_bytes msg, encode_ascii (delimiter sk1) with
                      | Some b, Some d => send (Bytes (b ++ d)) true t sk1
                      | _, _ => (Raise UnicodeError, sk1)
                      end).
  assert (Hsend : send_line msg t sk
                  = try_finally
                      (try_except body
                         (fun e => log_exception e ;;; close ;;; ret O))
                      restore_blocking sk0).
  { unfold send_line. unfold bind at 1. rewrite U. reflexivity. }
  assert (Hbody : body sk0 = send (Bytes (payload ++ crlf)) true t sk0).
  { subst body. cbn beta. destruct Hl0 as [-> _]. rewrite Hmsg, D0, Hd.
    reflexivity. }
  destruct (@send_all_outcome (payload ++ crlf) t sk0 sock0 Hl0)
    as [(sk1 & sock1 & E & L1 & W1 & _)|(F & _)];
    [destruct payload; discriminate | | rewrite T0 in F; contradiction].
  rewrite <- Hbody in E.
  destruct (@guarded_live _ body O _ _ _ _ E L1)
    as (sk' & sock' & G & L' & W' & _).
  exists sk', sock'. rewrite Hsend, G, length_app.
  split; [reflexivity|]. split; [exact L'|].
  rewrite W', W1, W0. reflexivity.
Qed.

(** ** Further properties of the connection lifecycle *)

(** [connect] on a channel without socket, when the next socket the system
    hands out connects. *)
Lemma connect_fresh (a : string) (p : Z) (sk : Sock) (sock : Socket)
      (rest : list Socket) :
  s sk = None -> fresh_sockets (world sk) = sock :: rest ->
  connect_error sock = None ->
  exists sk' sock',
    connect (Some a) (Some p) sk = (Ret tt, sk')
    /\ live sk' sock'
    /\ rx sock' = rx sock /\ tx sock' = tx sock /\ wire sock' = wire sock
    /\ addr sk' = Some (Some a) /\ port sk' = Some (Some p)
    /\ fresh_sockets (world sk') = rest
    /\ buf sk' = buf sk /\ replies sk' = replies sk
    /\ blocking sk' = blocking sk.
Proof.
  intros Hs Hf He.
  unfold connect, bind, modify, try_except, sock_connect, new_socket,
    set_blocking.
  simpl. rewrite Hs, Hf. simpl. rewrite He. simpl.
  destruct (blocking sk) eqn:B; simpl; rewrite ?B; simpl;
    eexists; eexists; (split; [reflexivity|]); repeat split; auto.
Qed.

Lemma connect_fresh_refused (a : string) (p : Z) (sk : Sock) (sock : Socket)
      (rest : list Socket) (e : exn) :
  s sk = None -> fresh_sockets (world sk) = sock :: rest ->
  connect_error sock = Some e ->
  exists sk',
    connect (Some a) (Some p) sk = (Raise ConnectFailed, sk')
    /\ torn_down sk'
    /\ error_log (world sk') = error_log (world sk) ++ [e]
    /\ addr sk' = Some (Some a) /\ port sk' = Some (Some p)
    /\ buf sk' = buf sk /\ replies sk' = replies sk.
Proof.
  intros Hs Hf He.
  unfold connect, bind, modify, try_except, sock_connect, new_socket,
    close, log_exception, raise.
  simpl. rewrite Hs, Hf. simpl. rewrite He.
  eexists. split; [reflexivity|]. repeat split; auto.
Qed.

(** X14.  [close] and then [reconnect]: with an address and a port stored,
    [reconnect] on the closed channel takes a new socket and connects it.
    When the connection is made the channel is connected again, on the new
    socket, with its buffer and queue as before the [close]; when it is
    refused [reconnect] still returns normally, the channel is closed and
    the cause is recorded at the error sink. *)
Theorem reconnect_after_close (a : string) (p : Z) (sk : Sock)
        (sock : Socket) (rest : list Socket) :
  addr sk = Some (Some a) -> port sk = Some (Some p) ->
  fresh_sockets (world sk) = sock :: rest ->
  (connect_error sock = None ->
   exists sk' sock',
     reconnect (snd (close sk)) = (Ret tt, sk')
     /\ live sk' sock'
     /\ rx sock' = rx sock /\ tx sock' = tx sock /\ wire sock' = wire sock
     /\ buf sk' = buf sk /\ replies sk' = replies sk)
  /\ (forall e,
         connect_error sock = Some e ->
         exists sk',
           reconnect (snd (close sk)) = (Ret tt, sk')
           /\ torn_down sk'
           /\ error_log (world sk') = error_log (world sk) ++ [e]).
Proof.
  intros Ha Hp Hf.
  set (sk0 := snd (close sk)).
  assert (H0 : connected sk0 = false /\ s sk0 = None /\ addr sk0 = addr sk
               /\ port sk0 = port sk /\ world sk0 = world sk
               /\ buf sk0 = buf sk /\ replies sk0 = replies sk)
    by (repeat split).
  destruct H0 as (C0 & S0 & A0 & P0 & W0 & B0 & R0).
  assert (F0 : fresh_sockets (world sk0) = sock :: rest)
    by (rewrite W0; exact Hf).
  split.
  - intros He.
    destruct (connect_fresh a p sk0 S0 F0 He)
      as (sk' & sock' & E & L & Rx & Tx & Wi & _ & _ & _ & B & R & _).
    exists sk', sock'. unfold reconnect. rewrite C0, A0, Ha, P0, Hp, E.
    repeat split; try apply L; congruence.
  - intros e He.
    destruct (connect_fresh_refused a p sk0 S0 F0 He)
      as (sk' & E & T & L & _).
    exists (set_connected false sk').
    unfold reconnect. rewrite C0, A0, Ha, P0, Hp, E.
    split; [reflexivity|]. split; [split; [reflexivity | apply T]|].
    cbn [world set_connected]. rewrite L, W0. reflexivity.
Qed.

(** X15.  [set_sock] adopts a socket connected elsewhere: the socket the
    channel held is dropped, the new one keeps its traffic and is put in
    the channel's blocking mode, the buffer, the queue and the limits stay;
    the channel counts as connected, with the peer's address and port
    stored, exactly when the socket can name its peer. *)
Theorem set_sock_adopts (sock : Socket) (peername : option (string * Z))
        (sk : Sock) :
  exists sk' sock',
    set_sock (Some sock) peername sk = (Ret tt, sk')
    /\ s sk' = Some sock'
    /\ rx sock' = rx sock /\ tx sock' = tx sock /\ wire sock' = wire sock
    /\ (timeout sk <> Some 0%Z -> blk sock' = blocking sk)
    /\ steady sk sk'
    /\ connected sk' = is_some peername
    /\ match peername with
       | Some (a, p) => addr sk' = Some (Some a) /\ port sk' = Some (Some p)
       | None => addr sk' = addr sk /\ port sk' = port sk
       end.
Proof.
  unfold set_sock, bind, close, modify, set_blocking. simpl.
  destruct peername as [[a p]|]; simpl;
    eexists; eexists; (split; [reflexivity|]); simpl;
    (split; [reflexivity|]);
    (split; [destruct (blocking sk); [destruct (timeout sk)|]; reflexivity|]);
    (split; [destruct (blocking sk); [destruct (timeout sk)|]; reflexivity|]);
    (split; [destruct (blocking sk); [destruct (timeout sk)|]; reflexivity|]);
    (split;
     [intros Ht; destruct (blocking sk); [destruct (timeout sk) as [v|]|];
      try reflexivity; simpl;
      destruct (v =? 0)%Z eqn:V; [apply Z.eqb_eq in V; congruence|reflexivity]
     |]);
    repeat split.
Qed.

(** X16.  The constructor connects exactly when it is given both an address
    and a port, and lets a failed connection out as [ConnectFailed]: without
    one of them the new channel is not connected and has assigned neither
    [addr] nor [port]; with both it is connected when the peer accepts and
    raises, the half-built channel closed, when the peer refuses; and when
    no socket can be made the error of the system comes out.  In every
    case the channel starts with an empty buffer, an empty queue and the
    default limits. *)
Theorem init_outcome (a : option string) (p : option Z) (blocking0 : bool)
        (timeout0 : option Z) (interface0 : string) (use_ssl0 : bool)
        (w : World) :
  let r := __init__ a p blocking0 timeout0 interface0 use_ssl0 w in
  (fresh_sockets w = [] -> fst r = Raise (SocketError EMFILE))
  /\ (fresh_sockets w <> [] -> a = None \/ p = None ->
      fst r = Ret tt /\ connected (snd r) = false
      /\ addr (snd r) = None /\ port (snd r) = None /\ s (snd r) <> None)
  /\ (forall a' p' sock rest,
         a = Some a' -> p = Some p' -> fresh_sockets w = sock :: rest ->
         (connect_error sock = None ->
          fst r = Ret tt /\ connected (snd r) = true
          /\ addr (snd r) = Some (Some a') /\ port (snd r) = Some (Some p'))
         /\ (connect_error sock <> None ->
             fst r = Raise ConnectFailed /\ torn_down (snd r)))
  /\ (buf (snd r) = [] /\ replies (snd r) = []
      /\ blocking (snd r) = blocking0
      /\ max_buf (snd r) = 1048576%Z /\ max_chunks (snd r) = 1024%Z
      /\ chunk_size (snd r) = 102400%Z /\ delimiter (snd r) = CRLF).
Proof.
  cbn zeta.
  unfold __init__, connect, try_except, sock_connect, set_blocking, close,
    log_exception, new_socket, time_time, modify, ret, raise, bind.
  simpl.
  destruct (fresh_sockets w) as [|sock rest] eqn:F; simpl.
  { repeat split; try congruence. }
  destruct (clock w) as [|t0 ts]; simpl;
    (destruct a as [a0|]; [destruct p as [p0|]|]; simpl;
     [destruct (connect_error sock) as [e|] eqn:E; simpl;
      [|destruct blocking0; simpl]|..]);
    (split; [discriminate|]);
    (split; [intros _ [H|H]; try discriminate; repeat split; discriminate|]);
    (split; [|repeat split]);
    intros a' p' sock' rest' Ha Hp Hf; try discriminate;
    inversion Ha; inversion Hp; inversion Hf; subst;
    (split; intros He);
    try congruence; try (rewrite E in He; discriminate);
    repeat split.
Qed.

(** ** Further properties of the chunk reader *)

(** X17.  A reading that shows the connection gone (the peer's orderly
    close, an SSL error other than want-read, a socket error other than
    the would-block and [ETIMEDOUT]) ends the fetch quietly, for every
    limit and encoding: [get_chunks] returns normally, the channel is
    closed, the buffer and the queue keep what they held and nothing
    reaches the error sink. *)
Theorem fetch_gives_up (fuel : nat) (fixed_limit : option Z)
        (enc : encoding) (sk : Sock) (sock : Socket) (ev : rx_event)
        (rest : list rx_event) :
  live sk sock -> rx sock = ev :: rest -> fatal ev ->
  (buf_len sk < ceiling fixed_limit sk)%Z ->
  (0 < chunk_cap fixed_limit sk)%Z \/ blocking sk = true ->
  (0 <= chunk_size sk)%Z ->
  exists sk',
    get_chunks (S fuel) fixed_limit enc sk = (Ret tt, sk')
    /\ torn_down sk'
    /\ buf sk' = buf sk /\ replies sk' = replies sk
    /\ error_log (world sk') = error_log (world sk).
Proof.
  intros Hl Hrx Hf Hb Hcap Hcs.
  exact (@fetch_fatal fuel fixed_limit enc sk sock ev rest Hl Hrx Hf Hb Hcap
                      Hcs).
Qed.

Lemma blocking_fetch_spins (fuel : nat) :
  forall cn sk,
    blocking sk = true -> (max_buf sk <= buf_len sk)%Z ->
    contains (delimiter sk) (buf sk) = false ->
    repeat_chunks fuel None Unicode (max_buf sk) (max_chunks sk) cn sk
    = (OutOfFuel, sk).
Proof.
  induction fuel as [|fuel IH]; intros cn sk Hb Hfull Hd; [reflexivity|].
  cbn [repeat_chunks recv_chunks].
  unfold buf_len in Hfull.
  replace (Z.of_nat (length (buf sk)) >=? max_buf sk)%Z with true
    by (symmetry; rewrite Z.geb_leb; apply Z.leb_le; exact Hfull).
  cbn [negb]. rewrite Hb, Hd. cbn. apply IH; assumption.
Qed.

(** X18.  A blocking channel whose buffer has reached [max_buf] without
    holding a delimiter is stuck: [get_chunks] makes no further read and
    finds no reason to stop, so neither it nor [update], [__len__] and
    [__iter__] return, whatever the number of passes allowed. *)
Theorem blocking_fetch_never_returns (fuel : nat) (sk : Sock) :
  connected sk = true -> blocking sk = true ->
  (max_buf sk <= buf_len sk)%Z ->
  contains (delimiter sk) (buf sk) = false ->
  get_chunks fuel None Unicode sk = (OutOfFuel, sk)
  /\ update fuel sk = (OutOfFuel, sk)
  /\ __len__ fuel sk = (OutOfFuel, sk)
  /\ __iter__ fuel sk = (OutOfFuel, sk).
Proof.
  intros Hc Hb Hfull Hd.
  assert (G : get_chunks fuel None Unicode sk = (OutOfFuel, sk)).
  { unfold get_chunks. rewrite Hc. cbn [negb].
    apply blocking_fetch_spins; assumption. }
  assert (U : update fuel sk = (OutOfFuel, sk)).
  { unfold update. unfold bind at 1. rewrite G. reflexivity. }
  repeat split; auto.
  - unfold __len__, bind. rewrite U. reflexivity.
  - unfold __iter__, bind. rewrite U. reflexivity.
Qed.

(** ** The liveness probe *)


Lemma same_clock_trans (a b c : Sock) :
  same_clock a b -> same_clock b c -> same_clock a c.
Proof. unfold same_clock. intuition congruence. Qed.











(** ** From one channel to another *)

Lemma encode_ascii_ord (m : ustr) (b : bytes) :
  encode_ascii m = Some b -> map ord b = m /\ Forall ascii_byte b.
Proof.
  revert b. induction m as [|c m IH]; intros b H; cbn [encode_ascii] in H.
  - inversion H. split; [reflexivity | constructor].
  - destruct (c <? 128)%N eqn:C; [|discriminate].
    destruct (Byte.of_N c) as [b0|] eqn:B; [|discriminate].
    destruct (encode_ascii m) as [bs|]; [|discriminate].
    inversion H; subst b. destruct (IH bs eq_refl) as [M F].
    apply Byte.to_of_N in B. apply N.ltb_lt in C. split.
    + cbn [map]. unfold ord at 1. rewrite B, M. reflexivity.
    + constructor; [|exact F]. unfold ascii_byte, ord. rewrite B. exact C.
Qed.

(** X20.  A line that [send_line] sends arrives as one reply.  The sender
    puts the ASCII encoding of the message and the delimiter on the wire;
    a calm receiving channel with an empty buffer, to which exactly these
    octets are on the way (in whatever arrivals the transport cuts them),
    hands the message out once, unchanged, over enough calls of [update],
    and ends with an empty buffer.  The message is not empty and holds no
    delimiter. *)
Theorem line_round_trip (m : ustr) (payload : bytes) (t : option Z)
        (sk : Sock) (sock : Socket) (rk : Sock) (n fuel : nat) :
  live sk sock -> delimiter sk = CRLF -> Forall accepts (tx sock) ->
  encode_ascii m = Some payload -> m <> [] -> delim_free m ->
  calm rk -> buf rk = [] -> pending rk = payload ++ crlf ->
  (Z.of_nat (length (pending rk)) <= max_buf rk)%Z ->
  (0 < max_chunks rk)%Z ->
  (length (pending rk) < fuel)%nat -> (backlog rk <= n)%nat ->
  (exists sk' sock',
      send_line (Str m) t sk = (Ret (length m + 2)%nat, sk')
      /\ live sk' sock'
      /\ wire sock' = wire sock ++ pending rk)
  /\ (exists out rk',
         poll n fuel rk = (Ret out, rk')
         /\ concat out = [m]
         /\ buf rk' = [] /\ pending rk' = []).
Proof.
  intros Hl Hd Hacc Henc Hne Hfree Hcalm Hbuf Hpend Hmax Hmc Hfuel Hn.
  destruct (encode_ascii_ord m Henc) as [Hord Hascii].
  split.
  - destruct (@send_line_accepted (Str m) payload t sk sock Hl Hd Henc Hacc)
      as (sk' & sock' & E & L' & W').
    exists sk', sock'. rewrite E, W', Hpend.
    rewrite (encode_ascii_length m Henc). repeat split; apply L'.
  - assert (Hdf : delim_free (buf rk)) by (rewrite Hbuf; reflexivity).
    destruct (@calm_poll fuel n rk Hcalm Hdf Hfuel)
      as (out & rk' & got & P & _ & _ & G & O & B & D).
    assert (Hempty : pending rk' = []).
    { apply (@backlog_drained n rk rk'); [|exact Hn].
      apply D; [|exact Hmc]. rewrite Hbuf. exact Hmax. }
    rewrite Hempty in G. cbn [map] in G. rewrite app_nil_r in G.
    assert (Hgot : got = join [m] []).
    { rewrite <- G, Hpend, map_app, Hord. reflexivity. }
    assert (S : split_lines [] (join [m] []) = ([m], [])).
    { apply split_lines_of_join; [|reflexivity].
      constructor; [exact Hfree | constructor]. }
    exists out, rk'. split; [exact P|].
    rewrite Hbuf in O, B. cbn [app] in O, B. rewrite Hgot in O, B.
    unfold frames in O. unfold leftover in B. rewrite S in O, B.
    cbn [fst snd filter] in O, B.
    replace (nonempty m) with true in O
      by (destruct m; [contradiction | reflexivity]).
    repeat split; assumption.
Qed.

(** ** Blocking reads *)

Lemma sock_recv_whole (n : Z) (sock : Socket) (c : bytes)
      (rest : list rx_event) :
  rx sock = RxData c :: rest -> (Z.of_nat (length c) <= n)%Z ->
  sock_recv n sock
  = (Got c,
     mkSocket rest (tx sock) (connect_error sock) (blk sock) (tmo sock)
              (wire sock)).
Proof.
  intros Hrx Hn. unfold sock_recv.
  replace (n <? 0)%Z with false by (symmetry; apply Z.ltb_ge; lia).
  rewrite Hrx.
  assert (K : (length c <= Z.to_nat n)%nat) by lia.
  rewrite (firstn_all2 _ K).
  replace (length c <=? Z.to_nat n)%nat with true
    by (symmetry; apply Nat.leb_le; exact K).
  reflexivity.
Qed.

(** One pass of the inner loop on a blocking channel that has a whole
    chunk of ASCII ready. *)
Lemma blocking_read_one (fuel : nat) (mb mc cn : Z) (sk : Sock)
      (sock : Socket) (c : bytes) (rest : list rx_event) :
  s sk = Some sock -> blocking sk = true -> rx sock = RxData c :: rest ->
  c <> [] -> Forall ascii_byte c ->
  (Z.of_nat (length c) <= chunk_size sk)%Z ->
  (buf_len sk + Z.of_nat (length c) <= mb)%Z ->
  recv_chunks (S fuel) Unicode mb mc (chunk_size sk) cn sk
  = (Ret (Break true cn),
     set_buf (buf sk ++ map ord c)
             (note_recv (Got c)
                (set_s (Some (mkSocket rest (tx sock) (connect_error sock)
                                       (blk sock) (tmo sock) (wire sock)))
                       sk))).
Proof.
  intros Hs Hb Hrx Hne Hascii Hcs Hroom. unfold buf_len in Hroom.
  assert (Hlen : (0 < length c)%nat) by (destruct c; [contradiction|cbn; lia]).
  cbn [recv_chunks].
  replace (Z.of_nat (length (buf sk)) >=? mb)%Z with false
    by (symmetry; rewrite Z.geb_leb; apply Z.leb_gt; lia).
  rewrite Hb. cbn [negb]. rewrite andb_false_r, Hs.
  rewrite (@sock_recv_whole _ sock c rest Hrx)
    by (destruct (_ <? _)%Z; lia).
  replace (is_empty c) with false by (destruct c; [contradiction|reflexivity]).
  cbn [decode]. rewrite (decode_utf8_ascii Hascii).
  cbn [blocking set_buf note_recv set_world set_s]. rewrite Hb.
  reflexivity.
Qed.

(** The chunks of a well-behaved blocking read: none is empty, each fits in
    one [recv] of [chunk_size] octets, all are ASCII. *)
Lemma blocking_fetch (mb mc : Z) (rest : list rx_event)
      (chunks : list bytes) :
  forall (fuel : nat) (cn : Z) (sk : Sock) (sock : Socket),
    live sk sock -> blocking sk = true -> delimiter sk = CRLF ->
    rx sock = map RxData chunks ++ rest -> chunks <> [] ->
    Forall (fun c => c <> [] /\ Forall ascii_byte c
                     /\ (Z.of_nat (length c) <= chunk_size sk)%Z) chunks ->
    (buf_len sk + Z.of_nat (length (concat chunks)) <= mb)%Z ->
    delim_free (buf sk ++ map ord (concat (removelast chunks))) ->
    contains CRLF (buf sk ++ map ord (concat chunks)) = true ->
    (length chunks <= fuel)%nat ->
    exists sk' sock',
      repeat_chunks fuel None Unicode mb mc cn sk = (Ret tt, sk')
      /\ live sk' sock'
      /\ rx sock' = rest /\ tx sock' = tx sock /\ wire sock' = wire sock
      /\ buf sk' = buf sk ++ map ord (concat chunks)
      /\ replies sk' = replies sk
      /\ same_config sk sk' /\ same_clock sk sk'.
Proof.
  induction chunks as [|c cs IH];
    intros fuel cn sk sock [Hc Hs] Hb Hd Hrx Hne Hall Hroom Hfree Hfull Hfuel;
    [contradiction|].
  destruct fuel as [|fuel]; [cbn in Hfuel; lia|].
  inversion Hall as [|c0 cs0 (Hc1 & Hc2 & Hc3) Hall']; subst c0 cs0.
  cbn [concat] in Hroom, Hfull. rewrite length_app in Hroom.
  cbn [map app] in Hrx.
  assert (R : (buf_len sk + Z.of_nat (length c) <= mb)%Z) by lia.
  cbn [repeat_chunks].
  rewrite (@blocking_read_one fuel mb mc cn sk sock c
             (map RxData cs ++ rest) Hs Hb Hrx Hc1 Hc2 Hc3 R).
  set (sock1 := mkSocket (map RxData cs ++ rest) (tx sock)
                         (connect_error sock) (blk sock) (tmo sock)
                         (wire sock)).
  set (sk1 := set_buf (buf sk ++ map ord c)
                      (note_recv (Got c) (set_s (Some sock1) sk))).
  cbn [negb].
  replace (blocking sk1) with true by (symmetry; exact Hb).
  replace (delimiter sk1) with CRLF by (symmetry; exact Hd).
  replace (buf sk1) with (buf sk ++ map ord c) by reflexivity.
  cbn [is_some negb is_unicode andb].
  destruct cs as [|c' cs'].
  - cbn [concat] in Hfull. rewrite app_nil_r in Hfull. rewrite Hfull.
    cbn [negb]. exists sk1, sock1.
    cbn [concat]. rewrite app_nil_r.
    repeat split; auto.
  - assert (Hpart : contains CRLF (buf sk ++ map ord c) = false).
    { change (removelast (c :: c' :: cs'))
        with (c :: removelast (c' :: cs')) in Hfree.
      cbn [concat] in Hfree. rewrite map_app, app_assoc in Hfree.
      apply (contains_app_false _ _ Hfree). }
    rewrite Hpart. cbn [negb].
    assert (L1 : live sk1 sock1) by (split; [exact Hc | reflexivity]).
    destruct (IH fuel cn sk1 sock1 L1 Hb Hd eq_refl) as
        (sk' & sock' & E & L' & Rx & Tx & Wi & B & Q & C & K).
    + discriminate.
    + exact Hall'.
    + unfold buf_len. replace (buf sk1) with (buf sk ++ map ord c)
        by reflexivity.
      rewrite length_app, length_map. unfold buf_len in Hroom. lia.
    + replace (buf sk1) with (buf sk ++ map ord c) by reflexivity.
      change (removelast (c :: c' :: cs'))
        with (c :: removelast (c' :: cs')) in Hfree.
      cbn [concat] in Hfree. rewrite map_app, app_assoc in Hfree.
      exact Hfree.
    + replace (buf sk1) with (buf sk ++ map ord c) by reflexivity.
      rewrite map_app, app_assoc in Hfull. exact Hfull.
    + cbn [length] in Hfuel |- *. lia.
    + exists sk', sock'. rewrite E. split; [reflexivity|].
      split; [exact L'|]. split; [exact Rx|].
      split; [exact Tx|]. split; [exact Wi|].
      split.
      { rewrite B. change (buf sk1) with (buf sk ++ map ord c).
        change (concat (c :: c' :: cs')) with (c ++ concat (c' :: cs')).
        rewrite map_app, app_assoc. reflexivity. }
      split; [exact Q|].
      split.
      { apply same_config_trans with (b := sk1); [repeat split | exact C]. }
      { apply same_clock_trans with (b := sk1); [repeat split | exact K]. }
Qed.

(** A blocking [update] over such chunks. *)
Lemma blocking_update (fuel : nat) (sk : Sock) (sock : Socket)
      (chunks : list bytes) (rest : list rx_event) :
  live sk sock -> blocking sk = true -> delimiter sk = CRLF ->
  rx sock = map RxData chunks ++ rest -> chunks <> [] ->
  Forall (fun c => c <> [] /\ Forall ascii_byte c
                   /\ (Z.of_nat (length c) <= chunk_size sk)%Z) chunks ->
  (buf_len sk + Z.of_nat (length (concat chunks)) <= max_buf sk)%Z ->
  delim_free (buf sk ++ map ord (concat (removelast chunks))) ->
  contains CRLF (buf sk ++ map ord (concat chunks)) = true ->
  (length chunks <= fuel)%nat ->
  exists sk' sock',
    update fuel sk = (Ret tt, sk')
    /\ live sk' sock'
    /\ rx sock' = rest
    /\ replies sk' = frames (buf sk ++ map ord (concat chunks))
    /\ buf sk' = leftover (buf sk ++ map ord (concat chunks))
    /\ same_config sk sk'.
Proof.
  intros Hl Hb Hd Hrx Hne Hall Hroom Hfree Hfull Hfuel.
  destruct (@blocking_fetch (max_buf sk) (max_chunks sk) rest chunks fuel 0
                            sk sock Hl Hb Hd Hrx Hne Hall Hroom Hfree Hfull
                            Hfuel)
    as (sk1 & sock1 & E & [C1 S1] & Rx & _ & _ & B & _ & Cf & _).
  assert (G : get_chunks fuel None Unicode sk = (Ret tt, sk1)).
  { unfold get_chunks. destruct Hl as [-> _]. exact E. }
  destruct (parse_buf_shrinks sk1) as (Cp & _ & _ & S2 & C2).
  pose proof (parse_buf_leaves_tail sk1) as T.
  exists (set_replies (frames (buf sk1)) (snd (parse_buf sk1))), sock1.
  split.
  - unfold update. unfold bind at 1. rewrite G.
    unfold bind. rewrite parse_buf_spec. reflexivity.
  - rewrite <- B.
    split; [split; cbn [set_replies connected s]; congruence|].
    split; [exact Rx|]. split; [reflexivity|]. split; [exact T|].
    apply same_config_trans with (b := sk1); [exact Cf|].
    apply same_config_trans with (b := snd (parse_buf sk1));
      [exact Cp | repeat split].
Qed.

(** X21.  A blocking [update] reads until a line is complete.  The chunks
    the peer has ready are ASCII, none empty, each small enough for one
    [recv], and there is room for them under [max_buf]; the buffer holds a
    delimiter only once the last of them is in.  Then [update] reads
    exactly these chunks, leaves what comes after them unread in the
    transport, and the queue and the buffer are the complete lines and the
    unfinished rest of what the buffer held with the chunks appended. *)
Theorem blocking_update_reads_to_line (fuel : nat) (sk : Sock)
        (sock : Socket) (chunks : list bytes) (rest : list rx_event) :
  live sk sock -> blocking sk = true -> delimiter sk = CRLF ->
  rx sock = map RxData chunks ++ rest -> chunks <> [] ->
  Forall (fun c => c <> [] /\ Forall ascii_byte c
                   /\ (Z.of_nat (length c) <= chunk_size sk)%Z) chunks ->
  (buf_len sk + Z.of_nat (length (concat chunks)) <= max_buf sk)%Z ->
  delim_free (buf sk ++ map ord (concat (removelast chunks))) ->
  contains CRLF (buf sk ++ map ord (concat chunks)) = true ->
  (length chunks <= fuel)%nat ->
  exists sk' sock',
    update fuel sk = (Ret tt, sk')
    /\ live sk' sock'
    /\ rx sock' = rest
    /\ replies sk' = frames (buf sk ++ map ord (concat chunks))
    /\ buf sk' = leftover (buf sk ++ map ord (concat chunks)).
Proof.
  intros Hl Hb Hd Hrx Hne Hall Hroom Hfree Hfull Hfuel.
  destruct (@blocking_update fuel sk sock chunks rest Hl Hb Hd Hrx Hne Hall
                             Hroom Hfree Hfull Hfuel)
    as (sk' & sock' & E & L & Rx & Q & B & _).
  exists sk', sock'. auto.
Qed.

Lemma concat_removelast (chunks : list bytes) :
  chunks <> [] ->
  concat chunks = concat (removelast chunks) ++ last chunks [].
Proof.
  intros H. rewrite (app_removelast_last [] H) at 1.
  rewrite concat_app. cbn [concat]. rewrite app_nil_r. reflexivity.
Qed.

Lemma last_in_Forall {A} (P : A -> Prop) (l : list A) (d : A) :
  l <> [] -> Forall P l -> P (last l d).
Proof.
  intros H F. rewrite (app_removelast_last d H) in F.
  apply Forall_app in F as [_ F]. inversion F. assumption.
Qed.

(** X22.  A blocking [recv_line] returns the line.  A message that is not
    empty and holds no delimiter comes in, its delimiter behind it, as
    ASCII chunks cut in any way (none empty, each small enough for one
    [recv], the whole within [max_buf]).  [recv_line] reads exactly these
    chunks and returns the message without the delimiter; what the peer
    sent after it stays unread, the buffer of the channel is what it was
    before the call and the queue is empty. *)
Theorem recv_line_blocking_returns_line (fuel : nat) (d : Z) (sk : Sock)
        (sock : Socket) (chunks : list bytes) (rest : list rx_event)
        (m : ustr) :
  live sk sock -> blocking sk = true -> delimiter sk = CRLF ->
  rx sock = map RxData chunks ++ rest ->
  Forall (fun c => c <> [] /\ Forall ascii_byte c
                   /\ (Z.of_nat (length c) <= chunk_size sk)%Z) chunks ->
  map ord (concat chunks) = m ++ CRLF -> m <> [] -> delim_free m ->
  (Z.of_nat (length m) + 2 <= max_buf sk)%Z ->
  (length chunks <= fuel)%nat ->
  exists sk' sock',
    recv_line (S fuel) (Some d) sk = (Ret m, sk')
    /\ live sk' sock'
    /\ rx sock' = rest
    /\ buf sk' = buf sk /\ replies sk' = [].
Proof.
  intros [Hc Hs] Hb Hd Hrx Hall Hm Hne Hfree Hmax Hfuel.
  assert (Hchunks : chunks <> []).
  { intros ->. cbn in Hm. destruct m; discriminate. }
  (* the timeout update *)
  set (sock0 := sock_settimeout d (sock_setblocking true sock)).
  set (sk0 := set_blocking_flag true (set_s (Some sock0) sk)).
  assert (U : update_timeout (Some d) sk = (Ret tt, sk0)).
  { unfold update_timeout, set_blocking. rewrite Hb, Hs. reflexivity. }
  set (skb := set_buf [] sk0).
  (* the clock reading *)
  destruct (time_time_keeps skb) as (t0 & T0 & Ts & Tc & Tb).
  pose proof (time_time_steady skb) as (Tcf & _).
  destruct (time_time skb) as [o skt] eqn:Tq. cbn [fst snd] in *. subst o.
  destruct Tcf as (F1 & F2 & F3 & F4 & F5 & F6 & F7).
  (* the one pass of the loop *)
  assert (Lt : live skt sock0) by (split; [rewrite Tc | rewrite Ts]; auto).
  assert (Hbt : blocking skt = true) by (rewrite F1; reflexivity).
  assert (Hdt : delimiter skt = CRLF) by (rewrite F5; exact Hd).
  assert (Hallt : Forall (fun c => c <> [] /\ Forall ascii_byte c
                            /\ (Z.of_nat (length c) <= chunk_size skt)%Z)
                         chunks).
  { rewrite F4. exact Hall. }
  assert (Hlen : length (concat chunks) = (length m + 2)%nat).
  { rewrite <- (length_map ord), Hm, length_app. reflexivity. }
  assert (Hroom : (buf_len skt + Z.of_nat (length (concat chunks))
                   <= max_buf skt)%Z).
  { unfold buf_len. rewrite Tb, F2, Hlen.
    change (max_buf skb) with (max_buf sk).
    change (buf skb) with (@nil char). cbn [length]. lia. }
  assert (Hpre : delim_free (buf skt
                             ++ map ord (concat (removelast chunks)))).
  { rewrite Tb. change (buf skb) with (@nil char). cbn [app].
    pose proof Hm as Hm'.
    rewrite (concat_removelast Hchunks), map_app in Hm'.
    apply (@proper_prefix_free m _ _ Hfree (eq_sym Hm')).
    pose proof (@last_in_Forall _ _ chunks [] Hchunks Hall) as (L & _).
    destruct (last chunks []); [contradiction | discriminate]. }
  assert (Hfull : contains CRLF (buf skt ++ map ord (concat chunks)) = true).
  { rewrite Tb. change (buf skb) with (@nil char). cbn [app]. rewrite Hm.
    clear - m. induction m as [|c m IH]; [reflexivity|].
    cbn [app]. rewrite contains_CRLF_cons.
    destruct (m ++ CRLF); [cbn in IH; discriminate|].
    rewrite IH. apply orb_true_r. }
  assert (Hfuel' : (length chunks <= S fuel)%nat) by lia.
  destruct (@blocking_update (S fuel) skt sock0 chunks rest Lt Hbt Hdt Hrx
                             Hchunks Hallt Hroom Hpre Hfull Hfuel')
    as (sk2 & sock2 & E & [C2 S2] & Rx & Q & B & Cf2).
  rewrite Tb in Q, B. change (buf skb) with (@nil char) in Q, B.
  cbn [app] in Q, B. rewrite Hm in Q, B.
  assert (Sp : split_lines [] (join [m] []) = ([m], [])).
  { apply split_lines_of_join; [|reflexivity].
    constructor; [exact Hfree | constructor]. }
  cbn [join] in Sp. rewrite app_nil_r in Sp.
  unfold frames in Q. unfold leftover in B. rewrite Sp in Q, B.
  cbn [fst snd filter] in Q, B.
  replace (nonempty m) with true in Q
    by (destruct m; [contradiction | reflexivity]).
  destruct Cf2 as (G1 & G2 & _ & _ & _ & G6 & _).
  assert (LL : line_loop (S fuel) (t0 + d) skt = (Ret false, sk2)).
  { cbn [line_loop]. unfold bind at 1. rewrite E.
    rewrite C2, Q, B, G1, Hbt, G2, F2. cbn [negb is_empty length orb].
    change (max_buf skb) with (max_buf sk).
    replace (Z.of_nat 0 >=? max_buf sk)%Z with false
      by (symmetry; rewrite Z.geb_leb; apply Z.leb_gt; lia).
    reflexivity. }
  (* the [finally] clause *)
  set (sock3 := match timeout sk with
                | Some v => sock_settimeout v (sock_setblocking true sock2)
                | None => sock_setblocking true sock2
                end).
  exists (set_buf (buf sk)
            (set_blocking_flag true
               (set_s (Some sock3) (set_replies [] sk2)))), sock3.
  split.
  - unfold recv_line. unfold bind at 1. rewrite U.
    change (buf sk0) with (buf sk). fold skb.
    unfold try_finally. unfold bind at 1. rewrite Tq.
    unfold bind at 1. rewrite LL. rewrite G1, Hbt, Q.
    unfold bind at 1. unfold restore_blocking, set_blocking.
    cbn [s set_replies blocking timeout]. rewrite S2, G1, Hbt, G6, F6.
    change (timeout skb) with (timeout sk). reflexivity.
  - repeat split; cbn; auto.
    subst sock3. destruct (timeout sk); exact Rx.
Qed.

(** ** Fixed-size reads *)

Lemma bytes_of_codes_ord (bs : bytes) : bytes_of_codes (map ord bs) = Some bs.
Proof.
  induction bs as [|b bs IH]; [reflexivity|].
  cbn [map bytes_of_codes]. unfold ord at 1.
  rewrite Byte.of_to_N, IH. reflexivity.
Qed.

Lemma script_bytes_after (k : nat) (c : bytes) (rest : list rx_event) :
  script_bytes (if (length c <=? k)%nat then rest
                else RxData (skipn k c) :: rest)
  = skipn k c ++ script_bytes rest.
Proof.
  destruct (length c <=? k)%nat eqn:E.
  - apply Nat.leb_le in E. rewrite (skipn_all2 _ E). reflexivity.
  - reflexivity.
Qed.

(** The first pass of the inner loop of [get_chunks(n)] on an empty buffer,
    the peer having [n] octets or more ready. *)
Lemma fixed_read_one (fuel : nat) (n : Z) (enc : encoding) (sk : Sock)
      (sock : Socket) (c : bytes) (rest : list rx_event) :
  s sk = Some sock -> buf sk = [] -> rx sock = RxData c :: rest ->
  (0 < n)%Z -> (n <= Z.of_nat (length c))%Z -> (n <= chunk_size sk)%Z ->
  (enc = Unicode -> Forall ascii_byte c) ->
  let k := Z.to_nat n in
  let sk1 :=
    set_buf (map ord (firstn k c))
      (note_recv (Got (firstn k c))
         (set_s (Some (mkSocket (if (length c <=? k)%nat then rest
                                 else RxData (skipn k c) :: rest)
                                (tx sock) (connect_error sock) (blk sock)
                                (tmo sock) (wire sock)))
                sk)) in
  recv_chunks (S fuel) enc n n (chunk_size sk) 0 sk
  = if blocking sk then (Ret (Break true 0), sk1)
    else recv_chunks fuel enc n n n 1 sk1.
Proof.
  intros Hs Hb Hrx Hn Hlen Hcs Henc k sk1.
  cbn [recv_chunks]. rewrite Hb. cbn [length].
  replace (Z.of_nat 0 >=? n)%Z with false
    by (symmetry; rewrite Z.geb_leb; apply Z.leb_gt; lia).
  replace (0 >=? n)%Z with false
    by (symmetry; rewrite Z.geb_leb; apply Z.leb_gt; lia).
  cbn [andb]. rewrite Hs.
  replace (if (n - Z.of_nat 0 <? chunk_size sk)%Z
           then (n - Z.of_nat 0)%Z else chunk_size sk) with n
    by (destruct (_ <? _)%Z eqn:E; [lia | apply Z.ltb_ge in E; lia]).
  unfold sock_recv.
  replace (n <? 0)%Z with false by (symmetry; apply Z.ltb_ge; lia).
  rewrite Hrx. fold k.
  assert (Hgot : firstn k c <> []).
  { intros E. apply (f_equal (@length byte)) in E.
    rewrite length_firstn in E. cbn [length] in E. lia. }
  replace (is_empty (firstn k c)) with false
    by (destruct (firstn k c); [contradiction | reflexivity]).
  assert (Hdec : decode enc (firstn k c) = Some (map ord (firstn k c))).
  { destruct enc; [|reflexivity]. cbn [decode].
    apply decode_utf8_ascii.
    apply (@Forall_firstn_skipn _ ascii_byte k c (Henc eq_refl)). }
  rewrite Hdec.
  cbn [buf note_recv set_world set_s set_buf blocking]. rewrite Hb.
  cbn [app]. reflexivity.
Qed.

Lemma fixed_read (fuel : nat) (n : Z) (enc : encoding) (sk : Sock)
      (sock : Socket) (c : bytes) (rest : list rx_event) :
  live sk sock -> buf sk = [] -> rx sock = RxData c :: rest ->
  (0 < n)%Z -> (n <= Z.of_nat (length c))%Z -> (n <= chunk_size sk)%Z ->
  (enc = Unicode -> Forall ascii_byte c) ->
  exists sk1 sock1,
    recv_loop (S (S fuel)) n enc sk = (Ret tt, sk1)
    /\ live sk1 sock1
    /\ script_bytes (rx sock1)
       = skipn (Z.to_nat n) c ++ script_bytes rest
    /\ buf sk1 = map ord (firstn (Z.to_nat n) c)
    /\ replies sk1 = replies sk.
Proof.
  intros [Hc Hs] Hb Hrx Hn Hlen Hcs Henc.
  pose proof (@fixed_read_one (S fuel) n enc sk sock c rest Hs Hb Hrx Hn
                              Hlen Hcs Henc) as P.
  cbv zeta in P.
  set (k := Z.to_nat n) in *.
  set (sock1 := mkSocket (if (length c <=? k)%nat then rest
                          else RxData (skipn k c) :: rest)
                         (tx sock) (connect_error sock) (blk sock)
                         (tmo sock) (wire sock)) in *.
  set (sk1 := set_buf (map ord (firstn k c))
                (note_recv (Got (firstn k c)) (set_s (Some sock1) sk))) in *.
  assert (Hfull : Z.of_nat (length (buf sk1)) = n).
  { change (buf sk1) with (map ord (firstn k c)).
    rewrite length_map, length_firstn. subst k. lia. }
  assert (E : exists cn,
             recv_chunks (S (S fuel)) enc n n (chunk_size sk) 0 sk
             = (Ret (Break true cn), sk1)).
  { rewrite P. destruct (blocking sk); [exists 0%Z; reflexivity|].
    exists 1%Z. cbn [recv_chunks]. rewrite Hfull.
    replace (n >=? n)%Z with true
      by (symmetry; rewrite Z.geb_leb; apply Z.leb_le; lia).
    reflexivity. }
  destruct E as (cn & E).
  exists sk1, sock1. split.
  - cbn [recv_loop]. unfold bind at 1. unfold get_chunks. rewrite Hc.
    cbn [negb]. cbn [repeat_chunks]. rewrite E.
    cbn [negb is_some andb]. rewrite andb_false_r. cbn [andb].
    rewrite Hfull, Z.ltb_irrefl. reflexivity.
  - split; [split; [exact Hc | reflexivity]|].
    split; [apply script_bytes_after|]. split; reflexivity.
Qed.

(** X23.  [recv(n)] hands over exactly [n] octets when the peer has that
    many ready: on a connected channel, blocking or not, whose next arrival
    holds [n] octets or more ([0 < n <= chunk_size]), it returns the first
    [n] of them (as text when the encoding is "unicode", the octets then
    being ASCII, and as the very same octets otherwise), leaves the others
    in the transport for the next read, and the buffer and the queue of
    the channel are as before the call. *)
Theorem recv_takes_exactly (fuel : nat) (n : Z) (enc : encoding)
        (t : option Z) (sk : Sock) (sock : Socket) (c : bytes)
        (rest : list rx_event) :
  live sk sock -> rx sock = RxData c :: rest ->
  (0 < n)%Z -> (n <= Z.of_nat (length c))%Z -> (n <= chunk_size sk)%Z ->
  (enc = Unicode -> Forall ascii_byte c) ->
  exists sk' sock',
    recv (S (S fuel)) n enc t sk
    = (Ret (match enc with
            | Unicode => Text (map ord (firstn (Z.to_nat n) c))
            | Latin1 => Data (firstn (Z.to_nat n) c)
            end), sk')
    /\ live sk' sock'
    /\ script_bytes (rx sock')
       = skipn (Z.to_nat n) c ++ script_bytes rest
    /\ buf sk' = buf sk /\ replies sk' = replies sk.
Proof.
  intros [Hc Hs] Hrx Hn Hlen Hcs Henc.
  destruct (update_timeout_open t sk Hs)
    as (sk0 & sock0 & U & S0 & Rx0 & _ & _ & C0 & B0 & R0 & _).
  pose proof (update_timeout_steady t sk) as ((_ & _ & _ & K0 & _) & _).
  rewrite U in K0. cbn [snd] in K0.
  set (skb := set_buf [] sk0).
  assert (Lb : live skb sock0)
    by (split; [cbn; rewrite C0; exact Hc | exact S0]).
  assert (Hrx0 : rx sock0 = RxData c :: rest) by (rewrite Rx0; exact Hrx).
  assert (Hcsb : (n <= chunk_size skb)%Z)
    by (change (chunk_size skb) with (chunk_size sk0); rewrite K0; exact Hcs).
  destruct (@fixed_read fuel n enc skb sock0 c rest Lb eq_refl Hrx0 Hn Hlen
                        Hcsb Henc)
    as (sk1 & sock1 & E & [C1 S1] & Sb & B1 & R1).
  set (sk2 := set_buf (buf sk0) sk1).
  assert (S2 : s sk2 = Some sock1) by exact S1.
  destruct (restore_blocking_open sk2 S2)
    as (sk' & sock' & F & S' & Rx' & _ & _ & C' & B' & R' & _).
  exists sk', sock'. split.
  - unfold recv. unfold bind at 1. rewrite U.
    unfold try_finally, try_except.
    replace (connected sk0) with true by (rewrite C0; symmetry; exact Hc).
    cbn [negb]. unfold bind at 1, modify at 1. fold skb.
    unfold bind at 1. rewrite E.
    unfold bind at 1, gets at 1. unfold bind at 1, modify at 1.
    fold sk2. rewrite B1.
    destruct enc; [|rewrite bytes_of_codes_ord]; unfold ret;
      rewrite F; reflexivity.
  - split; [split; [rewrite C'; exact C1 | exact S']|].
    split; [rewrite Rx'; exact Sb|].
    split; [rewrite B'; exact B0|].
    rewrite R'. change (replies sk2) with (replies sk1).
    rewrite R1. exact R0.
Qed.

(** ** Counting and then iterating *)

Lemma frames_delim_free (b : ustr) : delim_free b -> frames b = [].
Proof.
  intros H. unfold frames. rewrite (split_lines_tail [] H). reflexivity.
Qed.

(** X24.  Asking for the length spends the replies.  [__len__] calls
    [update], and [update] replaces the queue; so on a calm channel, once
    everything the peer sent has been read, a second [len(sock)] answers
    [0] and an iteration started after [len(sock)] yields nothing, whatever
    number the first call reported. *)
Theorem len_consumes_replies (fuel : nat) (sk : Sock) :
  calm sk -> (length (pending sk) < fuel)%nat ->
  exists k sk1,
    __len__ fuel sk = (Ret k, sk1)
    /\ k = length (replies sk1)
    /\ (pending sk1 = [] ->
        fst (__len__ fuel sk1) = Ret O
        /\ fst (__iter__ fuel sk1) = Ret []).
Proof.
  intros Hcalm Hfuel.
  destruct (@calm_update fuel sk Hcalm Hfuel)
    as (sk1 & got & U & Hcalm1 & _ & _ & _ & B1 & _).
  exists (length (replies sk1)), sk1.
  split; [unfold __len__, bind, gets; rewrite U; reflexivity|].
  split; [reflexivity|].
  intros Hp.
  assert (Hfuel1 : (length (pending sk1) < fuel)%nat)
    by (rewrite Hp; cbn [length]; lia).
  destruct (@calm_update fuel sk1 Hcalm1 Hfuel1)
    as (sk2 & got2 & U2 & _ & _ & G2 & Q2 & _).
  rewrite Hp in G2. cbn [map] in G2. symmetry in G2.
  apply app_eq_nil in G2 as [-> _].
  rewrite app_nil_r, B1 in Q2.
  rewrite frames_delim_free in Q2
    by (apply (proj2 (split_lines_nil_free _))).
  split.
  - unfold __len__, bind, gets. rewrite U2, Q2. reflexivity.
  - unfold __iter__, bind. rewrite U2, Q2. cbn [fst].
    destruct (reply_filter sk2); reflexivity.
Qed.

(** ** The deadline of [recv_line] *)

(** A blocking [update] whose one read times out. *)
Lemma timed_out_update (fuel : nat) (sk : Sock) (sock : Socket)
      (rest : list rx_event) :
  live sk sock -> blocking sk = true -> buf sk = [] ->
  rx sock = RxRaise (SocketTimeout true) :: rest ->
  (0 < max_buf sk)%Z -> (0 <= chunk_size sk)%Z ->
  update (S fuel) sk
  = (Ret tt,
     set_replies []
       (note_recv (Raised (SocketTimeout true))
          (set_s (Some (mkSocket rest (tx sock) (connect_error sock)
                                 (blk sock) (tmo sock) (wire sock)))
                 sk))).
Proof.
  intros [Hc Hs] Hb Hbuf Hrx Hmax Hcs.
  unfold update. unfold bind at 1. unfold get_chunks. rewrite Hc.
  cbn [negb repeat_chunks recv_chunks]. rewrite Hbuf. cbn [length].
  replace (Z.of_nat 0 >=? max_buf sk)%Z with false
    by (symmetry; rewrite Z.geb_leb; apply Z.leb_gt; lia).
  rewrite Hb. cbn [negb]. rewrite andb_false_r, Hs.
  unfold sock_recv.
  replace (_ <? 0)%Z with false
    by (symmetry; apply Z.ltb_ge; destruct (_ <? _)%Z; lia).
  rewrite Hrx. cbn [negb].
  unfold bind, modify, parse_buf.
  cbn [buf note_recv set_world set_s]. rewrite Hbuf. reflexivity.
Qed.

Lemma deadline_loop (t late : Z) (cl : list Z) (rest : list rx_event)
      (early : list Z) :
  forall (fuel : nat) (sk : Sock) (sock : Socket),
    live sk sock -> blocking sk = true -> buf sk = [] ->
    rx sock = repeat (RxRaise (SocketTimeout true)) (S (length early))
              ++ rest ->
    clock (world sk) = early ++ late :: cl ->
    Forall (fun t1 => (t1 < t)%Z) early -> (t <= late)%Z ->
    (0 < max_buf sk)%Z -> (0 <= chunk_size sk)%Z ->
    (length early < fuel)%nat ->
    exists sk' sock',
      line_loop fuel t sk = (Ret false, sk')
      /\ live sk' sock'
      /\ rx sock' = rest /\ tx sock' = tx sock /\ wire sock' = wire sock
      /\ clock (world sk') = cl
      /\ buf sk' = [] /\ replies sk' = []
      /\ same_config sk sk'.
Proof.
  induction early as [|e es IH];
    intros fuel sk sock Hl Hb Hbuf Hrx Hclk Hearly Hlate Hmax Hcs Hfuel;
    (destruct fuel as [|fuel]; [cbn in Hfuel; lia|]);
    cbn [length repeat app] in Hrx;
    cbn [line_loop]; unfold bind at 1;
    rewrite (@timed_out_update fuel sk sock _ Hl Hb Hbuf Hrx Hmax Hcs);
    destruct Hl as [Hc Hs];
    cbn [connected set_replies note_recv set_world set_s replies is_empty
         blocking orb];
    rewrite Hc, Hb; cbn [negb andb];
    unfold bind at 1; unfold time_time at 1;
    cbn [world set_replies note_recv set_world set_s clock];
    rewrite Hclk; cbn [app].
  - replace (late >=? t)%Z with true
      by (symmetry; rewrite Z.geb_leb; apply Z.leb_le; exact Hlate).
    cbn [blocking set_replies note_recv set_world set_s andb].
    rewrite ?Hb.
    eexists. eexists. split; [reflexivity|].
    repeat split; cbn; auto.
  - inversion Hearly as [|e0 es0 He Hes]; subst e0 es0.
    replace (e >=? t)%Z with false
      by (symmetry; rewrite Z.geb_leb; apply Z.leb_gt; exact He).
    cbn [blocking set_replies note_recv set_world set_s andb].
    match goal with |- context [line_loop fuel t ?x] => set (sk2 := x) end.
    set (sock2 := mkSocket (repeat (RxRaise (SocketTimeout true))
                                   (S (length es)) ++ rest)
                           (tx sock) (connect_error sock) (blk sock)
                           (tmo sock) (wire sock)).
    assert (L2 : live sk2 sock2) by (split; [exact Hc | reflexivity]).
    destruct (IH fuel sk2 sock2 L2 Hb Hbuf eq_refl eq_refl Hes Hlate Hmax
                 Hcs)
      as (sk' & sock' & E & L' & Rx & Tx & Wi & Cl & B & Q & Cf).
    + cbn [length] in Hfuel. lia.
    + exists sk', sock'. rewrite E. split; [reflexivity|].
      repeat split; try apply L'; try apply Cf; auto.
Qed.

(** X25.  A blocking [recv_line] gives up at its deadline.  The deadline is
    the first clock reading plus the time-out given.  While every read
    times out and the clock, read after each of them, is short of the
    deadline, [recv_line] tries again; with the first reading at or past
    the deadline it returns the empty string.  The channel stays connected
    and its buffer is what it was before the call, but the queue is empty:
    replies that were waiting in it are dropped. *)
Theorem recv_line_deadline (fuel : nat) (d t0 late : Z)
        (early cl : list Z) (sk : Sock) (sock : Socket)
        (rest : list rx_event) :
  live sk sock -> blocking sk = true ->
  rx sock = repeat (RxRaise (SocketTimeout true)) (S (length early))
            ++ rest ->
  clock (world sk) = t0 :: early ++ late :: cl ->
  Forall (fun t1 => (t1 < t0 + d)%Z) early -> (t0 + d <= late)%Z ->
  (0 < max_buf sk)%Z -> (0 <= chunk_size sk)%Z ->
  (length early < fuel)%nat ->
  exists sk' sock',
    recv_line fuel (Some d) sk = (Ret [], sk')
    /\ live sk' sock'
    /\ rx sock' = rest /\ wire sock' = wire sock
    /\ clock (world sk') = cl
    /\ buf sk' = buf sk /\ replies sk' = [].
Proof.
  intros [Hc Hs] Hb Hrx Hclk Hearly Hlate Hmax Hcs Hfuel.
  set (sock0 := sock_settimeout d (sock_setblocking true sock)).
  set (sk0 := set_blocking_flag true (set_s (Some sock0) sk)).
  assert (U : update_timeout (Some d) sk = (Ret tt, sk0)).
  { unfold update_timeout, set_blocking. rewrite Hb, Hs. reflexivity. }
  set (skb := set_buf [] sk0).
  set (w := world sk) in *.
  set (skt := set_world (mkWorld t0 (early ++ late :: cl) (error_log w)
                                 (recv_log w) (fresh_sockets w)) skb).
  assert (Tq : time_time skb = (Ret t0, skt)).
  { unfold time_time. change (world skb) with w. rewrite Hclk. reflexivity. }
  assert (Lt : live skt sock0) by (split; [exact Hc | reflexivity]).
  destruct (@deadline_loop (t0 + d) late cl rest early fuel skt sock0 Lt
                           eq_refl eq_refl Hrx eq_refl Hearly Hlate Hmax Hcs
                           Hfuel)
    as (sk2 & sock2 & LL & [C2 S2] & Rx & _ & Wi & Cl & B & Q & Cf).
  destruct Cf as (G1 & _ & _ & _ & _ & G6 & _).
  set (sock3 := match timeout sk with
                | Some v => sock_settimeout v (sock_setblocking true sock2)
                | None => sock_setblocking true sock2
                end).
  exists (set_buf (buf sk) (set_blocking_flag true (set_s (Some sock3) sk2))),
    sock3.
  split.
  - unfold recv_line. unfold bind at 1. rewrite U.
    change (buf sk0) with (buf sk). fold skb.
    unfold try_finally. unfold bind at 1. rewrite Tq.
    unfold bind at 1. rewrite LL. rewrite G1, Q.
    change (blocking skt) with true. cbv iota.
    unfold bind at 1. unfold restore_blocking, set_blocking.
    rewrite S2, G1, G6.
    change (blocking skt) with true. change (timeout skt) with (timeout sk).
    reflexivity.
  - repeat split; cbn; auto;
      subst sock3; destruct (timeout sk); auto.
Qed.

(** ** Instances *)

Lemma parse_buf_of_join_witness :
  parse_buf (set_buf (join [text "a"; []; text "b"] (text "c")) unconnected)
  = (Ret (filter nonempty [text "a"; []; text "b"]),
     set_buf (text "c") unconnected).
Proof.
  apply parse_buf_of_join; [|reflexivity].
  repeat (constructor; [reflexivity|]). constructor.
Defined.

Lemma iter_filters_and_clears_witness :
  replies (snd (__iter__ 10 (with_filter (ustr_eqb (text "two")) two_lines)))
  = []
  /\ forall keep,
      reply_filter (with_filter (ustr_eqb (text "two")) two_lines)
      = Some keep ->
      Forall (fun m => keep m = true) [text "two"].
Proof.
  apply (@iter_filters_and_clears
           10 (with_filter (ustr_eqb (text "two")) two_lines) [text "two"]).
  vm_compute. reflexivity.
Defined.

Lemma recv_on_return_witness :
  buf (snd (recv 10 3 Unicode (Some 10%Z) line_ready)) = buf line_ready
  /\ replies (snd (recv 10 3 Unicode (Some 10%Z) line_ready))
     = replies line_ready
  /\ same_config line_ready (snd (recv 10 3 Unicode (Some 10%Z) line_ready))
  /\ (Z.of_nat (data_length (Text (text "hel"))) <= Z.max 0 3)%Z.
Proof.
  apply (@recv_on_return 10 3 Unicode (Some 10%Z) line_ready
                         (Text (text "hel"))).
  vm_compute. reflexivity.
Defined.

Lemma recv_line_on_return_witness :
  buf (snd (recv_line 10 (Some 2%Z) line_ready_blocking))
  = buf line_ready_blocking
  /\ (blocking line_ready_blocking = false -> text "hello" = []).
Proof.
  apply (@recv_line_on_return 10 (Some 2%Z) line_ready_blocking
                              (text "hello")).
  vm_compute. reflexivity.
Defined.

Lemma closed_line_ready : torn_down (snd (close line_ready)).
Proof. split; reflexivity. Defined.

Lemma io_on_closed_channel_witness :
  (fst (send (Str (text "PING")) false (Some 5%Z) (snd (close line_ready)))
   = Raise AttributeError
   /\ torn_down (snd (send (Str (text "PING")) false (Some 5%Z)
                           (snd (close line_ready)))))
  /\ (fst (send_line (Str (text "PING")) (Some 5%Z) (snd (close line_ready)))
      = Raise AttributeError
      /\ torn_down (snd (send_line (Str (text "PING")) (Some 5%Z)
                                   (snd (close line_ready)))))
  /\ (fst (recv 9 3 Unicode (Some 5%Z) (snd (close line_ready)))
      = Raise AttributeError
      /\ torn_down (snd (recv 9 3 Unicode (Some 5%Z)
                              (snd (close line_ready)))))
  /\ (fst (recv_line 10 (Some 5%Z) (snd (close line_ready)))
      = Raise AttributeError
      /\ torn_down (snd (recv_line 10 (Some 5%Z) (snd (close line_ready))))).
Proof.
  exact (@io_on_closed_channel 9 (Str (text "PING")) false 3 Unicode
                               (Some 5%Z) (snd (close line_ready))
                               closed_line_ready).
Defined.

Lemma io_before_connect_witness :
  (fst (send (Str (text "PING")) false (Some 5%Z) unconnected) = Ret O
   /\ transport_idle unconnected
                     (snd (send (Str (text "PING")) false (Some 5%Z)
                                unconnected)))
  /\ (fst (send_line (Str (text "PING")) (Some 5%Z) unconnected) = Ret O
      /\ transport_idle unconnected
                        (snd (send_line (Str (text "PING")) (Some 5%Z)
                                        unconnected)))
  /\ (fst (recv 10 3 Unicode (Some 5%Z) unconnected) = Ret (Text [])
      /\ transport_idle unconnected
                        (snd (recv 10 3 Unicode (Some 5%Z) unconnected))
      /\ buf (snd (recv 10 3 Unicode (Some 5%Z) unconnected))
         = buf unconnected).
Proof.
  refine (@io_before_connect 10 (Str (text "PING")) false 3 Unicode
                             (Some 5%Z) unconnected _ _ _);
    reflexivity.
Defined.

Lemma update_when_disconnected_witness :
  fst (update 10 (set_buf (text "a" ++ CRLF ++ text "b") unconnected))
  = Ret tt
  /\ replies (snd (update 10 (set_buf (text "a" ++ CRLF ++ text "b")
                                      unconnected)))
     = frames (text "a" ++ CRLF ++ text "b")
  /\ buf (snd (update 10 (set_buf (text "a" ++ CRLF ++ text "b")
                                  unconnected)))
     = leftover (text "a" ++ CRLF ++ text "b")
  /\ s (snd (update 10 (set_buf (text "a" ++ CRLF ++ text "b") unconnected)))
     = s unconnected
  /\ world (snd (update 10 (set_buf (text "a" ++ CRLF ++ text "b")
                                    unconnected)))
     = world unconnected
  /\ connected (snd (update 10 (set_buf (text "a" ++ CRLF ++ text "b")
                                        unconnected)))
     = false.
Proof.
  apply (@update_when_disconnected
           10 (set_buf (text "a" ++ CRLF ++ text "b") unconnected)).
  reflexivity.
Defined.

Lemma send_single_attempt_witness :
  exists sk' sock',
    send (Str (text "PING")) false (Some 5%Z) slow_kernel
    = (Ret (Nat.min 1 (length (octets "PING"))), sk')
    /\ live sk' sock'
    /\ wire sock' = [] ++ firstn 1 (octets "PING")
    /\ tx sock' = [TxAccept 2].
Proof.
  refine (@send_single_attempt
            (Str (text "PING")) (octets "PING") (Some 5%Z) slow_kernel
            (mkSocket [] [TxAccept 1; TxAccept 2] None false (Some 0%Z) [])
            1 [TxAccept 2] _ _ _ _ _ _).
  - split; reflexivity.
  - reflexivity.
  - reflexivity.
  - discriminate.
  - reflexivity.
  - lia.
Defined.

Lemma send_empty_closes_witness :
  fst (send (Str []) false (Some 5%Z) slow_kernel) = Raise AttributeError
  /\ torn_down (snd (send (Str []) false (Some 5%Z) slow_kernel)).
Proof.
  refine (@send_empty_closes (Str []) false (Some 5%Z) slow_kernel _ _ _).
  - split; reflexivity.
  - reflexivity.
Defined.

Lemma reconnect_after_close_witness :
  exists sk' sock',
    reconnect (snd (close with_spare)) = (Ret tt, sk')
    /\ live sk' sock'
    /\ rx sock' = rx (peer [] []) /\ tx sock' = tx (peer [] [])
    /\ wire sock' = wire (peer [] [])
    /\ buf sk' = buf with_spare /\ replies sk' = replies with_spare.
Proof.
  refine (proj1 (@reconnect_after_close "peer"%string 8540 with_spare
                                        (peer [] []) [] _ _ _) _);
    reflexivity.
Defined.

Lemma fetch_gives_up_witness :
  exists sk',
    get_chunks 10 None Unicode hung_up = (Ret tt, sk')
    /\ torn_down sk'
    /\ buf sk' = buf hung_up /\ replies sk' = replies hung_up
    /\ error_log (world sk') = error_log (world hung_up).
Proof.
  refine (@fetch_gives_up 9 None Unicode hung_up _ (RxData []) [] _ _ _ _ _
                          _).
  - split; reflexivity.
  - reflexivity.
  - reflexivity.
  - reflexivity.
  - left. reflexivity.
  - vm_compute. discriminate.
Defined.

Lemma jammed_full :
  connected jammed = true /\ blocking jammed = true
  /\ (max_buf jammed <= buf_len jammed)%Z
  /\ contains (delimiter jammed) (buf jammed) = false.
Proof.
  repeat split. vm_compute. discriminate.
Defined.

Lemma blocking_fetch_never_returns_witness :
  get_chunks 1000 None Unicode jammed = (OutOfFuel, jammed)
  /\ update 1000 jammed = (OutOfFuel, jammed)
  /\ __len__ 1000 jammed = (OutOfFuel, jammed)
  /\ __iter__ 1000 jammed = (OutOfFuel, jammed).
Proof.
  exact (@blocking_fetch_never_returns
           1000 jammed (proj1 jammed_full) (proj1 (proj2 jammed_full))
           (proj1 (proj2 (proj2 jammed_full)))
           (proj2 (proj2 (proj2 jammed_full)))).
Defined.


Lemma line_round_trip_witness :
  (exists sk' sock',
      send_line (Str (text "hello")) (Some 5%Z) slow_kernel
      = (Ret (length (text "hello") + 2)%nat, sk')
      /\ live sk' sock'
      /\ wire sock' = [] ++ pending hello_in_pieces)
  /\ (exists out rk',
         poll 11 10 hello_in_pieces = (Ret out, rk')
         /\ concat out = [text "hello"]
         /\ buf rk' = [] /\ pending rk' = []).
Proof.
  refine (@line_round_trip
            (text "hello") (octets "hello") (Some 5%Z) slow_kernel
            (mkSocket [] [TxAccept 1; TxAccept 2] None false (Some 0%Z) [])
            hello_in_pieces 11 10
            _ _ _ _ _ _ hello_in_pieces_calm _ _ _ _ _ _).
  - split; reflexivity.
  - reflexivity.
  - repeat constructor.
  - reflexivity.
  - discriminate.
  - reflexivity.
  - reflexivity.
  - reflexivity.
  - vm_compute. discriminate.
  - reflexivity.
  - vm_compute. lia.
  - vm_compute. lia.
Defined.

Lemma line_in_two_chunks :
  Forall (fun c => c <> [] /\ Forall ascii_byte c
                   /\ (Z.of_nat (length c) <= chunk_size line_in_two)%Z)
         [octets "hel"; octets "lo" ++ crlf].
Proof.
  unfold ascii_byte.
  repeat constructor; try discriminate; vm_compute; discriminate.
Defined.

Lemma blocking_update_reads_to_line_witness :
  exists sk' sock',
    update 10 line_in_two = (Ret tt, sk')
    /\ live sk' sock'
    /\ rx sock' = [RxData (octets "next")]
    /\ replies sk'
       = frames (buf line_in_two
                 ++ map ord (concat [octets "hel"; octets "lo" ++ crlf]))
    /\ buf sk'
       = leftover (buf line_in_two
                   ++ map ord (concat [octets "hel"; octets "lo" ++ crlf])).
Proof.
  refine (@blocking_update_reads_to_line
            10 line_in_two _ [octets "hel"; octets "lo" ++ crlf]
            [RxData (octets "next")] _ _ _ _ _ line_in_two_chunks _ _ _ _).
  - split; reflexivity.
  - reflexivity.
  - reflexivity.
  - reflexivity.
  - discriminate.
  - vm_compute. discriminate.
  - reflexivity.
  - reflexivity.
  - vm_compute. lia.
Defined.

Lemma recv_line_blocking_returns_line_witness :
  exists sk' sock',
    recv_line 10 (Some 2%Z) line_in_two = (Ret (text "hello"), sk')
    /\ live sk' sock'
    /\ rx sock' = [RxData (octets "next")]
    /\ buf sk' = buf line_in_two /\ replies sk' = [].
Proof.
  refine (@recv_line_blocking_returns_line
            9 2 line_in_two _ [octets "hel"; octets "lo" ++ crlf]
            [RxData (octets "next")] (text "hello")
            _ _ _ _ line_in_two_chunks _ _ _ _ _).
  - split; reflexivity.
  - reflexivity.
  - reflexivity.
  - reflexivity.
  - reflexivity.
  - discriminate.
  - reflexivity.
  - vm_compute. discriminate.
  - vm_compute. lia.
Defined.

Lemma recv_takes_exactly_witness :
  exists sk' sock',
    recv 10 3 Latin1 (Some 10%Z) line_ready
    = (Ret (Data (firstn (Z.to_nat 3) (octets "hello" ++ crlf))), sk')
    /\ live sk' sock'
    /\ script_bytes (rx sock')
       = skipn (Z.to_nat 3) (octets "hello" ++ crlf) ++ script_bytes []
    /\ buf sk' = buf line_ready /\ replies sk' = replies line_ready.
Proof.
  refine (@recv_takes_exactly 8 3 Latin1 (Some 10%Z) line_ready _
                              (octets "hello" ++ crlf) [] _ _ _ _ _ _).
  - split; reflexivity.
  - reflexivity.
  - reflexivity.
  - vm_compute. discriminate.
  - vm_compute. discriminate.
  - discriminate.
Defined.

Lemma two_lines_calm : calm two_lines.
Proof.
  unfold calm. split; [reflexivity|]. split; [reflexivity|].
  split; [|split; [reflexivity|repeat constructor]].
  eexists. split; [reflexivity|].
  unfold benign, ascii_byte.
  repeat constructor; discriminate.
Defined.

Lemma len_consumes_replies_witness :
  exists k sk1,
    __len__ 20 two_lines = (Ret k, sk1)
    /\ k = length (replies sk1)
    /\ (pending sk1 = [] ->
        fst (__len__ 20 sk1) = Ret O
        /\ fst (__iter__ 20 sk1) = Ret []).
Proof.
  apply (@len_consumes_replies 20 two_lines two_lines_calm).
  vm_compute. lia.
Defined.

Lemma recv_line_deadline_witness :
  exists sk' sock',
    recv_line 10 (Some 2%Z) silent_peer = (Ret [], sk')
    /\ live sk' sock'
    /\ rx sock' = [] /\ wire sock' = []
    /\ clock (world sk') = []
    /\ buf sk' = buf silent_peer /\ replies sk' = [].
Proof.
  refine (@recv_line_deadline
            10 2 100 103 [101%Z] [] silent_peer
            (mkSocket [RxRaise (SocketTimeout true);
                       RxRaise (SocketTimeout true)] [] None true
                      (Some 5%Z) [])
            [] _ _ _ _ _ _ _ _ _).
  - split; reflexivity.
  - reflexivity.
  - reflexivity.
  - reflexivity.
  - repeat constructor.
  - vm_compute. discriminate.
  - reflexivity.
  - vm_compute. discriminate.
  - vm_compute. lia.
Defined.
